(** * AutoML: the plan-based column transformation engine

    A shallow embedding of the column registry, the per-domain suggestion
    rules and the plan application loops of the AutoML backend
    ([src/backend/data_utils.py], [column_ops.py], [missing_values.py],
    [outliers.py], [correlation_utils.py] and the HTTP endpoints of
    [backend.py]).

    Conventions of the embedding.
    - A pandas float is an exact rational or NaN: [float := option Q], with
      [None] for NaN.  Every comparison with NaN is false, as in Python.
      Computed rationals are kept in lowest terms ([Qred]).
    - A cell of a column is a missing marker, a number or a string; a
      numeric column holds numbers and missing markers only.  The column
      names of a frame are distinct, as [pd.read_csv] makes them; the
      properties that look a column up by name say so.
    - A dtype is its pandas name (["float64"], ["int64"], ["object"], ...),
      which is what [str(dtype)] and [select_dtypes] look at.
    - A Python [dict] is an association list in insertion order; a Python
      [set] of ids is a [gset Z], and a loop over a set visits [elements] of
      it, one fixed order (Python leaves the order of a set open).
    - Exceptions are values of [result]; [input()] reads from a list of
      answers carried in the state.
    - The statistical collaborators whose value is not rational or not
      determined by the source (skew, Pearson correlation, string-to-number
      parsing of [pd.to_numeric]) are parameters of the sections that use
      them. *)

From Stdlib Require Import QArith Qround Qabs Lqa Ascii.
From Stdlib Require DecimalString DecimalNat.
From stdpp Require Import gmap strings list.

Open Scope string_scope.
Open Scope list_scope.
Open Scope Z_scope.

(** ** Floats, cells, series and frames *)

Definition float := option Q.
Definition NaN : float := None.

Definition Qlt_bool (x y : Q) : bool := negb (Qle_bool y x).

Definition fgt (a b : float) : bool :=
  match a, b with
  | Some x, Some y => Qlt_bool y x
  | _, _ => false
  end.

Definition flt (a b : float) : bool := fgt b a.

Definition fge (a b : float) : bool :=
  match a, b with
  | Some x, Some y => Qle_bool y x
  | _, _ => false
  end.

Definition fle (a b : float) : bool := fge b a.

Definition fabs (a : float) : float := Qabs <$> a.

Inductive cell :=
  | NA
  | Num (q : Q)
  | Str (s : string).

Definition isnull (c : cell) : bool :=
  match c with NA => true | _ => false end.

Definition as_float (c : cell) : float :=
  match c with Num q => Some q | _ => None end.

Definition cell_eqb (a b : cell) : bool :=
  match a, b with
  | NA, NA => true
  | Num x, Num y => Qeq_bool x y
  | Str s, Str t => bool_decide (s = t)
  | _, _ => false
  end.

Record Series := mkSeries {
  name : string;
  dtype : string;
  values : list cell
}.

Record DataFrame := mkFrame {
  nrows : nat;
  cols : list Series
}.

Definition columns (df : DataFrame) : list string := name <$> cols df.

(** ** Exceptions *)

Inductive exn := KeyError | IndexError | ZeroDivisionError | EOFError.

Inductive result (A : Type) :=
  | Ok (a : A)
  | Raise (e : exn).
Arguments Ok {A} a.
Arguments Raise {A} e.

#[global] Instance result_ret : MRet result := λ A a, Ok a.
#[global] Instance result_bind : MBind result := λ A B f r,
  match r with Ok a => f a | Raise e => Raise e end.

#[global] Instance result_fmap : FMap result := λ A B f r,
  match r with Ok a => Ok (f a) | Raise e => Raise e end.

(** ** Frame operations *)

(** [df[col]] *)
Definition getitem (df : DataFrame) (col : string) : result Series :=
  match list_find (λ s, name s = col) (cols df) with
  | Some (_, s) => Ok s
  | None => Raise KeyError
  end.

(** [df[col] = vs] for a column that exists: the values are replaced in
    place, the position of the column is kept. *)
Definition setitem (df : DataFrame) (col : string) (dt : string) (vs : list cell)
  : DataFrame :=
  mkFrame (nrows df)
    ((λ s, if bool_decide (name s = col) then mkSeries col dt vs else s) <$> cols df).

(** [df.drop(columns=names)]: every name must be a column. *)
Definition df_drop (df : DataFrame) (names : list string) : result DataFrame :=
  if bool_decide (Forall (λ n, n ∈ columns df) names)
  then Ok (mkFrame (nrows df) (filter (λ s, name s ∉ names) (cols df)))
  else Raise KeyError.

(** [df[mask].reset_index(drop=True)] *)
Fixpoint select_rows {A} (mask : list bool) (l : list A) : list A :=
  match mask, l with
  | b :: mask', x :: l' => if b then x :: select_rows mask' l' else select_rows mask' l'
  | _, _ => []
  end.

Definition filter_rows (df : DataFrame) (mask : list bool) : DataFrame :=
  mkFrame (length (filter (λ b, b = true) (take (nrows df) mask)))
    ((λ s, mkSeries (name s) (dtype s) (select_rows mask (values s))) <$> cols df).

(** ** Column statistics (pandas defaults: missing values are skipped) *)

Definition dropna (vs : list cell) : list cell := filter (λ c, isnull c = false) vs.

Definition numbers (vs : list cell) : list Q := omap as_float vs.

Fixpoint insert_sorted (x : Q) (l : list Q) : list Q :=
  match l with
  | [] => [x]
  | y :: l' => if Qle_bool x y then x :: l else y :: insert_sorted x l'
  end.

Definition sort_values (l : list Q) : list Q := foldr insert_sorted [] l.

Definition Qsum (l : list Q) : Q := foldr Qplus 0%Q l.

(** [Series.mean()] *)
Definition mean (vs : list cell) : float :=
  match numbers vs with
  | [] => NaN
  | ns => Some (Qred (Qsum ns / inject_Z (Z.of_nat (length ns))))
  end.

(** [Series.quantile(q)], linear interpolation between the two nearest
    order statistics. *)
Definition quantile (vs : list cell) (q : Q) : float :=
  match sort_values (numbers vs) with
  | [] => NaN
  | s =>
      let h := (q * inject_Z (Z.of_nat (length s) - 1))%Q in
      let lo := Z.to_nat (Qfloor h) in
      let frac := (h - inject_Z (Qfloor h))%Q in
      let a := nth lo s 0%Q in
      let b := nth (Nat.min (S lo) (length s - 1)) s 0%Q in
      Some (Qred (a + frac * (b - a)))
  end.

(** [Series.median()] *)
Definition median (vs : list cell) : float := quantile vs (1 # 2).

(** [Series.nunique()] *)
Fixpoint unique (vs : list cell) : list cell :=
  match vs with
  | [] => []
  | v :: vs' => v :: filter (λ c, cell_eqb v c = false) (unique vs')
  end.

Definition nunique (vs : list cell) : nat := length (unique (dropna vs)).

Definition count_of (v : cell) (vs : list cell) : nat :=
  length (filter (λ c, cell_eqb v c = true) vs).

Definition cell_leb (a b : cell) : bool :=
  match a, b with
  | Num x, Num y => Qle_bool x y
  | Str s, Str t => bool_decide (String.leb s t = true)
  | Num _, _ => true
  | _, _ => false
  end.

Fixpoint insert_cell (x : cell) (l : list cell) : list cell :=
  match l with
  | [] => [x]
  | y :: l' => if cell_leb x y then x :: l else y :: insert_cell x l'
  end.

(** [Series.mode()]: the most frequent non-missing values, in ascending
    order; empty when every value is missing. *)
Definition mode (vs : list cell) : list cell :=
  let present := dropna vs in
  let best := foldr Nat.max 0%nat ((λ v, count_of v present) <$> present) in
  foldr insert_cell [] (filter (λ v, count_of v present = best) (unique present)).

(** [Series.fillna(v)] *)
Definition fillna (v : cell) (vs : list cell) : list cell :=
  (λ c, if isnull c then v else c) <$> vs.

(** [Series.clip(lower, upper)]: first raised to [lower], then lowered to
    [upper]; a NaN bound does not clip; missing cells stay missing. *)
Definition clip_cell (lower upper : float) (c : cell) : cell :=
  match c with
  | Num x =>
      let y := match lower with
               | Some l => if Qlt_bool x l then l else x
               | None => x
               end in
      Num (match upper with
           | Some u => if Qlt_bool u y then u else y
           | None => y
           end)
  | _ => c
  end.

Definition clip (lower upper : float) (vs : list cell) : list cell :=
  clip_cell lower upper <$> vs.

(** [round(x, 2)], ties to even *)
Definition round_half_even (q : Q) : Z :=
  let f := Qfloor q in
  let r := (q - inject_Z f)%Q in
  if Qlt_bool r (1 # 2) then f
  else if Qeq_bool r (1 # 2) then (if Z.even f then f else f + 1)
  else f + 1.

Definition round2 (q : Q) : Q := Qred (inject_Z (round_half_even (q * 100)) / 100).

Definition fround2 (x : float) : float := round2 <$> x.

(** [n / len(df) * 100] on a pandas Series: division by zero gives NaN *)
Definition percentage (n len : nat) : float :=
  if bool_decide (len = 0%nat) then NaN
  else Some (inject_Z (Z.of_nat n) / inject_Z (Z.of_nat len) * 100)%Q.

(** ** ColumnRegistry: [get_df_info] (data_utils.py) *)

Record ColumnInfo := mkInfo {
  info_id : Z;
  column_name : string;
  info_dtype : string;
  percentage_unique : float;
  percentage_missing : float
}.

Definition null_count (vs : list cell) : nat := length (filter (λ c, isnull c = true) vs).

(** The row of [df_info] for the column [s] at position [i] (from 0). *)
Definition descriptor (df : DataFrame) (i : nat) (s : Series) : ColumnInfo :=
  mkInfo (Z.of_nat i + 1) (name s) (dtype s)
    (fround2 (percentage (nunique (values s)) (nrows df)))
    (fround2 (percentage (null_count (values s)) (nrows df))).

Definition get_df_info (df : DataFrame) : list ColumnInfo := imap (descriptor df) (cols df).

(** ** Python dictionaries, in insertion order *)

Section Dict.
Context {K V : Type} `{EqDecision K}.

Definition dict := list (K * V).

Fixpoint dict_get (k : K) (d : dict) : option V :=
  match d with
  | [] => None
  | (k', v) :: d' => if decide (k' = k) then Some v else dict_get k d'
  end.

(** [d[k] = v]: an existing key keeps its position. *)
Fixpoint dict_set (k : K) (v : V) (d : dict) : dict :=
  match d with
  | [] => [(k, v)]
  | (k', v') :: d' =>
      if decide (k' = k) then (k, v) :: d' else (k', v') :: dict_set k v d'
  end.

Definition keys (d : dict) : list K := fst <$> d.
End Dict.
Arguments dict : clear implicits.

(** [for e in es: st = step(e, st)], stopping at the first exception. *)
Fixpoint for_each {E S : Type} (step : E → S → result S) (es : list E) (st : S)
  : result S :=
  match es with
  | [] => mret st
  | e :: es' => st' ← step e st; for_each step es' st'
  end.

(** [for row in rows: k, v = body(row); d[k] = v] *)
Definition collect {A K V : Type} `{EqDecision K} (body : A → result (K * V))
    (rows : list A) (d : dict K V) : result (dict K V) :=
  for_each (λ row d, '(k, v) ← body row; mret (dict_set k v d)) rows d.

(** A plan of the interactive path maps an action to a set of column ids
    ([parse_user_plan], or built from the suggestions); a plan of the HTTP
    path maps an action to a list of ids ([dict[str, list[int]]]). *)
Definition Plan := dict string (gset Z).
Definition ApiPlan := dict string (list Z).

(** [plan.setdefault(action, set()).add(col_id)] *)
Definition setdefault_add (action : string) (col_id : Z) (plan : Plan) : Plan :=
  dict_set action (default ∅ (dict_get action plan) ∪ {[col_id]}) plan.

(** The pairs [(action, cid)] in the order the nested loops
    [for action, ids in plan.items(): for cid in ids:] visit them. *)
Definition api_entries (plan : ApiPlan) : list (string * Z) :=
  '(action, ids) ← plan; (λ cid, (action, cid)) <$> ids.

(** [for action, col_ids in plan.items():
       valid_ids = [cid for cid in col_ids if cid in target_ids]
       for col_id in valid_ids:] *)
Definition plan_entries (plan : Plan) (target_ids : gset Z) : list (string * Z) :=
  '(action, col_ids) ← plan;
  (λ cid, (action, cid)) <$> filter (λ cid, cid ∈ target_ids) (elements col_ids).

(** ** Missing values: suggestions *)

(** [df_info[df_info["percentage_missing"] > 0]] *)
Definition missing_cols_of (df_info : list ColumnInfo) : list ColumnInfo :=
  filter (λ r, fgt (percentage_missing r) (Some 0%Q) = true) df_info.

Section MissingSuggestions.
(** [Series.skew()], and the two pandas dtype tests of the interactive
    path, applied to the dtype entry of a descriptor. *)
Variable skew : list cell → float.
Variable is_object_dtype : string → bool.
Variable isinstance_CategoricalDtype : string → bool.

Definition is_categorical (dt : string) : bool :=
  is_object_dtype dt || isinstance_CategoricalDtype dt.

(** [col_data.skew() if len(col_data) > 0 else 0] *)
Definition skew_or_zero (col_data : list cell) : float :=
  if bool_decide (0 < length col_data)%nat then skew col_data else Some 0%Q.

(** [generate_global_suggestion] (missing_values.py) *)
Definition suggest_row (df : DataFrame) (row : ColumnInfo) : result (Z * string) :=
  s ← getitem df (column_name row);
  let col_data := dropna (values s) in
  mret (info_id row,
        if fgt (percentage_missing row) (Some 50%Q) then "drop_col"
        else if is_categorical (info_dtype row) then "mode"
        else if fgt (fabs (skew_or_zero col_data)) (Some 1%Q) then "median"
        else "mean").

Definition generate_global_suggestion (df : DataFrame)
    (df_info missing_cols : list ColumnInfo) : result (dict Z string) :=
  collect (suggest_row df) missing_cols [].

(** [api_missing_suggestions] (backend.py) *)
Record MissingSuggestion := mkMissingSuggestion {
  ms_column : string;
  ms_missing_pct : float;
  suggested_action : string
}.

Definition api_suggest_row (df : DataFrame) (row : ColumnInfo)
  : result (Z * MissingSuggestion) :=
  let col := column_name row in
  let pct := percentage_missing row in
  s ← getitem df col;
  let action :=
    if fgt pct (Some 50%Q) then "drop_col"
    else if bool_decide (dtype s ∈ ["object"; "category"]) then "mode"
    else if fgt (fabs (skew_or_zero (dropna (values s)))) (Some 1%Q) then "median"
    else "mean" in
  mret (info_id row, mkMissingSuggestion col pct action).

Definition api_missing_suggestions (df : DataFrame)
  : result (dict Z MissingSuggestion) :=
  let info_df := get_df_info df in
  collect (api_suggest_row df) (missing_cols_of info_df) [].
End MissingSuggestions.

#[global] Instance MissingSuggestion_inhabited : Inhabited MissingSuggestion :=
  populate (mkMissingSuggestion "" NaN "").

(** ** Missing values: coverage of a plan (handle_missing_values) *)

(** [covered_ids = set(); for ids in user_plan.values(): covered_ids.update(ids)] *)
Definition covered_ids (user_plan : Plan) : gset Z :=
  foldl (λ acc p, acc ∪ p.2) ∅ user_plan.

(** [all_missing_ids = set(missing_cols["id"])] *)
Definition all_missing_ids (missing_cols : list ColumnInfo) : gset Z :=
  list_to_set (info_id <$> missing_cols).

Definition uncovered_ids (eligible_ids : gset Z) (user_plan : Plan) : gset Z :=
  eligible_ids ∖ covered_ids user_plan.

(** Choice "2" of the resolution prompt:
    [for col_id in uncovered_ids:
        act = global_suggestion.get(col_id, "median")
        temp_plan.setdefault(act, set()).add(col_id)] *)
Definition temp_plan (global_suggestion : dict Z string) (uncovered : gset Z) : Plan :=
  foldl (λ plan col_id,
      setdefault_add (default "median" (dict_get col_id global_suggestion)) col_id plan)
    [] (elements uncovered).

(** [user_plan] after the global suggestion is approved:
    [for col_id, action in global_suggestion.items():
        user_plan.setdefault(action, set()).add(col_id)] *)
Definition plan_of_suggestion (global_suggestion : dict Z string) : Plan :=
  foldl (λ plan '(col_id, action), setdefault_add action col_id plan) [] global_suggestion.

(** ** Missing values: applying a plan *)

(** The replayable statements appended to the log. *)
Definition log_to_numeric (col : string) : string :=
  "df['" +:+ col +:+ "'] = pd.to_numeric(df['" +:+ col +:+ "'], errors='raise')".
Definition log_fillna (col stat : string) : string :=
  "df['" +:+ col +:+ "'].fillna(df['" +:+ col +:+ "']." +:+ stat +:+ ", inplace=True)".
Definition log_drop (col : string) : string :=
  "df.drop(columns=['" +:+ col +:+ "'], inplace=True)".

(** [df[col] = df[col].fillna(val)] for a float [val]; filling with NaN
    changes nothing. *)
Definition fill_float (df : DataFrame) (col : string) (s : Series) (val : float)
  : DataFrame :=
  match val with
  | Some v => setitem df col (dtype s) (fillna (Num v) (values s))
  | None => df
  end.

(** What the body of a loop does next: go on with the rest of the body, or
    [continue] with the next column. *)
Inductive flow := Proceed | Continue.

Section MissingApply.
(** [pd.to_numeric(series, errors="raise")]: the dtype and the values of
    the converted series, or [None] when it raises. *)
Variable to_numeric : list cell → option (string * list cell).

(** *** The HTTP path: [api_missing_apply] (backend.py) *)

Definition ApiState : Type := DataFrame * list string.

Definition api_coercion_gate (action col : string) (st : ApiState)
  : result (flow * ApiState) :=
  let '(df, logs) := st in
  s ← getitem df col;
  let is_cat := bool_decide (dtype s ∈ ["object"; "category"]) in
  if bool_decide (action ∈ ["mean"; "median"]) && is_cat then
    match to_numeric (values s) with
    | Some (dt, vs) => mret (Proceed, (setitem df col dt vs, logs ++ [log_to_numeric col]))
    | None => mret (Continue, st)
    end
  else mret (Proceed, st).

Definition api_fill (action col : string) (st : ApiState) : result ApiState :=
  let '(df, logs) := st in
  if bool_decide (action = "mean") then
    s ← getitem df col;
    mret (fill_float df col s (mean (values s)), logs ++ [log_fillna col "mean()"])
  else if bool_decide (action = "median") then
    s ← getitem df col;
    mret (fill_float df col s (median (values s)), logs ++ [log_fillna col "median()"])
  else if bool_decide (action = "mode") then
    s ← getitem df col;
    match mode (values s) with
    | m :: _ =>
        mret (setitem df col (dtype s) (fillna m (values s)),
              logs ++ [log_fillna col "mode()[0]"])
    | [] => mret st
    end
  else if bool_decide (action = "drop_col") then
    df' ← df_drop df [col];
    mret (df', logs ++ [log_drop col])
  else mret st.

(** The loop body once the id is resolved to the column [col]. *)
Definition api_missing_action (action col : string) (st : ApiState) : result ApiState :=
  '(fl, st') ← api_coercion_gate action col st;
  match fl with
  | Continue => mret st'
  | Proceed => api_fill action col st'
  end.

Definition in_range (cid : Z) (n : nat) : bool :=
  bool_decide (1 ≤ cid ≤ Z.of_nat n).

(** The loop body: [cols] is [list(df.columns)] taken before the loop. *)
Definition api_missing_step (cols : list string) (e : string * Z) (st : ApiState)
  : result ApiState :=
  let '(action, cid) := e in
  if negb (in_range cid (length cols)) then mret st
  else
    match cols !! Z.to_nat (cid - 1) with
    | Some col => api_missing_action action col st
    | None => Raise IndexError
    end.

Definition api_missing_apply (df : DataFrame) (plan : ApiPlan) : result ApiState :=
  let cols := columns df in
  for_each (api_missing_step cols) (api_entries plan) (df, []).

(** *** The interactive path: [apply_actions] (missing_values.py)

    [current_df] and [log_code] are shared with the caller and mutated in
    place.  [current_info] starts as an alias of the caller's
    [updated_info]; [drop_col] rebinds the local name to a filtered copy,
    after which dtype updates no longer reach the caller's object.
    [answers] are the replies still to be read by [input()], as seen after
    [.strip().lower()]. *)
Variable is_object_dtype : string → bool.
Variable isinstance_CategoricalDtype : string → bool.

Record CliState := mkCli {
  current_df : DataFrame;
  updated_info : list ColumnInfo;
  current_info : list ColumnInfo;
  aliased : bool;
  log_code : list string;
  answers : list string
}.

Definition set_info_dtype (col dt : string) (info : list ColumnInfo) : list ColumnInfo :=
  (λ r, if bool_decide (column_name r = col)
        then mkInfo (info_id r) (column_name r) dt (percentage_unique r) (percentage_missing r)
        else r) <$> info.

(** [info[info["id"] == col_id][...].iloc[0]] *)
Definition info_row (info : list ColumnInfo) (col_id : Z) : result ColumnInfo :=
  match list_find (λ r, info_id r = col_id) info with
  | Some (_, r) => Ok r
  | None => Raise IndexError
  end.

(** The state after [input()] has read one reply. *)
Definition with_answers (st : CliState) (rest : list string) : CliState :=
  mkCli (current_df st) (updated_info st) (current_info st) (aliased st)
    (log_code st) rest.

(** The state after a successful conversion of [col_name]: the column is
    replaced as a whole, its descriptor gets the new dtype, and the
    conversion is logged. *)
Definition coerced (st : CliState) (col_name dt : string) (vs : list cell) : CliState :=
  mkCli (setitem (current_df st) col_name dt vs)
    (if aliased st then set_info_dtype col_name dt (updated_info st)
     else updated_info st)
    (set_info_dtype col_name dt (current_info st))
    (aliased st)
    (log_code st ++ [log_to_numeric col_name])
    (answers st).

Definition cli_coercion_gate (action : string) (row : ColumnInfo) (st : CliState)
  : result (flow * CliState) :=
  let col_name := column_name row in
  if bool_decide (action ∈ ["mean"; "median"])
     && is_categorical is_object_dtype isinstance_CategoricalDtype (info_dtype row)
  then
    match answers st with
    | [] => Raise EOFError
    | convert :: rest =>
        let st := with_answers st rest in
        if bool_decide (convert = "y") then
          match getitem (current_df st) col_name with
          | Ok s =>
              match to_numeric (values s) with
              | Some (dt, vs) => mret (Proceed, coerced st col_name dt vs)
              | None => mret (Continue, st)
              end
          | Raise _ => mret (Continue, st)
          end
        else mret (Continue, st)
    end
  else mret (Proceed, st).

Definition with_df (st : CliState) (df : DataFrame) (line : string) : CliState :=
  mkCli df (updated_info st) (current_info st) (aliased st)
    (log_code st ++ [line]) (answers st).

Definition cli_fill (action : string) (col_id : Z) (col_name : string) (st : CliState)
  : result CliState :=
  if bool_decide (action = "mean") then
    s ← getitem (current_df st) col_name;
    match mean (values s) with
    | Some v =>
        mret (with_df st (setitem (current_df st) col_name (dtype s)
                            (fillna (Num v) (values s)))
                (log_fillna col_name "mean()"))
    | None => mret st
    end
  else if bool_decide (action = "median") then
    s ← getitem (current_df st) col_name;
    match median (values s) with
    | Some v =>
        mret (with_df st (setitem (current_df st) col_name (dtype s)
                            (fillna (Num v) (values s)))
                (log_fillna col_name "median()"))
    | None => mret st
    end
  else if bool_decide (action = "mode") then
    s ← getitem (current_df st) col_name;
    match mode (values s) with
    | m :: _ =>
        mret (with_df st (setitem (current_df st) col_name (dtype s)
                            (fillna m (values s)))
                (log_fillna col_name "mode()[0]"))
    | [] => mret st
    end
  else if bool_decide (action = "drop_col") then
    df' ← df_drop (current_df st) [col_name];
    mret (mkCli df' (updated_info st)
            (filter (λ r, info_id r ≠ col_id) (current_info st))
            false (log_code st ++ [log_drop col_name]) (answers st))
  else mret st.

Definition cli_step (e : string * Z) (st : CliState) : result CliState :=
  let '(action, col_id) := e in
  row ← info_row (current_info st) col_id;
  '(fl, st') ← cli_coercion_gate action row st;
  match fl with
  | Continue => mret st'
  | Proceed => cli_fill action col_id (column_name row) st'
  end.

(** One call [apply_actions(plan, target_ids, updated_df, updated_info)]:
    the local [current_info] is discarded on return. *)
Definition apply_actions (plan : Plan) (target_ids : gset Z)
    (df : DataFrame) (info : list ColumnInfo) (log : list string) (ans : list string)
  : result CliState :=
  for_each cli_step (plan_entries plan target_ids) (mkCli df info info true log ans).
End MissingApply.

(** ** Outliers: detection and suggestion (outliers.py) *)

Definition fsub (a b : float) : float :=
  match a, b with Some x, Some y => Some (Qred (x - y)) | _, _ => NaN end.
Definition fadd (a b : float) : float :=
  match a, b with Some x, Some y => Some (Qred (x + y)) | _, _ => NaN end.
Definition fscale (k : Q) (a : float) : float := (λ x, Qred (k * x)) <$> a.

(** [Q1 - 1.5 * IQR] and [Q3 + 1.5 * IQR] *)
Definition iqr_bounds (vs : list cell) : float * float :=
  let Q1 := quantile vs (1 # 4) in
  let Q3 := quantile vs (3 # 4) in
  let IQR := fsub Q3 Q1 in
  (fsub Q1 (fscale (3 # 2) IQR), fadd Q3 (fscale (3 # 2) IQR)).

(** [(df[col] < lower_bound) | (df[col] > upper_bound)] on one row *)
Definition is_outlier (lower upper : float) (c : cell) : bool :=
  flt (as_float c) lower || fgt (as_float c) upper.

(** [(df[col] >= lower) & (df[col] <= upper)] on one row *)
Definition within (lower upper : float) (c : cell) : bool :=
  fge (as_float c) lower && fle (as_float c) upper.

(** [select_dtypes(include=["float64", "int64"])] and its [.columns] *)
Definition numeric_series (df : DataFrame) : list Series :=
  filter (λ s, dtype s ∈ ["float64"; "int64"]) (cols df).

Definition numeric_cols (df : DataFrame) : list string := name <$> numeric_series df.

Record OutlierRow := mkOutlierRow {
  o_id : Z;
  o_column_name : string;
  outliers_count : nat;
  outliers_pct : Q;
  lower_bound : float;
  upper_bound : float
}.

(** The body of the detection loop: the summary entry of one numeric column,
    if it has outliers.  The id is filled in by the merge below.
    [outliers_count / len(df)] divides two Python integers. *)
Definition outlier_entry (df : DataFrame) (col : string) : result (option OutlierRow) :=
  s ← getitem df col;
  let '(lower, upper) := iqr_bounds (values s) in
  let count := length (filter (λ c, is_outlier lower upper c = true) (values s)) in
  if bool_decide (nrows df = 0%nat) then Raise ZeroDivisionError
  else
    let pct := (inject_Z (Z.of_nat count) / inject_Z (Z.of_nat (nrows df)) * 100)%Q in
    mret (if bool_decide (0 < count)%nat
          then Some (mkOutlierRow 0 col count (round2 pct) (fround2 lower) (fround2 upper))
          else None).

(** [for col in numeric_cols: ... outlier_summary.append(...)] *)
Definition outlier_summary (df : DataFrame) (numeric : list string)
  : result (list OutlierRow) :=
  for_each (λ col summary,
      e ← outlier_entry df col;
      mret (match e with Some o => summary ++ [o] | None => summary end))
    numeric [].

(** [sort_values("outliers_pct", ascending=False)], as a stable insertion
    sort (pandas leaves the order of equal percentages unspecified). *)
Fixpoint insert_desc (x : OutlierRow) (l : list OutlierRow) : list OutlierRow :=
  match l with
  | [] => [x]
  | y :: l' =>
      if Qle_bool (outliers_pct y) (outliers_pct x) then x :: l else y :: insert_desc x l'
  end.

Definition sort_desc (l : list OutlierRow) : list OutlierRow := foldr insert_desc [] l.

(** [df_info[df_info["column_name"].isin(outlier_df["column_name"])]
      [["id", "column_name"]].merge(outlier_df[...], on="column_name")
      .sort_values("outliers_pct", ascending=False)] *)
Definition outlier_cols_info_of (df_info : list ColumnInfo) (outlier_df : list OutlierRow)
  : list OutlierRow :=
  sort_desc (
    r ← filter (λ r, column_name r ∈ (o_column_name <$> outlier_df)) df_info;
    (λ o, mkOutlierRow (info_id r) (column_name r) (outliers_count o) (outliers_pct o)
            (lower_bound o) (upper_bound o))
      <$> filter (λ o, o_column_name o = column_name r) outlier_df).

Definition ascii_lower (a : Ascii.ascii) : Ascii.ascii :=
  let n := Ascii.nat_of_ascii a in
  if bool_decide (65 ≤ n ≤ 90)%nat then Ascii.ascii_of_nat (n + 32) else a.

Fixpoint lower (s : string) : string :=
  match s with
  | EmptyString => EmptyString
  | String a s' => String (ascii_lower a) (lower s')
  end.

(** [p in s] *)
Fixpoint contains (p s : string) : bool :=
  String.prefix p s ||
  match s with
  | EmptyString => false
  | String _ s' => contains p s'
  end.

(** The rule of the suggestion loop; the branch on "rain" gives the same
    action as the default. *)
Definition outlier_action (row : OutlierRow) : string :=
  if Qlt_bool 10 (outliers_pct row) then "remove_rows"
  else if contains "rain" (lower (o_column_name row)) then "cap"
  else "cap".

Definition outlier_global_suggestion (outlier_cols_info : list OutlierRow)
  : dict Z string :=
  foldl (λ d row, dict_set (o_id row) (outlier_action row) d) [] outlier_cols_info.

(** The diagnostic part of [detect_and_handle_outliers]: the table
    [outlier_cols_info] and the suggestion built from it. *)
Definition detect_outliers (df : DataFrame) (df_info : list ColumnInfo)
  : result (list OutlierRow * dict Z string) :=
  summary ← outlier_summary df (numeric_cols df);
  let outlier_df := sort_desc summary in
  let outlier_cols_info := outlier_cols_info_of df_info outlier_df in
  mret (outlier_cols_info, outlier_global_suggestion outlier_cols_info).

(** ** Outliers: applying a plan *)

Definition log_cap (col : string) : list string :=
  [ "# Cap Outliers: " +:+ col;
    "Q1 = df['" +:+ col +:+ "'].quantile(0.25)";
    "Q3 = df['" +:+ col +:+ "'].quantile(0.75)";
    "IQR = Q3 - Q1";
    "df['" +:+ col +:+ "'] = df['" +:+ col +:+ "'].clip(lower=Q1-1.5*IQR, upper=Q3+1.5*IQR)" ].

Definition log_remove_rows (col : string) : list string :=
  [ "# Remove Rows Outliers: " +:+ col;
    "Q1 = df['" +:+ col +:+ "'].quantile(0.25)";
    "Q3 = df['" +:+ col +:+ "'].quantile(0.75)";
    "IQR = Q3 - Q1";
    "df = df[(df['" +:+ col +:+ "'] >= Q1-1.5*IQR) & (df['" +:+ col +:+ "'] <= Q3+1.5*IQR)]" ].

(** [outlier_cols_info[outlier_cols_info["id"] == col_id][...].iloc[0]] *)
Definition outlier_row (outlier_cols_info : list OutlierRow) (col_id : Z)
  : result OutlierRow :=
  match list_find (λ o, o_id o = col_id) outlier_cols_info with
  | Some (_, o) => Ok o
  | None => Raise IndexError
  end.

(** The mutation of one column once its name and bounds are known; the
    series keeps its dtype name. *)
Definition cap_column (df : DataFrame) (col : string) (lo hi : float)
  : result DataFrame :=
  s ← getitem df col;
  mret (setitem df col (dtype s) (clip lo hi (values s))).

Definition remove_rows_of (df : DataFrame) (col : string) (lo hi : float)
  : result DataFrame :=
  s ← getitem df col;
  mret (filter_rows df (within lo hi <$> values s)).

(** The loop body of [apply_outlier_logic] (outliers.py): the name comes
    from [updated_info] and the bounds from [outlier_cols_info], both fixed
    before the plan is applied. *)
Definition outlier_step (updated_info : list ColumnInfo)
    (outlier_cols_info : list OutlierRow)
    (e : string * Z) (st : DataFrame * list string) : result (DataFrame * list string) :=
  let '(action, col_id) := e in
  let '(current_df, log_code) := st in
  r ← info_row updated_info col_id;
  let col_name := column_name r in
  bounds ← outlier_row outlier_cols_info col_id;
  let lo := lower_bound bounds in
  let hi := upper_bound bounds in
  if bool_decide (action = "cap") then
    df' ← cap_column current_df col_name lo hi;
    mret (df', log_code ++ log_cap col_name)
  else if bool_decide (action = "remove_rows") then
    df' ← remove_rows_of current_df col_name lo hi;
    mret (df', log_code ++ log_remove_rows col_name)
  else mret st.

Definition apply_outlier_logic (updated_info : list ColumnInfo)
    (outlier_cols_info : list OutlierRow) (plan : Plan) (target_ids : gset Z)
    (st : DataFrame * list string) : result (DataFrame * list string) :=
  for_each (outlier_step updated_info outlier_cols_info) (plan_entries plan target_ids) st.

(** [pd.api.types.is_numeric_dtype] *)
Definition is_numeric_dtype (dt : string) : bool :=
  bool_decide (dt ∈ ["int8"; "int16"; "int32"; "int64";
                     "uint8"; "uint16"; "uint32"; "uint64";
                     "float16"; "float32"; "float64";
                     "complex64"; "complex128"; "bool"]).

Definition api_log_cap (col : string) : string :=
  "Q1=df['" +:+ col +:+ "'].quantile(0.25);Q3=df['" +:+ col +:+
  "'].quantile(0.75);IQR=Q3-Q1;df['" +:+ col +:+ "']=df['" +:+ col +:+
  "'].clip(Q1-1.5*IQR,Q3+1.5*IQR)".

Definition api_log_remove_rows (col : string) : string :=
  "Q1=df['" +:+ col +:+ "'].quantile(0.25);Q3=df['" +:+ col +:+
  "'].quantile(0.75);IQR=Q3-Q1;df=df[(df['" +:+ col +:+ "']>=Q1-1.5*IQR)&(df['" +:+
  col +:+ "']<=Q3+1.5*IQR)]".

(** The loop body of [api_outliers_apply] (backend.py): the bounds are taken
    from the frame as it is when the entry is reached. *)
Definition api_outliers_step (cols : list string) (e : string * Z)
    (st : DataFrame * list string) : result (DataFrame * list string) :=
  let '(action, cid) := e in
  let '(df, logs) := st in
  if negb (bool_decide (1 ≤ cid ≤ Z.of_nat (length cols))) then mret st
  else
    match cols !! Z.to_nat (cid - 1) with
    | None => Raise IndexError
    | Some col =>
        s ← getitem df col;
        if negb (is_numeric_dtype (dtype s)) then mret st
        else
          let '(lo, hi) := iqr_bounds (values s) in
          if bool_decide (action = "cap") then
            df' ← cap_column df col lo hi;
            mret (df', logs ++ [api_log_cap col])
          else if bool_decide (action = "remove_rows") then
            df' ← remove_rows_of df col lo hi;
            mret (df', logs ++ [api_log_remove_rows col])
          else mret st
    end.

Definition api_outliers_apply (df : DataFrame) (plan : ApiPlan)
  : result (DataFrame * list string) :=
  for_each (api_outliers_step (columns df)) (api_entries plan) (df, []).

(** ** Correlation: the flagged columns (correlation_utils.py, backend.py) *)

Section Correlation.
(** The entry of [DataFrame.corr()] for two columns. *)
Variable pearson : list cell → list cell → float.

(** [corr_matrix = df[numeric_cols].corr().abs()], row [r], column [c] *)
Definition corr_matrix (numeric : list Series) (r c : nat) : float :=
  match numeric !! r, numeric !! c with
  | Some x, Some y => fabs (pearson (values x) (values y))
  | _, _ => NaN
  end.

(** [upper = corr_matrix.where(np.triu(np.ones(shape), k=1).astype(bool))]:
    the entries strictly above the diagonal, NaN elsewhere. *)
Definition upper (numeric : list Series) (r c : nat) : float :=
  if bool_decide (r < c)%nat then corr_matrix numeric r c else NaN.

(** [upper[col][upper[col] > threshold]]: the rows of column [c] above
    the threshold. *)
Definition high_corr_series (numeric : list Series) (threshold : Q) (c : nat)
  : list (nat * float) :=
  filter (λ p, fgt p.2 (Some threshold) = true)
    ((λ r, (r, upper numeric r c)) <$> seq 0 (length numeric)).

(** [high_corr_cols] of [handle_high_correlation] *)
Definition high_corr_cols (numeric : list Series) (threshold : Q) : list string :=
  (λ p, name p.2) <$>
    filter (λ p, high_corr_series numeric threshold p.1 ≠ [])
      (imap (λ c s, (c, s)) numeric).

(** [df_info[df_info["column_name"].isin(high_corr_cols)]] *)
Definition cols_with_issues (df_info : list ColumnInfo) (flagged : list string)
  : list ColumnInfo :=
  filter (λ r, column_name r ∈ flagged) df_info.

(** [{row["id"]: "drop" for _, row in cols_with_issues.iterrows()}] *)
Definition corr_global_suggestion (issues : list ColumnInfo) : dict Z string :=
  foldl (λ d r, dict_set (info_id r) "drop" d) [] issues.

(** The suggestion of [handle_high_correlation]; the two early returns
    (fewer than two numeric columns, nothing above the threshold) suggest
    nothing. *)
Definition correlation_suggestion (df : DataFrame) (df_info : list ColumnInfo)
    (threshold : Q) : dict Z string :=
  let numeric := numeric_series df in
  if bool_decide (length numeric < 2)%nat then []
  else
    let flagged := high_corr_cols numeric threshold in
    if bool_decide (flagged = []) then []
    else corr_global_suggestion (cols_with_issues df_info flagged).

(** [[c for c in upper.columns if any(upper[c] > payload.threshold)]] of
    [api_corr]; [None] for the reply "not enough numeric columns". *)
Definition api_high_corr_cols (df : DataFrame) (threshold : Q) : option (list string) :=
  let nums := numeric_series df in
  if bool_decide (length nums < 2)%nat then None
  else Some ((λ p, name p.2) <$>
    filter (λ p, existsb (λ r, fgt (upper nums r p.1) (Some threshold))
                   (seq 0 (length nums)) = true)
      (imap (λ c s, (c, s)) nums)).
End Correlation.

(** ** Dropping columns by id: [drop_columns_by_id] (column_ops.py)

    The function from the parsed reply on: [reply] is [None] for the answer
    "none", otherwise the set [ids_to_drop].  The optional [log_list] is
    left out. *)
Definition valid_ids (ids_to_drop : gset Z) (df_info : list ColumnInfo) : gset Z :=
  filter (λ i, 1 ≤ i ≤ Z.of_nat (length df_info)) ids_to_drop.

Definition drop_columns_by_id (df : DataFrame) (df_info : list ColumnInfo)
    (reply : option (gset Z)) : result DataFrame :=
  if bool_decide (df_info = []) then mret df
  else
    match reply with
    | None => mret df
    | Some ids_to_drop =>
        let valid := valid_ids ids_to_drop df_info in
        if bool_decide (valid = ∅) then mret df
        else
          let columns_to_drop :=
            column_name <$> filter (λ r, info_id r ∈ valid) df_info in
          df_drop df columns_to_drop
    end.

(** ** Vocabulary of the statements *)

(** The caller's plan without the ids outside [1, n]. *)
Definition in_range_plan (n : nat) (plan : ApiPlan) : ApiPlan :=
  (λ p, (p.1, filter (λ cid, 1 ≤ cid ≤ Z.of_nat n) p.2)) <$> plan.

(** [i] is listed under [action] in [plan]. *)
Definition listed (plan : Plan) (action : string) (i : Z) : Prop :=
  i ∈ default ∅ (dict_get action plan).

(** A float that is a number above [q]. *)
Definition exceeds (x : float) (q : Q) : Prop := ∃ v, x = Some v ∧ (q < v)%Q.

(** The number of cells of [s] outside its IQR bounds, and the row of
    [outlier_cols_info] expected for the column [s] at position [i]. *)
Definition outlier_count (s : Series) : nat :=
  length (filter (λ c, is_outlier (iqr_bounds (values s)).1 (iqr_bounds (values s)).2 c = true)
            (values s)).

Definition diagnostic_row (df : DataFrame) (i : nat) (s : Series) : OutlierRow :=
  mkOutlierRow (Z.of_nat i + 1) (name s) (outlier_count s)
    (round2 (inject_Z (Z.of_nat (outlier_count s)) / inject_Z (Z.of_nat (nrows df)) * 100))
    (fround2 (iqr_bounds (values s)).1) (fround2 (iqr_bounds (values s)).2).

(** The summary entry of a column of the frame, before the merge gives it
    its id. *)
Definition summary_entry (df : DataFrame) (s : Series) : option OutlierRow :=
  if bool_decide (0 < outlier_count s)%nat
  then Some (mkOutlierRow 0 (name s) (outlier_count s)
               (outliers_pct (diagnostic_row df 0 s))
               (lower_bound (diagnostic_row df 0 s))
               (upper_bound (diagnostic_row df 0 s)))
  else None.

(** ** Sample data *)

(** A conversion that agrees with [pd.to_numeric] on missing cells, numbers
    and strings of decimal digits, and raises on any other string. *)
Definition digit_of (a : Ascii.ascii) : option Z :=
  let n := Ascii.nat_of_ascii a in
  if bool_decide (48 ≤ n ≤ 57)%nat then Some (Z.of_nat n - 48) else None.

Fixpoint parse_digits (s : string) (acc : Z) : option Z :=
  match s with
  | EmptyString => Some acc
  | String a s' => d ← digit_of a; parse_digits s' (10 * acc + d)
  end.

Definition parse_int (s : string) : option Z :=
  match s with EmptyString => None | _ => parse_digits s 0 end.

Definition to_numeric_digits (vs : list cell) : option (string * list cell) :=
  vs' ← mapM (λ c, match c with
                   | Str s => (λ z, Num (inject_Z z)) <$> parse_int s
                   | _ => Some c
                   end) vs;
  Some (if bool_decide (Exists (λ c, isnull c = true) vs') then "float64" else "int64", vs').

(** The dtype tests of the interactive path on dtype names, a skew
    collaborator for symmetric data, and a correlation collaborator
    reporting the coefficient 1. *)
Definition is_object_name (dt : string) : bool := bool_decide (dt = "object").
Definition is_category_name (dt : string) : bool := bool_decide (dt = "category").
Definition symmetric (col_data : list cell) : float := Some 0%Q.
Definition pearson_one (x y : list cell) : float := Some 1%Q.

Definition ints (dt : string) (nm : string) (l : list Z) : Series :=
  mkSeries nm dt ((λ z, Num (inject_Z z)) <$> l).

Definition frame_abc : DataFrame :=
  mkFrame 3
    [ mkSeries "a" "float64" [Num 1; NA; Num 3];
      mkSeries "b" "object" [Str "x"; NA; Str "x"];
      mkSeries "c" "object" [NA; Str "y"; Str "z"] ].

(** A text column that converts to numbers, a numeric column whose values
    are all missing, and a text column that does not convert. *)
Definition frame_text : DataFrame :=
  mkFrame 3
    [ mkSeries "n" "object" [Str "1"; NA; Str "3"];
      mkSeries "e" "float64" [NA; NA; NA];
      mkSeries "w" "object" [Str "1"; Str "x"; NA] ].

(** Five rows: 20% of a numeric column, 60% of a text column and 20% of
    another text column missing, and a complete column. *)
Definition frame_missing : DataFrame :=
  mkFrame 5
    [ mkSeries "age" "float64" [Num 1; NA; Num 3; Num 4; Num 5];
      mkSeries "junk" "object" [NA; NA; NA; Str "u"; Str "v"];
      mkSeries "city" "object" [Str "x"; Str "y"; NA; Str "x"; Str "z"];
      ints "int64" "full" [1; 2; 3; 4; 5] ].

(** Two numeric columns, the second twice the first: [pearson_one] is the
    Pearson coefficient of every pair of columns of this frame. *)
Definition frame_dup : DataFrame :=
  mkFrame 3 [ ints "int64" "a" [1; 2; 3]; ints "int64" "b" [2; 4; 6] ].

Definition frame_outlier : DataFrame :=
  mkFrame 6 [ ints "int64" "x" [1; 2; 3; 4; 5; 100] ].

(** Two numeric columns with one far value each, in different rows. *)
Definition frame_two : DataFrame :=
  mkFrame 6 [ ints "int64" "a" [1; 2; 3; 4; 5; 100];
              ints "int64" "b" [1; 2; 3; 4; 100; 5] ].

(** ** The session store (storage.py) *)

(** What an endpoint answers when it does not return a reply: an
    [HTTPException] with its status code, or an exception nobody catches. *)
Inductive failure := HTTPException (status_code : Z) | Uncaught (e : exn).

Inductive response (A : Type) :=
  | Reply (a : A)
  | Fail (f : failure).
Arguments Reply {A} a.
Arguments Fail {A} f.

(** The two module-level dictionaries, keyed by session id.  A log entry is
    a pair [(step, code_lines)]. *)
Record Store := mkStore {
  SESSION_DATA : gmap string DataFrame;
  SESSION_LOGS : gmap string (list (string * list string))
}.

Definition _load_df (store : Store) (session_id : string) : response DataFrame :=
  match SESSION_DATA store !! session_id with
  | Some df => Reply df
  | None => Fail (HTTPException 404)
  end.

Definition _save_df (store : Store) (session_id : string) (df : DataFrame) : Store :=
  mkStore (<[session_id := df]> (SESSION_DATA store)) (SESSION_LOGS store).

(** [_SESSION_LOGS.setdefault(session_id, []).append((step, code_lines))] *)
Definition _log (store : Store) (session_id step : string) (code_lines : list string)
  : Store :=
  mkStore (SESSION_DATA store)
    (<[session_id := default [] (SESSION_LOGS store !! session_id) ++ [(step, code_lines)]]>
       (SESSION_LOGS store)).

Definition get_logs (store : Store) (session_id : string) : list (string * list string) :=
  default [] (SESSION_LOGS store !! session_id).

Definition _cleanup_session (store : Store) (session_id : string) : Store :=
  mkStore (delete session_id (SESSION_DATA store)) (delete session_id (SESSION_LOGS store)).

(** ** The endpoints that drop columns (backend.py) *)

(** [[cols[cid-1] for cid in ids if 1 <= cid <= len(cols)]] *)
Definition names_of_ids (cols : list string) (ids : list Z) : result (list string) :=
  for_each (λ cid acc,
      if in_range cid (length cols) then
        match cols !! Z.to_nat (cid - 1) with
        | Some col => mret (acc ++ [col])
        | None => Raise IndexError
        end
      else mret acc)
    ids [].

(** The replies of [api_corr], by their ["message"]. *)
Inductive CorrReply :=
  | NotEnoughNumeric
  | AutoDropped (dropped : list string)
  | Dropped (dropped : list string)
  | Detected (columns_to_drop : list string).

Section DropEndpoints.
(** [str(names)] for a list of column names, as the f-strings of the log
    lines render it; and the entry of [DataFrame.corr()]. *)
Variable repr : list string → string.
Variable pearson : list cell → list cell → float.

(** [api_drop_columns]: the reply is the ["columns"] field. *)
Definition api_drop_columns (store : Store) (session_id : string) (column_ids : list Z)
  : response (list ColumnInfo) * Store :=
  match _load_df store session_id with
  | Fail f => (Fail f, store)
  | Reply df =>
      match names_of_ids (columns df) column_ids with
      | Raise e => (Fail (Uncaught e), store)
      | Ok [] => (Reply (get_df_info df), store)
      | Ok to_drop =>
          match df_drop df to_drop with
          | Raise e => (Fail (Uncaught e), store)
          | Ok df' =>
              let store := _save_df store session_id df' in
              let store :=
                _log store session_id "Drop Columns"
                  [ "columns_to_drop = " +:+ repr to_drop;
                    "df.drop(columns=columns_to_drop, inplace=True)" ] in
              (Reply (get_df_info df'), store)
          end
      end
  end.

(** The store after [api_corr] has dropped [names] from [df], if it can. *)
Definition corr_drop (store : Store) (session_id : string) (df : DataFrame)
    (names : list string) (reply : CorrReply) : response CorrReply * Store :=
  match df_drop df names with
  | Raise e => (Fail (Uncaught e), store)
  | Ok df' =>
      let store := _save_df store session_id df' in
      let store :=
        _log store session_id "Handle Multicollinearity"
          [ "df.drop(columns=" +:+ repr names +:+ ", inplace=True)" ] in
      (Reply reply, store)
  end.

(** [api_corr]: [plan] is [payload.plan] ([None] when absent). *)
Definition api_corr (store : Store) (session_id : string) (threshold : Q)
    (plan : option ApiPlan) (auto_drop : bool) : response CorrReply * Store :=
  match _load_df store session_id with
  | Fail f => (Fail f, store)
  | Reply df =>
      match api_high_corr_cols pearson df threshold with
      | None => (Reply NotEnoughNumeric, store)
      | Some high_corr_cols =>
          if auto_drop && bool_decide (high_corr_cols ≠ []) then
            corr_drop store session_id df high_corr_cols (AutoDropped high_corr_cols)
          else
            match plan ≫= dict_get "drop" with
            | Some ids =>
                match names_of_ids (columns df) ids with
                | Raise e => (Fail (Uncaught e), store)
                | Ok [] => (Reply (Detected high_corr_cols), store)
                | Ok to_drop => corr_drop store session_id df to_drop (Dropped to_drop)
                end
            | None => (Reply (Detected high_corr_cols), store)
            end
      end
  end.
End DropEndpoints.


(** [str(names)] for column names without quotes, backslashes or control
    characters. *)
Definition repr_names (names : list string) : string :=
  "[" +:+ String.concat ", " ((λ n, "'" +:+ n +:+ "'") <$> names) +:+ "]".


(** A store with one session, holding [frame_abc], and one holding
    [frame_dup]. *)
Definition store_abc : Store := mkStore {[ "s1" := frame_abc ]} ∅.
Definition store_dup : Store := mkStore {[ "s1" := frame_dup ]} ∅.


(** ** Vocabulary of the further statements *)

(** Every column has one cell per row. *)
Definition aligned (df : DataFrame) : Prop :=
  Forall (λ s, length (values s) = nrows df) (cols df).

(** The value a fill action passes to [fillna], when it is defined. *)
Definition fill_value (action : string) (vs : list cell) : option cell :=
  if bool_decide (action = "mean") then Num <$> mean vs
  else if bool_decide (action = "median") then Num <$> median vs
  else if bool_decide (action = "mode") then head (mode vs)
  else None.

(** The log line of a fill action. *)
Definition fill_line (action col : string) : string :=
  log_fillna col (if bool_decide (action = "mode") then "mode()[0]" else action +:+ "()").


(** ** The replay notebook (notebook_utils.py) *)

Definition newline : string := String (Ascii.ascii_of_nat 10) EmptyString.

(** A cell of the notebook, by its ["cell_type"], with its ["source"]; the
    other fields of a cell are the same for every cell of a type. *)
Inductive NotebookCell :=
  | code_cell (source : list string)
  | markdown_cell (source : list string).

Definition create_code_cell (source_lines : list string) : NotebookCell :=
  code_cell ((λ line, line +:+ newline) <$> source_lines).

Definition create_markdown_cell (text : string) : NotebookCell := markdown_cell [text].

Definition imports : list string :=
  [ "import pandas as pd";
    "import numpy as np";
    "import matplotlib.pyplot as plt";
    "import seaborn as sns";
    "from sklearn.preprocessing import StandardScaler, MinMaxScaler, LabelEncoder";
    "%matplotlib inline";
    "import warnings";
    "warnings.filterwarnings('ignore')" ].

(** [_build_notebook_structure]: the ["cells"] of the notebook; its
    metadata do not depend on the log. *)
Definition _build_notebook_structure (log_steps : list (string * list string))
  : list NotebookCell :=
  foldl (λ cells '(step_name, code_lines),
      cells ++ [create_markdown_cell ("### " +:+ step_name)] ++ [create_code_cell code_lines])
    [create_code_cell imports] log_steps.


(** ** Python strings

    The string functions used by the plan parsers, on the list of
    characters of a [str] of ASCII characters. *)

Definition chars (s : string) : list Ascii.ascii := String.list_ascii_of_string s.

(** [c.isspace()]: tab to carriage return, the separators 0x1c to 0x1f,
    and the space. *)
Definition isspace (a : Ascii.ascii) : bool :=
  let n := Ascii.nat_of_ascii a in
  bool_decide ((9 ≤ n ≤ 13) ∨ (28 ≤ n ≤ 32))%nat.

Fixpoint lstrip (s : list Ascii.ascii) : list Ascii.ascii :=
  match s with
  | a :: s' => if isspace a then lstrip s' else s
  | [] => []
  end.

Definition rstrip (s : list Ascii.ascii) : list Ascii.ascii :=
  reverse (lstrip (reverse s)).

(** [s.strip()] *)
Definition strip (s : list Ascii.ascii) : list Ascii.ascii := rstrip (lstrip s).

(** [s.split(sep)] for a separator of one character *)
Fixpoint split (sep : Ascii.ascii) (s : list Ascii.ascii) : list (list Ascii.ascii) :=
  match s with
  | [] => [[]]
  | a :: s' =>
      if decide (a = sep) then [] :: split sep s'
      else match split sep s' with
           | w :: ws => (a :: w) :: ws
           | [] => [[a]]
           end
  end.

(** [s.split(sep, 1)] *)
Fixpoint split1 (sep : Ascii.ascii) (s : list Ascii.ascii) : list (list Ascii.ascii) :=
  match s with
  | [] => [[]]
  | a :: s' =>
      if decide (a = sep) then [[]; s']
      else match split1 sep s' with
           | w :: ws => (a :: w) :: ws
           | [] => [[a]]
           end
  end.

(** The digits of an [int] literal: decimal digits, with single
    underscores between digits. *)
Fixpoint digits (acc : Z) (after_digit : bool) (s : list Ascii.ascii) : option Z :=
  match s with
  | [] => if after_digit then Some acc else None
  | a :: s' =>
      match digit_of a with
      | Some d => digits (10 * acc + d) true s'
      | None =>
          if bool_decide (a = "_"%char) && after_digit then digits acc false s' else None
      end
  end.

(** [int(s)] for a [str]; [None] for a ValueError. *)
Definition int_of_str (s : list Ascii.ascii) : option Z :=
  match strip s with
  | a :: ds =>
      if bool_decide (a = "+"%char) then digits 0 false ds
      else if bool_decide (a = "-"%char) then Z.opp <$> digits 0 false ds
      else digits 0 false (a :: ds)
  | [] => None
  end.

(** [set(range(start, end + 1))] *)
Definition range_set (start end_ : Z) : gset Z :=
  list_to_set (seqZ start (end_ + 1 - start)).

(** ** The plan parsers: [parse_user_plan], [parse_outlier_plan],
    [parse_correlation_plan]

    The three functions are the same text up to the keywords they accept;
    [actions] lists, in the order of the [if]/[elif] chain, the prefix
    tested by [startswith] and the key of the plan it selects. *)

(** The ids one item of a comma-separated list contributes; an item that
    does not parse is skipped by its [except]. *)
Definition sub_ids (sub : list Ascii.ascii) : gset Z :=
  if bool_decide ("-"%char ∈ sub) then
    match mapM int_of_str (split "-" sub) with
    | Some [start; end_] => range_set start end_
    | _ => ∅
    end
  else
    match int_of_str sub with
    | Some i => {[ i ]}
    | None => ∅
    end.

(** [ids = set(); for sub in [s.strip() for s in id_part.split(",")]: ...] *)
Definition parse_ids (id_part : list Ascii.ascii) : gset Z :=
  foldl (λ ids sub, ids ∪ sub_ids sub) ∅ (strip <$> split "," id_part).

(** The body of [for part in parts:]. *)
Definition parse_part (actions : list (string * string)) (part : list Ascii.ascii)
    (plan : Plan) : result Plan :=
  match list_find (λ a, chars a.1 `prefix_of` part) actions with
  | None => mret plan
  | Some (_, (_, action)) =>
      if bool_decide ("-"%char ∉ part) then mret plan
      else
        match split1 "-" part !! 1%nat with
        | None => Raise IndexError
        | Some rest =>
            let ids := parse_ids (strip rest) in
            match dict_get action plan with
            | None => Raise KeyError
            | Some old => mret (dict_set action (old ∪ ids) plan)
            end
        end
  end.

(** [[p.strip() for p in user_input.split(";") if p.strip()]] *)
Definition plan_parts (user_input : list Ascii.ascii) : list (list Ascii.ascii) :=
  filter (λ p, p ≠ []) (strip <$> split ";" user_input).

Definition parse_plan (actions : list (string * string)) (user_input : string)
  : result Plan :=
  let plan : Plan := (λ a, (a.2, ∅)) <$> actions in
  if bool_decide (strip (chars user_input) = []) then mret plan
  else for_each (parse_part actions) (plan_parts (chars user_input)) plan.

Definition parse_user_plan : string → result Plan :=
  parse_plan [("mean", "mean"); ("median", "median"); ("mode", "mode"); ("drop", "drop_col")].

Definition parse_outlier_plan : string → result Plan :=
  parse_plan [("cap", "cap"); ("remove_rows", "remove_rows"); ("none", "none")].

Definition parse_correlation_plan : string → result Plan :=
  parse_plan [("drop", "drop"); ("keep", "keep")].

(** ** The reply of [drop_columns_by_id] (column_ops.py) *)

(** The ids one item of the reply contributes. *)
Definition reply_ids (part : list Ascii.ascii) : gset Z :=
  if bool_decide ("-"%char ∈ part) then
    match mapM int_of_str (split "-" part) with
    | Some [start; end_] => if bool_decide (start > end_) then ∅ else range_set start end_
    | _ => ∅
    end
  else
    match int_of_str part with
    | Some i => {[ i ]}
    | None => ∅
    end.

(** The reply as [drop_columns_by_id] reads it: [None] for "none" in any
    letter case, otherwise the set [ids_to_drop]. *)
Definition parse_reply (user_input : string) : option (gset Z) :=
  if bool_decide (lower user_input = "none") then None
  else Some (foldl (λ ids part, ids ∪ reply_ids part) ∅
               (strip <$> split "," (chars user_input))).


(** ** Vocabulary of the statements about plan texts *)

(** The key and the ids a part of a plan text contributes, when the part
    is not skipped. *)
Definition part_entry (actions : list (string * string)) (part : list ascii)
  : option (string * gset Z) :=
  match list_find (λ a, chars a.1 `prefix_of` part) actions with
  | Some (_, (_, action)) =>
      match split1 "-" part with
      | [_; rest] => Some (action, parse_ids (strip rest))
      | _ => None
      end
  | None => None
  end.

(** [str(n)] for a natural number. *)
Definition decimal (n : nat) : list ascii :=
  chars (DecimalString.NilZero.string_of_uint (Nat.to_uint n)).

(** An item of an id list: one id, or an inclusive range. *)
Inductive id_item :=
  | one (n : nat)
  | span (first last : nat).

Definition item_text (it : id_item) : list ascii :=
  match it with
  | one n => decimal n
  | span a b => decimal a ++ "-"%char :: decimal b
  end.

Definition item_ids (it : id_item) : gset Z :=
  match it with
  | one n => {[ Z.of_nat n ]}
  | span a b => range_set (Z.of_nat a) (Z.of_nat b)
  end.

(** [text] is the text of [it] between blanks. *)
Definition item_written (text : list ascii) (it : id_item) : Prop :=
  ∃ l r, Forall (λ a, isspace a = true) l ∧ Forall (λ a, isspace a = true) r
         ∧ text = l ++ item_text it ++ r.

(** [sep.join(l)] *)
Fixpoint join (sep : ascii) (l : list (list ascii)) : list ascii :=
  match l with
  | [] => []
  | [x] => x
  | x :: l' => x ++ sep :: join sep l'
  end.


(** ** Outliers: the suggestions of the HTTP path ([api_outliers_suggestions]) *)

Record OutlierSuggestion := mkOutlierSuggestion {
  os_column : string;
  os_outliers_pct : float;
  os_suggested_action : string
}.

(** [df.columns.get_loc(col)] for distinct column names *)
Definition get_loc (df : DataFrame) (col : string) : result nat :=
  match list_find (λ s, name s = col) (cols df) with
  | Some (i, _) => Ok i
  | None => Raise KeyError
  end.

(** The body of the loop over the numeric columns.  [cnt] is a numpy
    integer, so [cnt / len(df)] is NaN rather than an exception for an empty
    frame; the percentage is compared unrounded and reported rounded. *)
Definition api_outlier_suggest (df : DataFrame) (col : string)
    (suggestions : dict Z OutlierSuggestion) : result (dict Z OutlierSuggestion) :=
  s ← getitem df col;
  let '(lower, upper) := iqr_bounds (values s) in
  let cnt := length (filter (λ c, is_outlier lower upper c = true) (values s)) in
  let pct := percentage cnt (nrows df) in
  if bool_decide (0 < cnt)%nat then
    loc ← get_loc df col;
    let col_id := Z.of_nat loc + 1 in
    let action := if fgt pct (Some 10%Q) then "remove_rows" else "cap" in
    mret (dict_set col_id (mkOutlierSuggestion col (fround2 pct) action) suggestions)
  else mret suggestions.

Definition api_outliers_suggestions (df : DataFrame) : result (dict Z OutlierSuggestion) :=
  for_each (api_outlier_suggest df) (numeric_cols df) [].


(** ** The interactive correlation step: [handle_high_correlation]
    (correlation_utils.py) *)

(** [input(...)]: the next reply, as the code sees it after the [strip()]
    (and [lower()]) it applies to it; EOFError when no reply is left. *)
Definition input (answers : list string) : result (string * list string) :=
  match answers with
  | [] => Raise EOFError
  | reply :: rest => Ok (reply, rest)
  end.

(** What an interactive step returns: the frame, the descriptors, the
    lines it hands to [log_list] (none when nothing was logged), and the
    replies it has not read. *)
Record Handled := mkHandled {
  h_df : DataFrame;
  h_info : list ColumnInfo;
  h_log : list string;
  h_answers : list string
}.

(** [info["id"] = range(1, len(info) + 1)] *)
Definition renumber (info : list ColumnInfo) : list ColumnInfo :=
  imap (λ i r, mkInfo (Z.of_nat i + 1) (column_name r) (info_dtype r)
                 (percentage_unique r) (percentage_missing r)) info.

(** The frame, [updated_info] and [log_code] while columns are dropped. *)
Definition CorrState : Type := DataFrame * list ColumnInfo * list string.

(** The body of [for col_id in ids_to_drop:]; the name is looked up in
    [updated_info]. *)
Definition corr_drop_listed (col_id : Z) (st : CorrState) : result CorrState :=
  let '(updated_df, updated_info, log_code) := st in
  r ← info_row updated_info col_id;
  let col_name := column_name r in
  df' ← df_drop updated_df [col_name];
  mret (df', filter (λ r, info_id r ≠ col_id) updated_info, log_code ++ [log_drop col_name]).

(** The body of the loops of the choices "1" and "2"; the name is looked up
    in [df_info], and a column that is gone is passed over. *)
Definition corr_drop_extra (df_info : list ColumnInfo) (col_id : Z) (st : CorrState)
  : result CorrState :=
  let '(updated_df, updated_info, log_code) := st in
  r ← info_row df_info col_id;
  let col_name := column_name r in
  if bool_decide (col_name ∈ columns updated_df) then
    df' ← df_drop updated_df [col_name];
    mret (df', filter (λ r, info_id r ≠ col_id) updated_info,
          log_code ++ [log_drop col_name])
  else mret st.

(** The body of the loops that only print the name of a column. *)
Definition corr_name (df_info : list ColumnInfo) (col_id : Z) (st : CorrState)
  : result CorrState :=
  _ ← info_row df_info col_id; mret st.

(** [plan[key]] *)
Definition plan_item (plan : Plan) (key : string) : result (gset Z) :=
  match dict_get key plan with
  | Some ids => Ok ids
  | None => Raise KeyError
  end.

(** [[cid for cid in ids if cid in target]] *)
Definition ids_in (ids target : gset Z) : list Z :=
  filter (λ cid, cid ∈ target) (elements ids).

(** The [while True:] loop over the columns nobody mentioned: a reply
    other than "1", "2" or "3" asks again. *)
Fixpoint corr_resolve (df_info : list ColumnInfo) (uncovered : gset Z)
    (answers : list string) (st : CorrState) : result (CorrState * list string) :=
  match answers with
  | [] => Raise EOFError
  | choice :: answers =>
      if bool_decide (choice = "1") then
        '(extra_input, answers) ← input answers;
        extra_plan ← parse_correlation_plan extra_input;
        drops ← plan_item extra_plan "drop";
        st ← for_each (corr_drop_extra df_info) (ids_in drops uncovered) st;
        keeps ← plan_item extra_plan "keep";
        st ← for_each (corr_name df_info) (ids_in keeps uncovered) st;
        mret (st, answers)
      else if bool_decide (choice = "2") then
        st ← for_each (corr_drop_extra df_info) (elements uncovered) st;
        mret (st, answers)
      else if bool_decide (choice = "3") then mret (st, answers)
      else corr_resolve df_info uncovered answers st
  end.

Section HandleCorrelation.
Variable pearson : list cell → list cell → float.

Definition handle_high_correlation (df : DataFrame) (df_info : list ColumnInfo)
    (threshold : Q) (answers : list string) : result Handled :=
  let numeric := numeric_series df in
  if bool_decide (length numeric < 2)%nat then mret (mkHandled df df_info [] answers)
  else
    let flagged := high_corr_cols pearson numeric threshold in
    if bool_decide (flagged = []) then mret (mkHandled df df_info [] answers)
    else
      let issues := cols_with_issues df_info flagged in
      let global_suggestion := corr_global_suggestion issues in
      _ ← for_each (λ p (u : unit), _ ← info_row df_info p.1; mret u) global_suggestion ();
      '(approve, answers) ← input answers;
      '(user_plan, answers) ←
        (if bool_decide (approve = "y") then
           mret ([("drop", list_to_set (keys global_suggestion)); ("keep", ∅)] : Plan,
                 answers)
         else
           '(user_input, answers) ← input answers;
           plan ← parse_correlation_plan user_input;
           mret (plan, answers));
      let all_issue_ids : gset Z := list_to_set (info_id <$> issues) in
      let uncovered := uncovered_ids all_issue_ids user_plan in
      drops ← plan_item user_plan "drop";
      st ← for_each corr_drop_listed (ids_in drops all_issue_ids) (df, df_info, []);
      keeps ← plan_item user_plan "keep";
      st ← for_each (corr_name df_info) (ids_in keeps all_issue_ids) st;
      '(st, answers) ←
        (if bool_decide (uncovered ≠ ∅) then corr_resolve df_info uncovered answers st
         else mret (st, answers));
      let '(updated_df, updated_info, log_code) := st in
      mret (mkHandled updated_df (renumber updated_info) log_code answers).
End HandleCorrelation.

(** The descriptors name the columns of the frame, in order, under the ids
    1, 2, ... *)
Definition registry_of (df : DataFrame) (info : list ColumnInfo) : Prop :=
  column_name <$> info = columns df
  ∧ info_id <$> info = (λ i, Z.of_nat i + 1) <$> seq 0 (length (cols df)).


(** The descriptors of a frame next to its columns, and what is left of
    both once the columns with the ids [D] are gone. *)
Definition pairs (df : DataFrame) : list (ColumnInfo * Series) :=
  imap (λ i s, (descriptor df i s, s)) (cols df).

Definition kept (df : DataFrame) (D : gset Z) : list (ColumnInfo * Series) :=
  filter (λ p, info_id p.1 ∉ D) (pairs df).

Definition frame_without (df : DataFrame) (D : gset Z) : DataFrame :=
  mkFrame (nrows df) ((kept df D).*2).


(** * Properties *)

(** ** Loops, dictionaries and frames *)

Lemma bind_Ok {A B} (f : A → result B) (a : A) : (Ok a ≫= f) = f a.
Proof. done. Qed.

Lemma for_each_app {E S} (step : E → S → result S) es1 es2 st :
  for_each step (es1 ++ es2) st = (for_each step es1 st ≫= for_each step es2).
Proof.
  revert st. induction es1 as [|e es1 IH]; intros st; simpl; [done|].
  destruct (step e st) as [st'|x]; simpl; [apply IH | done].
Qed.

Lemma for_each_cons {E S} (step : E → S → result S) e es st :
  for_each step (e :: es) st = (step e st ≫= for_each step es).
Proof. done. Qed.

Lemma for_each_skip {E S} (step : E → S → result S) e es st :
  step e st = Ok st → for_each step (e :: es) st = for_each step es st.
Proof. intros H. simpl. by rewrite H. Qed.

Section DictFacts.
Context {K V : Type} `{EqDecision K}.
Implicit Types (d : dict K V) (k : K) (v : V).

Lemma dict_get_set_eq k v d : dict_get k (dict_set k v d) = Some v.
Proof.
  induction d as [|[k' v'] d IH]; simpl.
  - by rewrite decide_True.
  - destruct (decide (k' = k)) as [->|Hne]; simpl.
    + by rewrite decide_True.
    + by rewrite decide_False.
Qed.

Lemma dict_get_set_ne k k' v d : k ≠ k' → dict_get k' (dict_set k v d) = dict_get k' d.
Proof.
  intros Hne. induction d as [|[k0 v0] d IH]; simpl.
  - by rewrite decide_False.
  - destruct (decide (k0 = k)) as [->|Hne0]; simpl.
    + by rewrite !decide_False.
    + destruct (decide (k0 = k')); [done | apply IH].
Qed.

(** A dictionary filled by a loop: a key set by no row keeps its old
    value, and a key whose rows all carry the same value gets it. *)
Lemma dict_get_foldl_other {A} (key : A → K) (val : A → V) rows d k :
  (∀ r, r ∈ rows → key r ≠ k) →
  dict_get k (foldl (λ d r, dict_set (key r) (val r) d) d rows) = dict_get k d.
Proof.
  revert d. induction rows as [|r rows IH]; intros d Hno; simpl; [done|].
  rewrite IH.
  - apply dict_get_set_ne, Hno. by left.
  - intros r' Hr'. apply Hno. by right.
Qed.

Lemma dict_get_foldl_some {A} (key : A → K) (val : A → V) rows d k v :
  (∀ r, r ∈ rows → key r = k → val r = v) →
  dict_get k d = Some v ∨ (∃ r, r ∈ rows ∧ key r = k) →
  dict_get k (foldl (λ d r, dict_set (key r) (val r) d) d rows) = Some v.
Proof.
  revert d. induction rows as [|r rows IH]; intros d Hval Hsrc; simpl.
  - destruct Hsrc as [?|(r & Hr & _)]; [done | by apply elem_of_nil in Hr].
  - apply IH; [intros r' Hr'; apply Hval; by right|].
    destruct (decide (key r = k)) as [Hk|Hk].
    + left. rewrite Hk, dict_get_set_eq. f_equal.
      apply Hval; [by left | done].
    + rewrite dict_get_set_ne by done.
      destruct Hsrc as [?|(r' & Hr' & Hk')]; [by left|right].
      exists r'. split; [|done].
      apply elem_of_cons in Hr' as [->|?]; [by destruct Hk | done].
Qed.

(** A loop whose body never raises is the fold of its updates. *)
Lemma collect_fold {A} (body : A → result (K * V)) (kv : A → K * V) rows d :
  (∀ r, r ∈ rows → body r = Ok (kv r)) →
  collect body rows d = Ok (foldl (λ d r, dict_set (kv r).1 (kv r).2 d) d rows).
Proof.
  revert d. induction rows as [|r rows IH]; intros d Hok; [done|].
  unfold collect in *. simpl. rewrite Hok; [|by left]. simpl.
  destruct (kv r) as [k v] eqn:E. simpl.
  apply IH. intros r' Hr'. apply Hok. by right.
Qed.
End DictFacts.

(** In a frame whose column names are distinct, [df[name s]] is [s]. *)
Lemma getitem_elem_of df s :
  NoDup (columns df) → s ∈ cols df → getitem df (name s) = Ok s.
Proof.
  unfold getitem, columns. destruct df as [n cs]; simpl. intros Hnd Hin.
  induction cs as [|c cs IH]; [by apply elem_of_nil in Hin|].
  simpl. apply NoDup_cons in Hnd as [Hc Hnd].
  destruct (decide (name c = name s)) as [Heq|Hne]; simpl.
  - apply elem_of_cons in Hin as [->|Hin]; [done|].
    destruct Hc. rewrite Heq. apply list_elem_of_fmap. by exists s.
  - apply elem_of_cons in Hin as [->|Hin]; [done|].
    specialize (IH Hnd Hin).
    destruct (list_find (λ s0, name s0 = name s) cs) as [[i x]|]; simpl in *; done.
Qed.

(** ** ColumnRegistry *)

Lemma get_df_info_lookup df i :
  get_df_info df !! i = descriptor df i <$> cols df !! i.
Proof. unfold get_df_info. by rewrite list_lookup_imap. Qed.

Lemma get_df_info_ids df :
  info_id <$> get_df_info df = (λ i, Z.of_nat i + 1) <$> seq 0 (length (cols df)).
Proof.
  apply list_eq. intros i.
  rewrite !list_lookup_fmap, get_df_info_lookup.
  destruct (cols df !! i) as [s|] eqn:E; simpl.
  - rewrite lookup_seq_lt; [|by eapply lookup_lt_Some]. done.
  - rewrite lookup_seq_ge; [done|]. by apply lookup_ge_None.
Qed.

Lemma get_df_info_names df : column_name <$> get_df_info df = columns df.
Proof.
  apply list_eq. intros i. unfold columns.
  rewrite !list_lookup_fmap, get_df_info_lookup.
  by destruct (cols df !! i).
Qed.

(** C3: the descriptors computed from any frame, in particular from a frame
    that was just mutated, carry the ids 1, 2, ..., N in the left-to-right
    order of the N columns: the i-th descriptor (counting from 0) describes
    the i-th column and has id i + 1, so every id of 1..N occurs, none
    outside that range does, and none occurs twice. *)
Theorem descriptor_ids_contiguous (df : DataFrame) :
  let ids := info_id <$> get_df_info df in
  let N := length (columns df) in
  ids = (λ i, Z.of_nat i + 1) <$> seq 0 N
  ∧ column_name <$> get_df_info df = columns df
  ∧ length ids = N
  ∧ NoDup ids
  ∧ (∀ k, k ∈ ids ↔ 1 ≤ k ≤ Z.of_nat N).
Proof.
  simpl. unfold columns. rewrite length_fmap, get_df_info_ids.
  split_and!.
  - done.
  - apply get_df_info_names.
  - by rewrite length_fmap, length_seq.
  - apply NoDup_fmap_2; [intros i j ?; lia | apply NoDup_seq].
  - intros k. rewrite list_elem_of_fmap. split.
    + intros (i & -> & Hi). apply elem_of_seq in Hi. lia.
    + intros Hk. exists (Z.to_nat (k - 1)). split; [lia|].
      apply elem_of_seq. lia.
Qed.

(** ** The HTTP path of the missing-value batch *)

Section ApiMissing.
Variable to_numeric : list cell → option (string * list cell).

Lemma api_entries_cons a ids (plan : ApiPlan) :
  api_entries ((a, ids) :: plan) = ((λ cid, (a, cid)) <$> ids) ++ api_entries plan.
Proof. done. Qed.

Lemma api_entries_in_range n (plan : ApiPlan) :
  api_entries (in_range_plan n plan)
  = filter (λ e, 1 ≤ e.2 ≤ Z.of_nat n) (api_entries plan).
Proof.
  induction plan as [|[a ids] plan IH]; [done|].
  change (in_range_plan n ((a, ids) :: plan))
    with ((a, filter (λ cid, 1 ≤ cid ≤ Z.of_nat n) ids) :: in_range_plan n plan).
  rewrite !api_entries_cons, filter_app, IH. f_equal.
  clear. induction ids as [|cid ids IH]; [done|].
  rewrite fmap_cons, !filter_cons. simpl.
  destruct (decide (1 ≤ cid ≤ Z.of_nat n)); [rewrite fmap_cons; f_equal|]; apply IH.
Qed.

Lemma api_missing_step_out_of_range cols action cid st :
  ¬ (1 ≤ cid ≤ Z.of_nat (length cols)) →
  api_missing_step to_numeric cols (action, cid) st = Ok st.
Proof.
  intros Hout. unfold api_missing_step, in_range.
  by rewrite bool_decide_eq_false_2.
Qed.

Lemma api_missing_filter_in_range cols es st :
  for_each (api_missing_step to_numeric cols) es st
  = for_each (api_missing_step to_numeric cols)
      (filter (λ e, 1 ≤ e.2 ≤ Z.of_nat (length cols)) es) st.
Proof.
  revert st. induction es as [|[a cid] es IH]; intros st; [done|].
  rewrite filter_cons. cbn [snd].
  destruct (decide (1 ≤ cid ≤ Z.of_nat (length cols))) as [Hin|Hout].
  - rewrite !for_each_cons.
    destruct (api_missing_step to_numeric cols (a, cid) st) as [st'|x];
      [apply IH | done].
  - rewrite for_each_skip; [apply IH|]. by apply api_missing_step_out_of_range.
Qed.

Lemma api_missing_step_in_range cols action cid col st :
  1 ≤ cid → cols !! Z.to_nat (cid - 1) = Some col →
  api_missing_step to_numeric cols (action, cid) st
  = api_missing_action to_numeric action col st.
Proof.
  intros Hpos Hcol. unfold api_missing_step, in_range.
  apply lookup_lt_Some in Hcol as Hlt.
  rewrite bool_decide_eq_true_2 by lia. simpl. by rewrite Hcol.
Qed.

(** Writing a column leaves every column of another name as it is. *)
Lemma setitem_other df col dt vs s :
  s ∈ cols df → name s ≠ col → s ∈ cols (setitem df col dt vs).
Proof.
  intros Hin Hne. simpl. apply list_elem_of_fmap. exists s. split; [|done].
  by rewrite bool_decide_eq_false_2.
Qed.

Lemma df_drop_other df col df' s :
  df_drop df [col] = Ok df' → s ∈ cols df → name s ≠ col → s ∈ cols df'.
Proof.
  unfold df_drop. case_bool_decide; [|done]. intros [= <-] Hin Hne. simpl.
  apply list_elem_of_filter. split; [|done].
  intros Hc. apply list_elem_of_singleton in Hc. done.
Qed.

Lemma fill_float_other df col s0 val s :
  s ∈ cols df → name s ≠ col → s ∈ cols (fill_float df col s0 val).
Proof. destruct val; simpl; [|done]. intros. by apply setitem_other. Qed.

Lemma api_missing_action_other action col df logs df' logs' s :
  api_missing_action to_numeric action col (df, logs) = Ok (df', logs') →
  s ∈ cols df → name s ≠ col → s ∈ cols df'.
Proof.
  unfold api_missing_action, api_coercion_gate. intros Hrun Hin Hne.
  destruct (getitem df col) as [s0|x] eqn:Hs0; [|done]. simpl in Hrun.
  assert (∀ df1 logs1, s ∈ cols df1 →
            api_fill action col (df1, logs1) = Ok (df', logs') → s ∈ cols df') as Hfill.
  { clear -Hne. intros df1 logs1 Hin. unfold api_fill.
    repeat case_bool_decide.
    - destruct (getitem df1 col) as [s1|x] eqn:Hs1; [|done]. simpl. intros [= <- <-].
      by apply fill_float_other.
    - destruct (getitem df1 col) as [s1|x] eqn:Hs1; [|done]. simpl. intros [= <- <-].
      by apply fill_float_other.
    - destruct (getitem df1 col) as [s1|x] eqn:Hs1; [|done]. simpl.
      destruct (mode (values s1)); simpl; intros [= <- <-]; [done|].
      by apply setitem_other.
    - destruct (df_drop df1 [col]) as [df2|x] eqn:Hd; [|done]. simpl. intros [= <- <-].
      by eapply df_drop_other.
    - by intros [= <- <-]. }
  destruct (bool_decide (action ∈ ["mean"; "median"]) &&
            bool_decide (dtype s0 ∈ ["object"; "category"])).
  - destruct (to_numeric (values s0)) as [[dt vs]|]; simpl in Hrun.
    + eapply Hfill; [|done]. by apply setitem_other.
    + by injection Hrun as <- <-.
  - simpl in Hrun. by eapply Hfill.
Qed.


(** C9: inside one missing-value batch of the HTTP path every id is looked
    up in the list of column names taken before the first entry ran.  If the
    id [cid] names [col] in that list, then, whatever the entries before it
    did to the frame (a [drop_col] included), the entry acts on the column
    called [col], the batch goes on from there, and no column of another
    name is touched by it. *)
Theorem ids_resolved_against_batch_start (df : DataFrame) (plan : ApiPlan)
    (pre post : list (string * Z)) (action : string) (cid : Z) (col : string)
    (st1 : ApiState) :
  api_entries plan = pre ++ (action, cid) :: post →
  1 ≤ cid →
  columns df !! Z.to_nat (cid - 1) = Some col →
  for_each (api_missing_step to_numeric (columns df)) pre (df, []) = Ok st1 →
  api_missing_apply to_numeric df plan
  = (api_missing_action to_numeric action col st1
       ≫= for_each (api_missing_step to_numeric (columns df)) post)
  ∧ (∀ st2 s, api_missing_action to_numeric action col st1 = Ok st2 →
       s ∈ cols st1.1 → name s ≠ col → s ∈ cols st2.1).
Proof.
  intros Hplan Hpos Hcol Hpre. split.
  - unfold api_missing_apply. rewrite Hplan, for_each_app, Hpre, bind_Ok.
    rewrite for_each_cons. by rewrite (api_missing_step_in_range _ _ _ col).
  - intros [df2 logs2] s Hact. destruct st1 as [df1 logs1].
    by apply api_missing_action_other with (1 := Hact).
Qed.
End ApiMissing.


Lemma ids_resolved_against_batch_start_witness :
  api_missing_apply to_numeric_digits frame_abc [("drop_col", [1]); ("mode", [2])]
  = Ok (mkFrame 3
          [ mkSeries "b" "object" [Str "x"; Str "x"; Str "x"];
            mkSeries "c" "object" [NA; Str "y"; Str "z"] ],
        [log_drop "a"; log_fillna "b" "mode()[0]"]).
Proof.
  pose proof (ids_resolved_against_batch_start to_numeric_digits frame_abc
                [("drop_col", [1]); ("mode", [2])] [("drop_col", 1)] []
                "mode" 2 "b"
                (mkFrame 3
                   [ mkSeries "b" "object" [Str "x"; NA; Str "x"];
                     mkSeries "c" "object" [NA; Str "y"; Str "z"] ],
                 [log_drop "a"])) as H.
  destruct H as [-> _]; [done | lia | done | by vm_compute |].
  by vm_compute.
Defined.

(** ** The interactive path of the missing-value batch *)

(** A column without a single present value has no mean, no median and no
    mode. *)
Lemma all_missing_statistics vs :
  Forall (λ c, isnull c = true) vs →
  mean vs = NaN ∧ median vs = NaN ∧ mode vs = [].
Proof.
  intros Hall.
  assert (numbers vs = [] ∧ dropna vs = []) as [Hn Hd].
  { induction Hall as [|c vs Hc _ [IHn IHd]]; [done|].
    unfold dropna in *. rewrite filter_cons. by destruct c. }
  unfold mean, median, quantile, mode. rewrite Hn, Hd. done.
Qed.

Section CliMissing.
Variable to_numeric : list cell → option (string * list cell).
Variable is_object_dtype : string → bool.
Variable isinstance_CategoricalDtype : string → bool.

#[local] Abbreviation step := (cli_step to_numeric is_object_dtype isinstance_CategoricalDtype).
#[local] Abbreviation gate := (cli_coercion_gate to_numeric is_object_dtype isinstance_CategoricalDtype).
#[local] Abbreviation categorical := (is_categorical is_object_dtype isinstance_CategoricalDtype).

Lemma cli_fill_undefined action col_id col_name s st :
  getitem (current_df st) col_name = Ok s →
  (action = "mean" ∧ mean (values s) = NaN)
  ∨ (action = "median" ∧ median (values s) = NaN)
  ∨ (action = "mode" ∧ mode (values s) = []) →
  cli_fill action col_id col_name st = Ok st.
Proof.
  intros Hs [[-> Hv]|[[-> Hv]|[-> Hv]]]; unfold cli_fill;
    repeat (case_bool_decide; try done);
    rewrite Hs; simpl; by rewrite Hv.
Qed.

Lemma cli_gate_open action row st :
  categorical (info_dtype row) = false ∨ action = "mode" →
  gate action row st = Ok (Proceed, st).
Proof.
  unfold cli_coercion_gate. intros [->| ->]; [by rewrite andb_false_r | done].
Qed.

(** C10: when the statistic of the target column is undefined (a NaN mean or
    median, an empty mode, as for a column whose values are all missing),
    the guarded fill does nothing and raises nothing: frame, descriptors,
    log and pending replies are those before the entry.  For an entry that
    passes the coercion gate untouched (the column is not categorical, or
    the action is [mode]) the whole loop body is the identity and the loop
    goes on with the next entry. *)
Theorem undefined_statistic_skips_fill (action : string) (col_id : Z)
    (row : ColumnInfo) (s : Series) (st : CliState) (rest : list (string * Z)) :
  info_row (current_info st) col_id = Ok row →
  getitem (current_df st) (column_name row) = Ok s →
  (action = "mean" ∧ mean (values s) = NaN)
  ∨ (action = "median" ∧ median (values s) = NaN)
  ∨ (action = "mode" ∧ mode (values s) = []) →
  cli_fill action col_id (column_name row) st = Ok st
  ∧ (categorical (info_dtype row) = false ∨ action = "mode" →
     step (action, col_id) st = Ok st
     ∧ for_each step ((action, col_id) :: rest) st = for_each step rest st).
Proof.
  intros Hrow Hs Hstat.
  pose proof (cli_fill_undefined action col_id _ s st Hs Hstat) as Hfill.
  split; [done|]. intros Hgate.
  assert (step (action, col_id) st = Ok st) as Hstep.
  { unfold cli_step. rewrite Hrow, bind_Ok, cli_gate_open by done. done. }
  split; [done|]. by apply for_each_skip.
Qed.
(** *** The coercion gate *)

Lemma api_step_gate df logs cols action cid col s :
  action ∈ ["mean"; "median"] → 1 ≤ cid → cols !! Z.to_nat (cid - 1) = Some col →
  getitem df col = Ok s → dtype s ∈ ["object"; "category"] →
  api_missing_step to_numeric cols (action, cid) (df, logs)
  = match to_numeric (values s) with
    | Some (dt, vs) =>
        api_fill action col (setitem df col dt vs, logs ++ [log_to_numeric col])
    | None => Ok (df, logs)
    end.
Proof.
  intros Hact Hpos Hcol Hs Hcat.
  rewrite (api_missing_step_in_range _ _ _ _ col) by done.
  unfold api_missing_action, api_coercion_gate. rewrite Hs, bind_Ok.
  rewrite !bool_decide_eq_true_2 by done. simpl.
  by destruct (to_numeric (values s)) as [[dt vs]|].
Qed.

Lemma cli_step_gate st action col_id row convert more s :
  action ∈ ["mean"; "median"] → info_row (current_info st) col_id = Ok row →
  categorical (info_dtype row) = true → answers st = convert :: more →
  getitem (current_df st) (column_name row) = Ok s →
  step (action, col_id) st
  = if bool_decide (convert = "y") then
      match to_numeric (values s) with
      | Some (dt, vs) =>
          cli_fill action col_id (column_name row)
            (coerced (with_answers st more) (column_name row) dt vs)
      | None => Ok (with_answers st more)
      end
    else Ok (with_answers st more).
Proof.
  intros Hact Hrow Hcat Hans Hs.
  unfold cli_step. rewrite Hrow, bind_Ok. unfold cli_coercion_gate.
  rewrite bool_decide_eq_true_2, Hcat, Hans by done. simpl.
  case_bool_decide; [|done]. rewrite Hs.
  by destruct (to_numeric (values s)) as [[dt vs]|].
Qed.

(** C7 (amended): for a [mean] or [median] entry on a categorical column,
    the HTTP path first attempts the numeric coercion of the whole column;
    the interactive path first asks, attempts it only on the reply "y", and
    on any other reply skips the column without attempting it.  When the
    coercion fails or is declined the entry changes neither the frame nor
    the log, and the loop goes on with the remaining entries; when it
    succeeds the column is replaced as a whole and the fill runs on the
    converted column. *)
Theorem coercion_failure_skips_column :
  (∀ df logs cols action cid col s rest,
     action ∈ ["mean"; "median"] → 1 ≤ cid → cols !! Z.to_nat (cid - 1) = Some col →
     getitem df col = Ok s → dtype s ∈ ["object"; "category"] →
     (to_numeric (values s) = None →
        api_missing_step to_numeric cols (action, cid) (df, logs) = Ok (df, logs)
        ∧ for_each (api_missing_step to_numeric cols) ((action, cid) :: rest) (df, logs)
          = for_each (api_missing_step to_numeric cols) rest (df, logs))
     ∧ (∀ dt vs, to_numeric (values s) = Some (dt, vs) →
        api_missing_step to_numeric cols (action, cid) (df, logs)
        = api_fill action col (setitem df col dt vs, logs ++ [log_to_numeric col])))
  ∧ (∀ st action col_id row convert more s rest,
       action ∈ ["mean"; "median"] → info_row (current_info st) col_id = Ok row →
       categorical (info_dtype row) = true → answers st = convert :: more →
       getitem (current_df st) (column_name row) = Ok s →
       let skipped := with_answers st more in
       current_df skipped = current_df st ∧ log_code skipped = log_code st
       ∧ (convert ≠ "y" ∨ to_numeric (values s) = None →
            step (action, col_id) st = Ok skipped
            ∧ for_each step ((action, col_id) :: rest) st = for_each step rest skipped)
       ∧ (∀ dt vs, convert = "y" → to_numeric (values s) = Some (dt, vs) →
            step (action, col_id) st
            = cli_fill action col_id (column_name row)
                (coerced skipped (column_name row) dt vs))).
Proof.
  split.
  - intros df logs cols action cid col s rest Hact Hpos Hcol Hs Hcat.
    pose proof (api_step_gate df logs cols action cid col s Hact Hpos Hcol Hs Hcat)
      as Hstep.
    split.
    + intros Hfail. rewrite Hfail in Hstep. split; [done|]. by apply for_each_skip.
    + intros dt vs Hconv. by rewrite Hconv in Hstep.
  - intros st action col_id row convert more s rest Hact Hrow Hcat Hans Hs skipped.
    pose proof (cli_step_gate st action col_id row convert more s
                  Hact Hrow Hcat Hans Hs) as Hstep.
    split_and!; [done | done | |].
    + intros Hskip.
      assert (step (action, col_id) st = Ok skipped) as Hst.
      { rewrite Hstep. case_bool_decide as Hy; [|done].
        destruct Hskip as [?| ->]; done. }
      split; [done|]. by rewrite for_each_cons, Hst.
    + intros dt vs -> Hconv. rewrite Hstep, Hconv. done.
Qed.
End CliMissing.

Lemma undefined_statistic_skips_fill_witness :
  let info := get_df_info frame_text in
  let st := mkCli frame_text info info true [] [] in
  for_each (cli_step to_numeric_digits is_object_name is_category_name)
    [("mean", 2); ("median", 2); ("mode", 2)] st = Ok st.
Proof.
  intros info st.
  assert (info_row (current_info st) 2
          = Ok (mkInfo 2 "e" "float64" (Some (round2 0)) (Some (round2 100)))) as Hrow
    by by vm_compute.
  assert (getitem (current_df st) "e" = Ok (mkSeries "e" "float64" [NA; NA; NA])) as Hs
    by by vm_compute.
  destruct (all_missing_statistics [NA; NA; NA]) as (Hmean & Hmedian & Hmode);
    [by repeat constructor|].
  pose proof (undefined_statistic_skips_fill to_numeric_digits is_object_name
                is_category_name) as H.
  destruct (H "mean" 2 _ _ st [("median", 2); ("mode", 2)] Hrow Hs) as [_ H1];
    [by left|].
  destruct H1 as [_ ->]; [by left|].
  destruct (H "median" 2 _ _ st [("mode", 2)] Hrow Hs) as [_ H2];
    [by right; left|].
  destruct H2 as [_ ->]; [by left|].
  destruct (H "mode" 2 _ _ st [] Hrow Hs) as [_ H3]; [by right; right|].
  destruct H3 as [_ ->]; [by right|]. done.
Defined.

Lemma coercion_failure_skips_column_witness :
  let info := get_df_info frame_text in
  let st := mkCli frame_text info info true [] ["y"] in
  api_missing_apply to_numeric_digits frame_text [("mean", [3]); ("mode", [3])]
  = api_missing_apply to_numeric_digits frame_text [("mode", [3])]
  ∧ cli_step to_numeric_digits is_object_name is_category_name ("median", 3) st
    = Ok (mkCli frame_text info info true [] []).
Proof.
  intros info st.
  pose proof (coercion_failure_skips_column to_numeric_digits is_object_name
                is_category_name) as [Hapi Hcli].
  split.
  - unfold api_missing_apply.
    destruct (Hapi frame_text [] (columns frame_text) "mean" 3 "w"
                (mkSeries "w" "object" [Str "1"; Str "x"; NA]) [("mode", 3)])
      as [Hfail _].
    + apply list_elem_of_here.
    + lia.
    + done.
    + by vm_compute.
    + apply list_elem_of_here.
    + destruct Hfail as [_ Hloop]; [by vm_compute|]. exact Hloop.
  - destruct (Hcli st "median" 3
                (mkInfo 3 "w" "object" (Some (round2 (200 # 3))) (Some (round2 (100 # 3))))
                "y" [] (mkSeries "w" "object" [Str "1"; Str "x"; NA]) [])
      as (_ & _ & Hskip & _).
    + apply list_elem_of_further, list_elem_of_here.
    + by vm_compute.
    + by vm_compute.
    + done.
    + by vm_compute.
    + destruct Hskip as [Hstep _]; [right; by vm_compute|]. exact Hstep.
Defined.

(** C7, as stated, fails on the interactive path: the column "n" converts
    ([pd.to_numeric] would succeed), yet after the reply "n" to the prompt
    no coercion is attempted and the column is skipped as it was, whereas
    the HTTP path converts and fills it. *)
Lemma declined_coercion_is_not_attempted :
  let info := get_df_info frame_text in
  to_numeric_digits [Str "1"; NA; Str "3"] = Some ("float64", [Num 1; NA; Num 3])
  ∧ apply_actions to_numeric_digits is_object_name is_category_name
      [("mean", {[1]})] {[1]} frame_text info [] ["n"]
    = Ok (mkCli frame_text info info true [] [])
  ∧ api_missing_apply to_numeric_digits frame_text [("mean", [1])]
    = Ok (mkFrame 3
            [ mkSeries "n" "float64" [Num 1; Num 2; Num 3];
              mkSeries "e" "float64" [NA; NA; NA];
              mkSeries "w" "object" [Str "1"; Str "x"; NA] ],
          [log_to_numeric "n"; log_fillna "n" "mean()"]).
Proof. by vm_compute. Qed.

(** ** Coverage of a plan *)

Section PlanFacts.
Context {K V : Type} `{EqDecision K}.
Implicit Types (d : dict K V) (k : K) (v : V).

Lemma dict_get_Some_elem_of k v d : dict_get k d = Some v → (k, v) ∈ d.
Proof.
  induction d as [|[k' v'] d IH]; simpl; [done|].
  destruct (decide (k' = k)) as [->|Hne].
  - intros [= ->]. by left.
  - intros Hget. right. by apply IH.
Qed.

Lemma elem_of_dict_get k v d : NoDup (keys d) → (k, v) ∈ d → dict_get k d = Some v.
Proof.
  induction d as [|[k' v'] d IH]; simpl; intros Hnd Hin;
    [by apply elem_of_nil in Hin|].
  apply NoDup_cons in Hnd as [Hk' Hnd].
  apply elem_of_cons in Hin as [[= -> ->]|Hin]; [by rewrite decide_True|].
  rewrite decide_False; [by apply IH|].
  intros ->. apply Hk'. unfold keys. apply list_elem_of_fmap. by exists (k, v).
Qed.

Lemma keys_dict_set k v d :
  keys (dict_set k v d) = if decide (k ∈ keys d) then keys d else keys d ++ [k].
Proof.
  induction d as [|[k' v'] d IH]; [done|].
  change (keys ((k', v') :: d)) with (k' :: keys d). cbn [dict_set].
  destruct (decide (k' = k)) as [->|Hne].
  - rewrite decide_True; [done | by left].
  - change (keys ((k', v') :: dict_set k v d)) with (k' :: keys (dict_set k v d)).
    rewrite IH. destruct (decide (k ∈ keys d)) as [Hin|Hnin].
    + rewrite decide_True; [done | by right].
    + rewrite decide_False; [done|].
      apply not_elem_of_cons. split; [congruence | done].
Qed.

Lemma NoDup_keys_dict_set k v d : NoDup (keys d) → NoDup (keys (dict_set k v d)).
Proof.
  intros Hnd. rewrite keys_dict_set. case_decide; [done|].
  apply NoDup_app. split_and!; [done | | apply NoDup_singleton].
  intros x Hx Hx'. apply list_elem_of_singleton in Hx' as ->. done.
Qed.
End PlanFacts.

Lemma listed_setdefault_add plan a' i' a i :
  listed (setdefault_add a' i' plan) a i ↔ listed plan a i ∨ (a = a' ∧ i = i').
Proof.
  unfold listed, setdefault_add.
  destruct (decide (a' = a)) as [->|Hne].
  - rewrite dict_get_set_eq. simpl. set_solver.
  - rewrite dict_get_set_ne by done. naive_solver.
Qed.

Lemma listed_foldl (act : Z → string) l plan a i :
  listed (foldl (λ plan j, setdefault_add (act j) j plan) plan l) a i
  ↔ listed plan a i ∨ (i ∈ l ∧ a = act i).
Proof.
  revert plan. induction l as [|j l IH]; intros plan; simpl.
  - rewrite elem_of_nil. tauto.
  - rewrite IH, listed_setdefault_add, elem_of_cons. naive_solver.
Qed.

Lemma NoDup_keys_foldl (act : Z → string) l (plan : Plan) :
  NoDup (keys plan) →
  NoDup (keys (foldl (λ plan j, setdefault_add (act j) j plan) plan l)).
Proof.
  revert plan. induction l as [|j l IH]; intros plan Hnd; simpl; [done|].
  apply IH. by apply NoDup_keys_dict_set.
Qed.

Lemma covered_ids_union_list (plan : Plan) : covered_ids plan = ⋃ (plan.*2).
Proof.
  unfold covered_ids.
  assert (∀ X : gset Z, foldl (λ acc p, acc ∪ p.2) X plan = X ∪ ⋃ (plan.*2)) as H.
  { induction plan as [|[a ids] plan IH]; intros X; simpl.
    - set_solver.
    - rewrite IH. set_solver. }
  rewrite H. set_solver.
Qed.

Lemma elem_of_covered_ids (plan : Plan) i :
  i ∈ covered_ids plan ↔ ∃ a ids, (a, ids) ∈ plan ∧ i ∈ ids.
Proof.
  rewrite covered_ids_union_list, elem_of_union_list. split.
  - intros (ids & Hids & Hi). apply list_elem_of_fmap in Hids as ([a ids'] & -> & Hin).
    by exists a, ids'.
  - intros (a & ids & Hin & Hi). exists ids. split; [|done].
    apply list_elem_of_fmap. by exists (a, ids).
Qed.

Lemma listed_covered (plan : Plan) a i : listed plan a i → i ∈ covered_ids plan.
Proof.
  unfold listed. destruct (dict_get a plan) as [ids|] eqn:E; simpl; [|set_solver].
  intros Hi. apply elem_of_covered_ids. exists a, ids.
  split; [by apply dict_get_Some_elem_of | done].
Qed.

Lemma elem_of_plan_entries (plan : Plan) (target : gset Z) a i :
  NoDup (keys plan) →
  (a, i) ∈ plan_entries plan target ↔ listed plan a i ∧ i ∈ target.
Proof.
  intros Hnd. unfold plan_entries. rewrite list_elem_of_bind. split.
  - intros ([a' ids] & Hai & Hin).
    apply list_elem_of_fmap in Hai as (j & [= -> ->] & Hj).
    apply list_elem_of_filter in Hj as [Ht Hj]. apply elem_of_elements in Hj.
    split; [|done]. unfold listed. by rewrite (elem_of_dict_get _ _ _ Hnd Hin).
  - intros [Hl Ht]. unfold listed in Hl.
    destruct (dict_get a plan) as [ids|] eqn:E; simpl in Hl; [|set_solver].
    exists (a, ids). split; [|by apply dict_get_Some_elem_of].
    apply list_elem_of_fmap. exists i. split; [done|].
    apply list_elem_of_filter. split; [done | by apply elem_of_elements].
Qed.

(** C2: the uncovered ids are the eligible ids minus the union of the id
    sets of the plan (so their number is the number of eligible ids minus
    the number of eligible ids the plan covers: three eligible ids and a
    plan covering one of them leave the other two).  Under "apply
    suggestions" the plan built for them lists every uncovered id under
    exactly the action the suggestion map gives it, ["median"] when the map
    has none, and nothing else; the entries then applied are these pairs;
    and no uncovered id remains once that plan is counted as covering. *)
Theorem uncovered_ids_resolved (eligible : gset Z) (user_plan : Plan)
    (global_suggestion : dict Z string) :
  let uncovered := uncovered_ids eligible user_plan in
  let fallback := temp_plan global_suggestion uncovered in
  uncovered = eligible ∖ ⋃ (user_plan.*2)
  ∧ size uncovered = (size eligible - size (eligible ∩ covered_ids user_plan))%nat
  ∧ (∀ action i,
       listed fallback action i
       ↔ i ∈ uncovered ∧ action = default "median" (dict_get i global_suggestion))
  ∧ (∀ action i,
       (action, i) ∈ plan_entries fallback uncovered
       ↔ i ∈ uncovered ∧ action = default "median" (dict_get i global_suggestion))
  ∧ uncovered_ids uncovered fallback = ∅
  ∧ uncovered_ids eligible (user_plan ++ fallback) = ∅.
Proof.
  intros uncovered fallback.
  assert (∀ action i,
            listed fallback action i
            ↔ i ∈ uncovered ∧ action = default "median" (dict_get i global_suggestion))
    as Hlisted.
  { intros action i. unfold fallback, temp_plan.
    rewrite (listed_foldl (λ j, default "median" (dict_get j global_suggestion))).
    rewrite elem_of_elements. unfold listed. simpl. set_solver. }
  assert (NoDup (keys fallback)) as Hnd.
  { unfold fallback, temp_plan.
    apply (NoDup_keys_foldl (λ j, default "median" (dict_get j global_suggestion))).
    apply NoDup_nil_2. }
  assert (uncovered ⊆ covered_ids fallback) as Hcov.
  { intros i Hi.
    apply (listed_covered _ (default "median" (dict_get i global_suggestion))).
    by apply Hlisted. }
  split_and!.
  - unfold uncovered, uncovered_ids. by rewrite covered_ids_union_list.
  - unfold uncovered, uncovered_ids.
    replace (eligible ∖ covered_ids user_plan)
      with (eligible ∖ (eligible ∩ covered_ids user_plan)) by set_solver.
    apply size_difference. set_solver.
  - done.
  - intros action i. rewrite elem_of_plan_entries by done. rewrite Hlisted. tauto.
  - unfold uncovered_ids. set_solver.
  - unfold uncovered_ids. apply set_eq. intros i.
    rewrite elem_of_difference, !elem_of_covered_ids.
    split; [|set_solver]. intros [Hi Hno]. exfalso.
    destruct (decide (i ∈ covered_ids user_plan)) as [Hc|Hc].
    + apply elem_of_covered_ids in Hc as (a & ids & Hin & Hids).
      apply Hno. exists a, ids. split; [|done]. apply elem_of_app. by left.
    + assert (i ∈ covered_ids fallback) as Hf.
      { apply Hcov. unfold uncovered, uncovered_ids. set_solver. }
      apply elem_of_covered_ids in Hf as (a & ids & Hin & Hids).
      apply Hno. exists a, ids. split; [|done]. apply elem_of_app. by right.
Qed.

Lemma uncovered_ids_resolved_witness :
  let global_suggestion : dict Z string := [(1, "mean"); (2, "mode")] in
  let user_plan : Plan := [("mode", {[2]})] in
  uncovered_ids {[1; 2; 3]} user_plan = {[1; 3]}
  ∧ size (uncovered_ids {[1; 2; 3]} user_plan) = 2%nat
  ∧ plan_entries (temp_plan global_suggestion {[1; 3]}) {[1; 3]}
    = [("median", 3); ("mean", 1)]
  ∧ uncovered_ids {[1; 3]} (temp_plan global_suggestion {[1; 3]}) = ∅.
Proof.
  intros global_suggestion user_plan.
  pose proof (uncovered_ids_resolved {[1; 2; 3]} user_plan global_suggestion) as H.
  cbv zeta in H. destruct H as (_ & H2 & _ & _ & H5 & _).
  assert (uncovered_ids {[1; 2; 3]} user_plan = {[1; 3]}) as Hu by by vm_compute.
  rewrite Hu in *.
  split_and!; [done | rewrite H2; by vm_compute | by vm_compute | exact H5].
Defined.

(** ** Suggestions keyed by descriptor ids *)

Lemma fgt_exceeds x q : fgt x (Some q) = true ↔ exceeds x q.
Proof.
  unfold fgt, exceeds, Qlt_bool. destruct x as [v|]; [|naive_solver].
  rewrite negb_true_iff. split.
  - intros Hle. exists v. split; [done|].
    apply Qnot_le_lt. intros Hc. apply Qle_bool_iff in Hc. congruence.
  - intros (v' & [= <-] & Hlt). apply not_true_is_false. intros Hc.
    apply Qle_bool_iff in Hc. by apply Qlt_not_le in Hlt.
Qed.

Lemma fgt_not_exceeds x q : fgt x (Some q) = false ↔ ¬ exceeds x q.
Proof. rewrite <- fgt_exceeds. by destruct (fgt x (Some q)). Qed.

Lemma elem_of_get_df_info df r :
  r ∈ get_df_info df ↔ ∃ j sj, cols df !! j = Some sj ∧ r = descriptor df j sj.
Proof.
  rewrite list_elem_of_lookup. split.
  - intros (j & Hj). rewrite get_df_info_lookup in Hj.
    destruct (cols df !! j) as [sj|] eqn:E; [|done].
    injection Hj as <-. by exists j, sj.
  - intros (j & sj & Hj & ->). exists j. by rewrite get_df_info_lookup, Hj.
Qed.

(** A dictionary collected over the descriptors that satisfy [P], by a body
    that yields, for the descriptor of column [j], the key [j + 1] and the
    value [val j sj]. *)
Lemma collect_descriptors {V} `{Inhabited V} df (body : ColumnInfo → result (Z * V))
    (val : nat → Series → V) (P : ColumnInfo → Prop) `{∀ r, Decision (P r)} :
  (∀ j sj, cols df !! j = Some sj →
     body (descriptor df j sj) = Ok (Z.of_nat j + 1, val j sj)) →
  ∃ d, collect body (filter P (get_df_info df)) [] = Ok d
    ∧ ∀ i s, cols df !! i = Some s →
        dict_get (Z.of_nat i + 1) d
        = if decide (P (descriptor df i s)) then Some (val i s) else None.
Proof.
  intros Hbody.
  set (kv := λ r, match body r with Ok p => p | Raise _ => (0, inhabitant) end).
  assert (∀ j sj, cols df !! j = Some sj →
            kv (descriptor df j sj) = (Z.of_nat j + 1, val j sj)) as Hkv.
  { intros j sj Hj. unfold kv. by rewrite (Hbody j sj Hj). }
  eexists. split.
  - apply (collect_fold body kv). intros r Hr.
    apply list_elem_of_filter in Hr as [_ Hr].
    apply elem_of_get_df_info in Hr as (j & sj & Hj & ->).
    by rewrite (Hbody j sj Hj), (Hkv j sj Hj).
  - intros i s Hi. destruct (decide (P (descriptor df i s))) as [HP|HP].
    + apply (dict_get_foldl_some (λ r, (kv r).1) (λ r, (kv r).2)).
      * intros r Hr Hk. apply list_elem_of_filter in Hr as [_ Hr].
        apply elem_of_get_df_info in Hr as (j & sj & Hj & ->).
        rewrite (Hkv j sj Hj) in *. simpl in *.
        assert (j = i) as -> by lia. congruence.
      * right. exists (descriptor df i s). split.
        -- apply list_elem_of_filter. split; [done|].
           apply elem_of_get_df_info. by exists i, s.
        -- by rewrite (Hkv i s Hi).
    + rewrite (dict_get_foldl_other (λ r, (kv r).1) (λ r, (kv r).2)); [done|].
      intros r Hr Hk. apply list_elem_of_filter in Hr as [HPr Hr].
      apply elem_of_get_df_info in Hr as (j & sj & Hj & ->).
      rewrite (Hkv j sj Hj) in Hk. simpl in Hk.
      assert (j = i) as -> by lia. congruence.
Qed.

Lemma getitem_lookup df i s :
  NoDup (columns df) → cols df !! i = Some s → getitem df (name s) = Ok s.
Proof. intros Hnd Hi. apply getitem_elem_of; [done|]. by eapply list_elem_of_lookup_2. Qed.

Section MissingRule.
Variable skew : list cell → float.
Variable is_object_dtype : string → bool.
Variable isinstance_CategoricalDtype : string → bool.

#[local] Abbreviation categorical :=
  (is_categorical is_object_dtype isinstance_CategoricalDtype).

End MissingRule.


(** ** Correlation *)

Lemma name_inj df s s' :
  NoDup (columns df) → s ∈ cols df → s' ∈ cols df → name s = name s' → s = s'.
Proof.
  intros Hnd Hs Hs' Hname.
  pose proof (getitem_elem_of df s Hnd Hs) as H1.
  pose proof (getitem_elem_of df s' Hnd Hs') as H2.
  rewrite Hname in H1. congruence.
Qed.

Lemma nonempty_elem_of {A} (l : list A) : l ≠ [] ↔ ∃ x, x ∈ l.
Proof.
  destruct l as [|x l]; split; try done.
  - intros [x Hx]. by apply elem_of_nil in Hx.
  - intros _. exists x. by left.
Qed.

(** The suggestion built from the flagged descriptors. *)
Lemma corr_global_suggestion_lookup df (flagged : list string) i s :
  cols df !! i = Some s →
  dict_get (Z.of_nat i + 1)
    (corr_global_suggestion (cols_with_issues (get_df_info df) flagged))
  = if decide (name s ∈ flagged) then Some "drop" else None.
Proof.
  intros Hi.
  destruct (collect_descriptors df (λ r, Ok (info_id r, "drop")) (λ _ _, "drop")
              (λ r, column_name r ∈ flagged)) as (d & Hd & Hget); [done|].
  rewrite (collect_fold _ (λ r, (info_id r, "drop"))) in Hd by done.
  injection Hd as <-. apply (Hget i s Hi).
Qed.

Section CorrelationFacts.
Variable pearson : list cell → list cell → float.

Lemma high_corr_series_nonempty numeric threshold c :
  high_corr_series pearson numeric threshold c ≠ []
  ↔ ∃ r, (r < c)%nat ∧ exceeds (corr_matrix pearson numeric r c) threshold.
Proof.
  rewrite nonempty_elem_of. unfold high_corr_series. split.
  - intros ([r x] & Hin). apply list_elem_of_filter in Hin as [Hgt Hin].
    apply list_elem_of_fmap in Hin as (r' & [= -> ->] & _).
    simpl in Hgt. unfold upper in Hgt. case_bool_decide; [|done].
    exists r'. split; [done|]. by apply fgt_exceeds.
  - intros (r & Hlt & Hex). exists (r, upper pearson numeric r c).
    apply list_elem_of_filter. split.
    + simpl. unfold upper. rewrite bool_decide_eq_true_2 by done.
      by apply fgt_exceeds.
    + apply list_elem_of_fmap. exists r. split; [done|].
      apply elem_of_seq. split; [lia|]. simpl.
      destruct Hex as (v & Hv & _). unfold corr_matrix in Hv.
      destruct (numeric !! r) eqn:E; [|done]. by apply lookup_lt_Some in E.
Qed.

Lemma existsb_upper numeric threshold c :
  existsb (λ r, fgt (upper pearson numeric r c) (Some threshold))
    (seq 0 (length numeric)) = true
  ↔ high_corr_series pearson numeric threshold c ≠ [].
Proof.
  rewrite existsb_exists, nonempty_elem_of. unfold high_corr_series. split.
  - intros (r & Hin & Hgt). exists (r, upper pearson numeric r c).
    apply list_elem_of_filter. split; [done|].
    apply list_elem_of_fmap. exists r. split; [done|]. by apply list_elem_of_In.
  - intros ([r x] & Hin). apply list_elem_of_filter in Hin as [Hgt Hin].
    apply list_elem_of_fmap in Hin as (r' & [= -> ->] & Hr').
    exists r'. split; [by apply list_elem_of_In | done].
Qed.

Lemma elem_of_imap_pair (numeric : list Series) (p : nat * Series) :
  p ∈ imap (λ c s, (c, s)) numeric ↔ numeric !! p.1 = Some p.2.
Proof.
  rewrite list_elem_of_lookup. split.
  - intros (j & Hj). rewrite list_lookup_imap in Hj.
    destruct (numeric !! j) as [sj|] eqn:E; [|done]. by injection Hj as <-.
  - intros Hp. exists p.1. rewrite list_lookup_imap, Hp. by destruct p.
Qed.

Lemma elem_of_high_corr_cols numeric threshold nm :
  nm ∈ high_corr_cols pearson numeric threshold
  ↔ ∃ c s', numeric !! c = Some s' ∧ name s' = nm
            ∧ high_corr_series pearson numeric threshold c ≠ [].
Proof.
  unfold high_corr_cols. rewrite list_elem_of_fmap. split.
  - intros ([c s'] & -> & Hin). apply list_elem_of_filter in Hin as [Hne Hin].
    apply elem_of_imap_pair in Hin. by exists c, s'.
  - intros (c & s' & Hc & <- & Hne). exists (c, s'). split; [done|].
    apply list_elem_of_filter. split; [done|]. by apply elem_of_imap_pair.
Qed.

(** A column is among the flagged names exactly when it is the later member
    of a pair of numeric columns above the threshold. *)
Lemma flagged_iff_later_of_pair df threshold s :
  NoDup (columns df) → s ∈ cols df →
  name s ∈ high_corr_cols pearson (numeric_series df) threshold
  ↔ ∃ r c sr, (r < c)%nat ∧ numeric_series df !! r = Some sr
              ∧ numeric_series df !! c = Some s
              ∧ exceeds (fabs (pearson (values sr) (values s))) threshold.
Proof.
  intros Hnd Hs. rewrite elem_of_high_corr_cols. split.
  - intros (c & s' & Hc & Hname & Hne).
    assert (s' = s) as ->.
    { apply (name_inj df); [done | | done | done].
      apply list_elem_of_lookup_2 in Hc. unfold numeric_series in Hc.
      by apply list_elem_of_filter in Hc as [_ ?]. }
    apply high_corr_series_nonempty in Hne as (r & Hlt & Hex).
    unfold corr_matrix in Hex. rewrite Hc in Hex.
    destruct (numeric_series df !! r) as [sr|] eqn:Hr; [|by destruct Hex as (? & ? & ?)].
    by exists r, c, sr.
  - intros (r & c & sr & Hlt & Hr & Hc & Hex). exists c, s. split_and!; [done | done |].
    apply high_corr_series_nonempty. exists r. split; [done|].
    unfold corr_matrix. by rewrite Hr, Hc.
Qed.

(** C1 (amended): of a pair of numeric columns whose absolute correlation
    exceeds the threshold, the suggestion flags the later column (in column
    order) with [drop]; a column is flagged only as the later member of
    such a pair, so the earlier member is flagged only if a still earlier
    column correlates with it above the threshold.  [handle_high_correlation]
    and [api_corr] flag the same columns. *)
Theorem later_column_of_pair_is_flagged (df : DataFrame) (threshold : Q)
    (i : nat) (s : Series) :
  NoDup (columns df) → cols df !! i = Some s →
  let numeric := numeric_series df in
  let suggestion := correlation_suggestion pearson df (get_df_info df) threshold in
  let later_of_pair :=
    ∃ r c sr, (r < c)%nat ∧ numeric !! r = Some sr ∧ numeric !! c = Some s
              ∧ exceeds (fabs (pearson (values sr) (values s))) threshold in
  (later_of_pair → dict_get (Z.of_nat i + 1) suggestion = Some "drop")
  ∧ (¬ later_of_pair → dict_get (Z.of_nat i + 1) suggestion = None)
  ∧ (∀ flagged, api_high_corr_cols pearson df threshold = Some flagged →
       name s ∈ flagged ↔ later_of_pair).
Proof.
  intros Hnd Hi numeric suggestion later_of_pair.
  assert (s ∈ cols df) as Hs by by eapply list_elem_of_lookup_2.
  pose proof (flagged_iff_later_of_pair df threshold s Hnd Hs) as Hiff.
  fold numeric later_of_pair in Hiff.
  assert (later_of_pair → (2 ≤ length numeric)%nat) as Hlen.
  { intros (r & c & sr & Hlt & _ & Hc & _). apply lookup_lt_Some in Hc. lia. }
  assert (dict_get (Z.of_nat i + 1) suggestion
          = if decide ((2 ≤ length numeric)%nat ∧
                       name s ∈ high_corr_cols pearson numeric threshold)
            then Some "drop" else None) as Hget.
  { unfold suggestion, correlation_suggestion. fold numeric.
    case_bool_decide as Hfew.
    - rewrite decide_False by lia. done.
    - case_bool_decide as Hnone.
      + rewrite Hnone. rewrite decide_False; [done|]. intros [_ Hin].
        by apply elem_of_nil in Hin.
      + rewrite (corr_global_suggestion_lookup df _ i s Hi).
        destruct (decide (name s ∈ high_corr_cols pearson numeric threshold)).
        * rewrite decide_True; [done | split; [lia | done]].
        * rewrite decide_False; [done | tauto]. }
  split_and!.
  - intros Hpair. rewrite Hget, decide_True; [done|].
    split; [by apply Hlen | by apply Hiff].
  - intros Hno. rewrite Hget, decide_False; [done|]. intros [_ Hin]. by apply Hiff in Hin.
  - intros flagged. unfold api_high_corr_cols. fold numeric.
    case_bool_decide; [done|]. intros [= <-]. rewrite <- Hiff.
    unfold high_corr_cols. rewrite !list_elem_of_fmap.
    split; intros (p & Hp & Hin); exists p; (split; [done|]);
      apply list_elem_of_filter in Hin as [Hf Hin]; apply list_elem_of_filter;
      (split; [|done]); by apply existsb_upper.
Qed.
End CorrelationFacts.

Lemma later_column_of_pair_is_flagged_witness :
  dict_get 2 (correlation_suggestion pearson_one frame_dup (get_df_info frame_dup) (9 # 10))
  = Some "drop".
Proof.
  apply (proj1 (later_column_of_pair_is_flagged pearson_one frame_dup (9 # 10) 1
                  (ints "int64" "b" [2; 4; 6]) ltac:(compute_done) eq_refl)).
  exists 0%nat, 1%nat, (ints "int64" "a" [1; 2; 3]).
  split_and!; [lia | done | done |]. exists 1%Q. split; done.
Defined.

(** C1, as stated, fails: the columns "a" and "b" are exact linear
    duplicates (coefficient 1 > 0.90), yet only the later one, "b" with
    id 2, is flagged; "a" with id 1 is in neither flagged set. *)
Lemma earlier_column_of_pair_not_flagged :
  fabs (pearson_one (values (ints "int64" "a" [1; 2; 3]))
          (values (ints "int64" "b" [2; 4; 6]))) = Some 1%Q
  ∧ (9 # 10 < 1)%Q
  ∧ correlation_suggestion pearson_one frame_dup (get_df_info frame_dup) (9 # 10)
    = [(2, "drop")]
  ∧ dict_get 1 (correlation_suggestion pearson_one frame_dup (get_df_info frame_dup)
                  (9 # 10)) = None
  ∧ api_high_corr_cols pearson_one frame_dup (9 # 10) = Some ["b"].
Proof. split_and!; by vm_compute. Qed.

(** ** Outliers *)

Lemma Qlt_bool_iff x y : Qlt_bool x y = true ↔ (x < y)%Q.
Proof.
  unfold Qlt_bool. rewrite negb_true_iff. split.
  - intros Hle. apply Qnot_le_lt. intros Hc. apply Qle_bool_iff in Hc. congruence.
  - intros Hlt. apply not_true_is_false. intros Hc. apply Qle_bool_iff in Hc.
    by apply Qlt_not_le in Hlt.
Qed.

Lemma outlier_action_rule row :
  ((10 < outliers_pct row)%Q → outlier_action row = "remove_rows")
  ∧ (¬ (10 < outliers_pct row)%Q → outlier_action row = "cap").
Proof.
  unfold outlier_action. split; intros H.
  - apply Qlt_bool_iff in H. by rewrite H.
  - destruct (Qlt_bool 10 (outliers_pct row)) eqn:E.
    + by apply Qlt_bool_iff in E.
    + by destruct (contains _ _).
Qed.

Lemma elem_of_insert_desc x y l : y ∈ insert_desc x l ↔ y = x ∨ y ∈ l.
Proof.
  induction l as [|z l IH]; simpl.
  - rewrite list_elem_of_singleton, elem_of_nil. tauto.
  - destruct (Qle_bool _ _).
    + by rewrite elem_of_cons.
    + rewrite !elem_of_cons, IH. tauto.
Qed.

Lemma elem_of_sort_desc y l : y ∈ sort_desc l ↔ y ∈ l.
Proof.
  induction l as [|x l IH]; simpl; [done|].
  by rewrite elem_of_insert_desc, IH, elem_of_cons.
Qed.

Lemma outlier_entry_elem_of df s :
  NoDup (columns df) → (0 < nrows df)%nat → s ∈ cols df →
  outlier_entry df (name s) = Ok (summary_entry df s).
Proof.
  intros Hnd Hrows Hs. unfold outlier_entry, summary_entry, outlier_count.
  rewrite (getitem_elem_of df s Hnd Hs), bind_Ok. simpl.
  destruct (iqr_bounds (values s)) as [lo hi]. simpl.
  rewrite bool_decide_eq_false_2 by lia. done.
Qed.

Lemma outlier_summary_omap df l acc :
  NoDup (columns df) → (0 < nrows df)%nat → l ⊆ cols df →
  for_each (λ col summary,
      e ← outlier_entry df col;
      mret (match e with Some o => summary ++ [o] | None => summary end))
    (name <$> l) acc
  = Ok (acc ++ omap (summary_entry df) l).
Proof.
  intros Hnd Hrows. revert acc. induction l as [|s l IH]; intros acc Hsub.
  - simpl. by rewrite app_nil_r.
  - rewrite fmap_cons, for_each_cons.
    rewrite outlier_entry_elem_of by (done || set_solver). rewrite bind_Ok.
    simpl. rewrite IH by set_solver.
    destruct (summary_entry df s); [by rewrite <- app_assoc | done].
Qed.

(** The table [outlier_cols_info] holds exactly the diagnostic rows of the
    numeric columns that have outliers. *)
Lemma detect_outliers_table df :
  NoDup (columns df) → (0 < nrows df)%nat →
  ∃ table,
    detect_outliers df (get_df_info df) = Ok (table, outlier_global_suggestion table)
    ∧ ∀ o, o ∈ table ↔
        ∃ j sj, cols df !! j = Some sj ∧ dtype sj ∈ ["float64"; "int64"]
                ∧ (0 < outlier_count sj)%nat ∧ o = diagnostic_row df j sj.
Proof.
  intros Hnd Hrows. unfold detect_outliers, outlier_summary, numeric_cols.
  rewrite outlier_summary_omap; [|done|done|].
  2:{ intros s Hs. unfold numeric_series in Hs. by apply list_elem_of_filter in Hs as [_ ?]. }
  rewrite bind_Ok. simpl. eexists. split; [done|].
  intros o. unfold outlier_cols_info_of. rewrite elem_of_sort_desc, list_elem_of_bind.
  split.
  - intros (r & Ho & Hr). apply list_elem_of_filter in Hr as [_ Hr].
    apply elem_of_get_df_info in Hr as (j & sj & Hj & ->).
    apply list_elem_of_fmap in Ho as (o' & -> & Ho').
    apply list_elem_of_filter in Ho' as [Hname Ho'].
    apply elem_of_sort_desc, list_elem_of_omap in Ho' as (s' & Hs' & Hentry).
    unfold numeric_series in Hs'. apply list_elem_of_filter in Hs' as [Hnum Hs'].
    unfold summary_entry in Hentry. case_bool_decide as Hcount; [|done].
    injection Hentry as <-. simpl in Hname.
    assert (s' = sj) as ->.
    { apply (name_inj df); [done | done | by eapply list_elem_of_lookup_2 | done]. }
    exists j, sj. split_and!; done.
  - intros (j & sj & Hj & Hnum & Hcount & ->).
    assert (sj ∈ cols df) as Hsj by by eapply list_elem_of_lookup_2.
    assert (summary_entry df sj ≠ None) as Hsome.
    { unfold summary_entry. by rewrite bool_decide_eq_true_2. }
    destruct (summary_entry df sj) as [o'|] eqn:Hentry; [|done].
    assert (o' ∈ sort_desc (omap (summary_entry df) (numeric_series df))) as Ho'.
    { apply elem_of_sort_desc, list_elem_of_omap. exists sj. split; [|done].
      unfold numeric_series. by apply list_elem_of_filter. }
    unfold summary_entry in Hentry. rewrite bool_decide_eq_true_2 in Hentry by done.
    injection Hentry as <-.
    exists (descriptor df j sj). split.
    + apply list_elem_of_fmap. eexists. split; [|apply list_elem_of_filter; split; [|exact Ho']].
      * done.
      * done.
    + apply list_elem_of_filter. split.
      * apply list_elem_of_fmap. eexists. split; [|exact Ho']. done.
      * apply elem_of_get_df_info. by exists j, sj.
Qed.

Lemma outlier_row_unique table col_id row :
  row ∈ table → o_id row = col_id →
  (∀ o, o ∈ table → o_id o = col_id → o = row) →
  outlier_row table col_id = Ok row.
Proof.
  intros Hin Hid Huniq. unfold outlier_row.
  destruct (list_find (λ o, o_id o = col_id) table) as [[k o]|] eqn:E.
  - apply list_find_Some in E as (Hk & Ho & _).
    f_equal. apply Huniq; [by eapply list_elem_of_lookup_2 | done].
  - apply list_find_None in E. rewrite Forall_forall in E. by destruct (E row Hin).
Qed.

Lemma outlier_row_absent table col_id :
  (∀ o, o ∈ table → o_id o ≠ col_id) → outlier_row table col_id = Raise IndexError.
Proof.
  intros Hno. unfold outlier_row.
  destruct (list_find (λ o, o_id o = col_id) table) as [[k o]|] eqn:E; [|done].
  apply list_find_Some in E as (Hk & Ho & _).
  destruct (Hno o); [by eapply list_elem_of_lookup_2 | done].
Qed.

(** What the table and the suggestion hold for the column [s] at position
    [i]. *)
Lemma detect_outliers_lookup df i s :
  NoDup (columns df) → (0 < nrows df)%nat → cols df !! i = Some s →
  ∃ table,
    detect_outliers df (get_df_info df) = Ok (table, outlier_global_suggestion table)
    ∧ (dtype s ∉ ["float64"; "int64"] ∨ outlier_count s = 0%nat →
       outlier_row table (Z.of_nat i + 1) = Raise IndexError
       ∧ dict_get (Z.of_nat i + 1) (outlier_global_suggestion table) = None)
    ∧ (dtype s ∈ ["float64"; "int64"] → (0 < outlier_count s)%nat →
       outlier_row table (Z.of_nat i + 1) = Ok (diagnostic_row df i s)
       ∧ dict_get (Z.of_nat i + 1) (outlier_global_suggestion table)
         = Some (outlier_action (diagnostic_row df i s))).
Proof.
  intros Hnd Hrows Hi.
  destruct (detect_outliers_table df Hnd Hrows) as (table & Hdetect & Htable).
  exists table. split; [done|].
  assert (∀ o, o ∈ table → o_id o = Z.of_nat i + 1 →
            o = diagnostic_row df i s ∧ dtype s ∈ ["float64"; "int64"]
            ∧ (0 < outlier_count s)%nat) as Huniq.
  { intros o Ho Hid. apply Htable in Ho as (j & sj & Hj & Hnum & Hcount & ->).
    simpl in Hid. assert (j = i) as -> by lia.
    assert (sj = s) as -> by congruence. done. }
  split.
  - intros Hout.
    assert (∀ o, o ∈ table → o_id o ≠ Z.of_nat i + 1) as Hno.
    { intros o Ho Hid. destruct (Huniq o Ho Hid) as (_ & Hnum & Hcount).
      destruct Hout as [Hout|Hout]; [done | lia]. }
    split; [by apply outlier_row_absent|].
    unfold outlier_global_suggestion.
    by rewrite (dict_get_foldl_other o_id outlier_action).
  - intros Hnum Hcount.
    assert (diagnostic_row df i s ∈ table) as Hin.
    { apply Htable. by exists i, s. }
    split.
    + apply outlier_row_unique; [done | done |].
      intros o Ho Hid. by destruct (Huniq o Ho Hid) as [-> _].
    + unfold outlier_global_suggestion.
      apply (dict_get_foldl_some o_id outlier_action).
      * intros o Ho Hid. by destruct (Huniq o Ho Hid) as [-> _].
      * right. by exists (diagnostic_row df i s).
Qed.



Lemma info_row_get_df_info df i s :
  cols df !! i = Some s → info_row (get_df_info df) (Z.of_nat i + 1) = Ok (descriptor df i s).
Proof.
  intros Hi. unfold info_row.
  destruct (list_find (λ r, info_id r = Z.of_nat i + 1) (get_df_info df))
    as [[k r]|] eqn:E.
  - apply list_find_Some in E as (Hk & Hid & _).
    rewrite get_df_info_lookup in Hk.
    destruct (cols df !! k) as [sk|] eqn:Ek; [|done]. injection Hk as <-.
    simpl in Hid. assert (k = i) as -> by lia. congruence.
  - apply list_find_None in E. rewrite Forall_forall in E.
    destruct (E (descriptor df i s)); [|done].
    apply elem_of_get_df_info. by exists i, s.
Qed.

(** The bounds of a [cap] of the interactive path are those recorded for
    the column when the table was built from the original frame [df],
    whatever frame [current] the entry finds. *)
Lemma cli_cap_uses_diagnostic_bounds (df : DataFrame) (i : nat) (s : Series)
    table suggestion (done_before : list (string * Z)) current log :
  NoDup (columns df) → (0 < nrows df)%nat → cols df !! i = Some s →
  dtype s ∈ ["float64"; "int64"] → (0 < outlier_count s)%nat →
  detect_outliers df (get_df_info df) = Ok (table, suggestion) →
  for_each (outlier_step (get_df_info df) table) done_before (df, []) = Ok (current, log) →
  outlier_step (get_df_info df) table ("cap", Z.of_nat i + 1) (current, log)
  = (df' ← cap_column current (name s)
             (fround2 (iqr_bounds (values s)).1) (fround2 (iqr_bounds (values s)).2);
     mret (df', log ++ log_cap (name s))).
Proof.
  intros Hnd Hrows Hi Hnum Hcount Hdetect _.
  destruct (detect_outliers_lookup df i s Hnd Hrows Hi) as (table' & Hdetect' & _ & Hrow).
  rewrite Hdetect in Hdetect'. injection Hdetect' as -> ->.
  destruct (Hrow Hnum Hcount) as (Hrow' & _).
  unfold outlier_step. rewrite (info_row_get_df_info df i s Hi), bind_Ok.
  rewrite Hrow', bind_Ok. done.
Qed.

Lemma api_cap_uses_current_bounds cols cid col current logs s :
  1 ≤ cid → cols !! Z.to_nat (cid - 1) = Some col →
  getitem current col = Ok s → is_numeric_dtype (dtype s) = true →
  api_outliers_step cols ("cap", cid) (current, logs)
  = Ok (setitem current col (dtype s)
          (clip (iqr_bounds (values s)).1 (iqr_bounds (values s)).2 (values s)),
        logs ++ [api_log_cap col]).
Proof.
  intros Hpos Hcol Hs Hnum. unfold api_outliers_step.
  apply lookup_lt_Some in Hcol as Hlt.
  rewrite bool_decide_eq_true_2 by lia. simpl. rewrite Hcol, Hs, bind_Ok, Hnum. simpl.
  destruct (iqr_bounds (values s)) as [lo hi]. simpl.
  unfold cap_column. by rewrite Hs.
Qed.




(** ** The session store and the endpoints that drop columns *)

Lemma names_of_ids_omap cols ids :
  names_of_ids cols ids
  = Ok (omap (λ cid, if in_range cid (length cols) then cols !! Z.to_nat (cid - 1) else None)
          ids).
Proof.
  unfold names_of_ids.
  set (g := λ cid, if in_range cid (length cols) then cols !! Z.to_nat (cid - 1) else None).
  set (f := λ (cid : Z) (acc : list string), _).
  enough (∀ acc, for_each f ids acc = Ok (acc ++ omap g ids)) as H by apply H.
  induction ids as [|cid ids IH]; intros acc.
  - simpl. by rewrite app_nil_r.
  - rewrite for_each_cons. cbn [omap list_omap].
    assert (f cid acc = Ok (acc ++ option_list (g cid))) as ->.
    { subst f g. cbn beta. unfold in_range. case_bool_decide as Hr.
      - destruct (lookup_lt_is_Some_2 cols (Z.to_nat (cid - 1))) as [col ->]; [lia|done].
      - cbn. by rewrite app_nil_r. }
    rewrite bind_Ok, IH. destruct (g cid); cbn; [|by rewrite app_nil_r].
    by rewrite <- app_assoc.
Qed.

Lemma elem_of_names_of_ids cols ids names col :
  names_of_ids cols ids = Ok names →
  col ∈ names ↔ ∃ cid, cid ∈ ids ∧ 1 ≤ cid ∧ cols !! Z.to_nat (cid - 1) = Some col.
Proof.
  rewrite names_of_ids_omap. intros [= <-]. rewrite list_elem_of_omap. split.
  - intros (cid & Hin & Hc). exists cid. unfold in_range in Hc.
    case_bool_decide; [|done]. split_and!; [done|lia|done].
  - intros (cid & Hin & H1 & Hc). exists cid. split; [done|]. unfold in_range.
    rewrite bool_decide_true; [done|]. apply lookup_lt_Some in Hc. lia.
Qed.

Lemma names_of_ids_subseteq cols ids names :
  names_of_ids cols ids = Ok names → Forall (λ n, n ∈ cols) names.
Proof.
  intros H. apply Forall_forall. intros col Hcol.
  apply (elem_of_names_of_ids _ _ _ _ H) in Hcol as (cid & _ & _ & Hc).
  by eapply list_elem_of_lookup_2.
Qed.

Lemma name_at_position df i s cid :
  NoDup (columns df) → cols df !! i = Some s → 1 ≤ cid →
  columns df !! Z.to_nat (cid - 1) = Some (name s) ↔ cid = Z.of_nat i + 1.
Proof.
  intros Hnd Hs H1. assert (columns df !! i = Some (name s)) as Hi.
  { unfold columns. by rewrite list_lookup_fmap, Hs. }
  split.
  - intros Hc. pose proof (NoDup_lookup _ _ _ _ Hnd Hc Hi). lia.
  - intros ->. by replace (Z.to_nat (Z.of_nat i + 1 - 1)) with i by lia.
Qed.

Lemma load_df_Some store session_id df :
  SESSION_DATA store !! session_id = Some df → _load_df store session_id = Reply df.
Proof. unfold _load_df. by intros ->. Qed.

Lemma load_df_saved store session_id df step lines :
  _load_df (_log (_save_df store session_id df) session_id step lines) session_id
  = Reply df.
Proof. apply load_df_Some. cbn. by rewrite lookup_insert_eq. Qed.

(** X1 ([_log], [get_logs]): the entries logged for a session are kept in
    the order they were logged, after the entries the session already had;
    logging for one session changes neither the log of another session nor
    any stored frame. *)
Theorem logs_accumulate_in_order (store : Store) (session_id : string)
    (entries : list (string * list string)) :
  let store' := foldl (λ st e, _log st session_id e.1 e.2) store entries in
  get_logs store' session_id = get_logs store session_id ++ entries
  ∧ (∀ other, other ≠ session_id → get_logs store' other = get_logs store other)
  ∧ SESSION_DATA store' = SESSION_DATA store.
Proof.
  revert store. induction entries as [|[step lines] entries IH]; intros store; cbn [foldl].
  - by rewrite app_nil_r.
  - destruct (IH (_log store session_id step lines)) as (IH1 & IH2 & IH3). cbn [fst snd].
    split_and!.
    + rewrite IH1. unfold get_logs, _log. cbn [SESSION_LOGS].
      rewrite lookup_insert_eq. cbn. by rewrite <- app_assoc.
    + intros other Hne. rewrite IH2 by done. unfold get_logs, _log. cbn [SESSION_LOGS].
      by rewrite lookup_insert_ne.
    + by rewrite IH3.
Qed.


Section DropEndpointFacts.
Variable repr : list string → string.
Variable pearson : list cell → list cell → float.

(** X3 ([api_drop_columns]): for a stored frame with distinct column
    names the endpoint never fails; it keeps, in their order, exactly the
    columns whose 1-based position is not among [column_ids], ids outside
    [1, N] being ignored; the rows and the other sessions are untouched,
    and when no id is in range the store is left as it was. *)
Theorem api_drop_columns_by_position (store : Store) (session_id : string)
    (df : DataFrame) (column_ids : list Z) :
  SESSION_DATA store !! session_id = Some df →
  NoDup (columns df) →
  ∃ df' store',
    api_drop_columns repr store session_id column_ids = (Reply (get_df_info df'), store')
    ∧ nrows df' = nrows df
    ∧ sublist (cols df') (cols df)
    ∧ (∀ i s, cols df !! i = Some s → s ∈ cols df' ↔ Z.of_nat i + 1 ∉ column_ids)
    ∧ _load_df store' session_id = Reply df'
    ∧ (∀ other, other ≠ session_id →
         _load_df store' other = _load_df store other
         ∧ get_logs store' other = get_logs store other)
    ∧ ((∀ cid, cid ∈ column_ids → ¬ 1 ≤ cid ≤ Z.of_nat (length (columns df))) →
       store' = store ∧ df' = df).
Proof.
  intros Hdf Hnd. unfold api_drop_columns, _load_df. rewrite Hdf.
  destruct (names_of_ids (columns df) column_ids) as [names|e] eqn:Hnames;
    [|by rewrite names_of_ids_omap in Hnames].
  pose proof (λ col, elem_of_names_of_ids _ _ _ col Hnames) as Hin.
  assert (∀ i s, cols df !! i = Some s → name s ∈ names ↔ Z.of_nat i + 1 ∈ column_ids)
    as Hpos.
  { intros i s Hs. rewrite Hin. split.
    - intros (cid & Hc & H1 & Hl). by apply (name_at_position df i s cid) in Hl as <-.
    - intros Hc. exists (Z.of_nat i + 1). split_and!; [done|lia|].
      apply (name_at_position df i s); [done|done|lia|done]. }
  destruct names as [|n names].
  - exists df, store. split_and!; try done.
    + intros i s Hs. rewrite <- (Hpos i s Hs). split; [intros _; apply not_elem_of_nil|].
      intros _. by eapply list_elem_of_lookup_2.
    + by rewrite Hdf.
  - unfold df_drop. rewrite bool_decide_true by by apply names_of_ids_subseteq in Hnames.
    eexists _, _. split; [done|]. cbn [nrows cols]. split_and!.
    + done.
    + apply sublist_filter.
    + intros i s Hs. rewrite list_elem_of_filter, <- (Hpos i s Hs).
      split; [by intros [? _]|]. intros Hn. split; [done|]. by eapply list_elem_of_lookup_2.
    + unfold _load_df, _log, _save_df. cbn [SESSION_DATA]. by rewrite lookup_insert_eq.
    + intros other Hne. unfold _load_df, get_logs, _log, _save_df.
      cbn [SESSION_DATA SESSION_LOGS]. by rewrite !lookup_insert_ne.
    + intros Hout. exfalso.
      destruct (proj1 (Hin n)) as (cid & Hc & H1 & Hl); [apply list_elem_of_here|].
      apply (Hout cid Hc). apply lookup_lt_Some in Hl. lia.
Qed.
End DropEndpointFacts.

Lemma api_drop_columns_by_position_witness :
  ∃ df' store',
    api_drop_columns repr_names store_abc "s1" [2; 7] = (Reply (get_df_info df'), store')
    ∧ nrows df' = 3%nat
    ∧ _load_df store' "s1" = Reply df'.
Proof.
  destruct (api_drop_columns_by_position repr_names store_abc "s1" frame_abc [2; 7])
    as (df' & store' & H1 & H2 & _ & _ & H5 & _).
  - by vm_compute.
  - compute_done.
  - by exists df', store'.
Defined.

(** ** Dropping the flagged columns *)

Lemma filter_lookup_lt {A} (P : A → Prop) `{∀ x, Decision (P x)} (l : list A) r c x y :
  filter P l !! r = Some x → filter P l !! c = Some y → (r < c)%nat →
  ∃ r' c', (r' < c')%nat ∧ l !! r' = Some x ∧ l !! c' = Some y.
Proof.
  revert r c. induction l as [|a l IH]; intros r c Hr Hc Hlt; [done|].
  rewrite filter_cons in Hr, Hc. destruct (decide (P a)).
  - destruct c as [|c]; [lia|]. destruct r as [|r].
    + injection Hr as ->. simpl in Hc.
      apply list_elem_of_lookup_2, list_elem_of_filter in Hc as [_ Hc].
      apply list_elem_of_lookup_1 in Hc as [c' Hc']. exists 0%nat, (S c'). split; [lia|done].
    + destruct (IH r c Hr Hc) as (r' & c' & ? & ? & ?); [lia|].
      exists (S r'), (S c'). split; [lia|done].
  - destruct (IH r c Hr Hc Hlt) as (r' & c' & ? & ? & ?).
    exists (S r'), (S c'). split; [lia|done].
Qed.

Lemma numeric_series_drop df names df' :
  df_drop df names = Ok df' →
  numeric_series df' = filter (λ s, name s ∉ names) (numeric_series df).
Proof.
  unfold df_drop. case_bool_decide; [|done]. intros [= <-]. unfold numeric_series.
  cbn [cols]. rewrite !list_filter_filter. apply list_filter_iff. tauto.
Qed.

Section CorrelationDrop.
Variable repr : list string → string.
Variable pearson : list cell → list cell → float.

Lemma api_high_corr_cols_eq df threshold :
  api_high_corr_cols pearson df threshold
  = if bool_decide (length (numeric_series df) < 2)%nat then None
    else Some (high_corr_cols pearson (numeric_series df) threshold).
Proof.
  unfold api_high_corr_cols, high_corr_cols. case_bool_decide; [done|].
  do 2 f_equal. apply list_filter_iff. intros p. apply existsb_upper.
Qed.

Lemma high_corr_cols_subseteq df threshold :
  Forall (λ n, n ∈ columns df) (high_corr_cols pearson (numeric_series df) threshold).
Proof.
  apply Forall_forall. intros nm Hnm.
  apply elem_of_high_corr_cols in Hnm as (c & s & Hs & <- & _).
  apply list_elem_of_lookup_2, list_elem_of_filter in Hs as [_ Hs].
  unfold columns. apply list_elem_of_fmap. by exists s.
Qed.

(** Once the flagged columns are gone, no column is flagged. *)
Lemma high_corr_cols_after_drop numeric threshold :
  let flagged := high_corr_cols pearson numeric threshold in
  high_corr_cols pearson (filter (λ s, name s ∉ flagged) numeric) threshold = [].
Proof.
  intros flagged. destruct (high_corr_cols _ (filter _ _) _) as [|nm l] eqn:E; [done|].
  exfalso. assert (nm ∈ high_corr_cols pearson (filter (λ s, name s ∉ flagged) numeric)
                     threshold) as Hnm by (rewrite E; apply list_elem_of_here).
  apply elem_of_high_corr_cols in Hnm as (c & s & Hs & _ & Hne).
  apply high_corr_series_nonempty in Hne as (r & Hlt & Hex).
  unfold corr_matrix in Hex. rewrite Hs in Hex.
  destruct (filter _ numeric !! r) as [x|] eqn:Hx; [|by destruct Hex as (? & ? & _)].
  destruct (filter_lookup_lt _ _ _ _ _ _ Hx Hs Hlt) as (r' & c' & Hlt' & Hr' & Hc').
  apply list_elem_of_lookup_2, list_elem_of_filter in Hs as [Hout _]. apply Hout.
  apply elem_of_high_corr_cols. exists c', s. split_and!; [done..|].
  apply high_corr_series_nonempty. exists r'. split; [done|].
  unfold corr_matrix. by rewrite Hr', Hc'.
Qed.

(** X4 ([api_corr]): with [auto_drop] and no plan the endpoint never
    fails on a stored frame; when at least two numeric columns exist and
    some are flagged it drops exactly the flagged columns and replies
    "auto-dropped", otherwise it leaves the store as it is; and asking
    again afterwards finds nothing to drop and changes nothing. *)
Theorem auto_drop_leaves_nothing_flagged (store : Store) (session_id : string)
    (df : DataFrame) (threshold : Q) :
  SESSION_DATA store !! session_id = Some df →
  let flagged := high_corr_cols pearson (numeric_series df) threshold in
  ∃ reply store',
    api_corr repr pearson store session_id threshold None true = (Reply reply, store')
    ∧ ((length (numeric_series df) < 2)%nat → reply = NotEnoughNumeric ∧ store' = store)
    ∧ ((2 ≤ length (numeric_series df))%nat → flagged = [] →
       reply = Detected [] ∧ store' = store)
    ∧ ((2 ≤ length (numeric_series df))%nat → flagged ≠ [] →
       reply = AutoDropped flagged
       ∧ _load_df store' session_id
         = Reply (mkFrame (nrows df) (filter (λ s, name s ∉ flagged) (cols df))))
    ∧ ∃ reply2,
        api_corr repr pearson store' session_id threshold None true = (Reply reply2, store')
        ∧ (reply2 = NotEnoughNumeric ∨ reply2 = Detected []).
Proof.
  intros Hdf flagged. apply load_df_Some in Hdf.
  unfold api_corr at 1. rewrite Hdf, api_high_corr_cols_eq.
  fold flagged. case_bool_decide as Hlen.
  - eexists _, _. split; [done|]. split_and!; [done|lia|lia|].
    exists NotEnoughNumeric. split; [|by left].
    unfold api_corr. rewrite Hdf, api_high_corr_cols_eq.
    by rewrite bool_decide_true.
  - cbn [andb]. case_bool_decide as Hfl.
    + unfold corr_drop. pose proof (high_corr_cols_subseteq df threshold) as Hsub.
      fold flagged in Hsub. destruct (df_drop df flagged) as [df'|e] eqn:Hdrop.
      2: { unfold df_drop in Hdrop. by rewrite bool_decide_true in Hdrop. }
      pose proof (numeric_series_drop _ _ _ Hdrop) as Hnum.
      unfold df_drop in Hdrop. rewrite bool_decide_true in Hdrop by done.
      injection Hdrop as <-. eexists _, _. split; [done|].
      split_and!; [lia|done|by intros _ _; rewrite load_df_saved|].
      unfold api_corr. rewrite load_df_saved, api_high_corr_cols_eq, Hnum.
      case_bool_decide; [by exists NotEnoughNumeric; split; [|left]|].
      pose proof (high_corr_cols_after_drop (numeric_series df) threshold) as Hnone.
      cbv zeta in Hnone. fold flagged in Hnone. rewrite Hnone. cbn.
      exists (Detected []). split; [done|by right].
    + eexists _, _. split; [done|].
      split_and!; [lia|by rewrite Hfl|done|].
      exists (Detected []). split; [|by right].
      unfold api_corr. rewrite Hdf, api_high_corr_cols_eq.
      rewrite bool_decide_false by done. fold flagged. by rewrite Hfl.
Qed.
End CorrelationDrop.

Lemma auto_drop_leaves_nothing_flagged_witness :
  ∃ store',
    api_corr repr_names pearson_one store_dup "s1" (9 # 10) None true
    = (Reply (AutoDropped ["b"]), store')
    ∧ api_corr repr_names pearson_one store' "s1" (9 # 10) None true
      = (Reply NotEnoughNumeric, store').
Proof.
  destruct (auto_drop_leaves_nothing_flagged repr_names pearson_one store_dup "s1"
              frame_dup (9 # 10)) as (reply & store' & H1 & _ & _ & H4 & reply2 & H5 & H6).
  - by vm_compute.
  - exists store'. destruct H4 as [-> Hload]; [simpl; lia|by vm_compute|].
    split; [exact H1|]. rewrite H5. f_equal. f_equal.
    unfold api_corr in H5. rewrite Hload in H5. vm_compute in H5. by injection H5 as <-.
Defined.

(** ** Statistics of a column that holds a value *)

Lemma insert_sorted_ne x l : insert_sorted x l ≠ [].
Proof. destruct l as [|y l]; simpl; [done|]. by destruct (Qle_bool x y). Qed.

Lemma sort_values_ne l : l ≠ [] → sort_values l ≠ [].
Proof. destruct l; [done|]. intros _. simpl. apply insert_sorted_ne. Qed.

Lemma mean_defined vs : numbers vs ≠ [] → ∃ v, mean vs = Some v.
Proof. unfold mean. destruct (numbers vs); [done|]. eauto. Qed.

Lemma median_defined vs : numbers vs ≠ [] → ∃ v, median vs = Some v.
Proof.
  intros H. unfold median, quantile. apply sort_values_ne in H.
  destruct (sort_values _); [done|]. eauto.
Qed.

Lemma cell_eqb_refl c : cell_eqb c c = true.
Proof.
  destruct c; simpl; [done|apply Qeq_bool_refl|by apply bool_decide_eq_true].
Qed.

Lemma cell_eqb_sym a b : cell_eqb a b = true → cell_eqb b a = true.
Proof.
  destruct a, b; simpl; try done.
  - apply Qeq_bool_sym.
  - rewrite !bool_decide_eq_true. congruence.
Qed.

Lemma cell_eqb_trans a b c :
  cell_eqb a b = true → cell_eqb b c = true → cell_eqb a c = true.
Proof.
  destruct a, b, c; simpl; try done.
  - apply Qeq_bool_trans.
  - rewrite !bool_decide_eq_true. congruence.
Qed.

Lemma count_of_eqb u x l : cell_eqb u x = true → count_of u l = count_of x l.
Proof.
  intros H. unfold count_of. f_equal. apply list_filter_iff. intros c. split; intros Hc.
  - eapply cell_eqb_trans; [by apply cell_eqb_sym|done].
  - by eapply cell_eqb_trans.
Qed.

Lemma unique_subseteq vs u : u ∈ unique vs → u ∈ vs.
Proof.
  induction vs as [|v vs IH]; [done|]. simpl. rewrite elem_of_cons, list_elem_of_filter.
  intros [->|[_ H]]; [apply list_elem_of_here|]. by apply list_elem_of_further, IH.
Qed.

Lemma unique_representative x vs : x ∈ vs → ∃ u, u ∈ unique vs ∧ cell_eqb u x = true.
Proof.
  induction vs as [|v vs IH]; [by intros ?%elem_of_nil|].
  rewrite elem_of_cons. simpl. intros [->|Hin].
  - exists v. split; [apply list_elem_of_here|apply cell_eqb_refl].
  - destruct (IH Hin) as (u & Hu & Hux). destruct (cell_eqb v u) eqn:Hvu.
    + exists v. split; [apply list_elem_of_here|by eapply cell_eqb_trans].
    + exists u. split; [|done]. apply list_elem_of_further, list_elem_of_filter. done.
Qed.

Lemma max_attained (l : list nat) : l ≠ [] → foldr Nat.max 0%nat l ∈ l.
Proof.
  induction l as [|n l IH]; [done|]. intros _. simpl. destruct l as [|m l].
  - simpl. rewrite Nat.max_0_r. apply list_elem_of_here.
  - destruct (Nat.max_spec n (foldr Nat.max 0%nat (m :: l))) as [[_ ->]|[_ ->]].
    + by apply list_elem_of_further, IH.
    + apply list_elem_of_here.
Qed.

Lemma elem_of_insert_cell x y l : y ∈ insert_cell x l ↔ y = x ∨ y ∈ l.
Proof.
  induction l as [|z l IH]; simpl.
  - rewrite list_elem_of_singleton. set_solver.
  - destruct (cell_leb x z); rewrite !elem_of_cons; [done|]. rewrite IH. tauto.
Qed.

Lemma elem_of_sorted_cells y l : y ∈ foldr insert_cell [] l ↔ y ∈ l.
Proof.
  induction l as [|z l IH]; simpl; [done|].
  rewrite elem_of_insert_cell, elem_of_cons, IH. tauto.
Qed.

Lemma elem_of_dropna c vs : c ∈ dropna vs ↔ isnull c = false ∧ c ∈ vs.
Proof. unfold dropna. by rewrite list_elem_of_filter. Qed.

Lemma mode_defined vs :
  dropna vs ≠ [] → ∃ m l, mode vs = m :: l ∧ isnull m = false ∧ m ∈ vs.
Proof.
  intros Hne. unfold mode. set (present := dropna vs) in *.
  set (best := foldr Nat.max 0%nat _).
  assert (∃ u, u ∈ unique present ∧ count_of u present = best) as (u & Hu & Hbest).
  { assert (best ∈ (λ v, count_of v present) <$> present) as Hb.
    { apply max_attained. by destruct present. }
    apply list_elem_of_fmap in Hb as (v0 & Hv0 & Hin).
    destruct (unique_representative v0 present Hin) as (u & Hu & Hux).
    exists u. split; [done|]. rewrite Hv0. by apply count_of_eqb. }
  destruct (foldr insert_cell [] _) as [|m l] eqn:E.
  - exfalso. assert (u ∈ @nil cell) as H; [|by apply elem_of_nil in H].
    rewrite <- E. apply elem_of_sorted_cells, list_elem_of_filter. done.
  - exists m, l. split; [done|].
    assert (m ∈ m :: l) as Hm by apply list_elem_of_here.
    rewrite <- E in Hm. apply elem_of_sorted_cells, list_elem_of_filter in Hm as [_ Hm].
    apply unique_subseteq in Hm. by apply elem_of_dropna in Hm as [? ?].
Qed.

Lemma null_count_fillna v vs : isnull v = false → null_count (fillna v vs) = 0%nat.
Proof.
  intros Hv. unfold null_count, fillna. induction vs as [|c vs IH]; [done|].
  rewrite fmap_cons, filter_cons. destruct (isnull c) eqn:Hc.
  - rewrite decide_False; [done|]. by rewrite Hv.
  - rewrite decide_False; [done|]. by rewrite Hc.
Qed.

Lemma fillna_lookup v vs i c :
  vs !! i = Some c → fillna v vs !! i = Some (if isnull c then v else c).
Proof. intros H. unfold fillna. by rewrite list_lookup_fmap, H. Qed.

Lemma fill_value_defined action vs :
  (action = "mean" ∨ action = "median") ∧ numbers vs ≠ []
  ∨ action = "mode" ∧ dropna vs ≠ [] →
  ∃ v, fill_value action vs = Some v ∧ isnull v = false.
Proof.
  unfold fill_value. intros [[[-> | ->] Hn]|[-> Hn]].
  - destruct (mean_defined vs Hn) as [v ->]. by exists (Num v).
  - destruct (median_defined vs Hn) as [v ->]. by exists (Num v).
  - destruct (mode_defined vs Hn) as (m & l & -> & Hm & _). by exists m.
Qed.

Lemma getitem_setitem df col s dt vs :
  getitem df col = Ok s → getitem (setitem df col dt vs) col = Ok (mkSeries col dt vs).
Proof.
  unfold getitem, setitem. cbn [cols].
  destruct (list_find _ (cols df)) as [[i y]|] eqn:E; [|done]. intros _.
  apply list_find_Some in E as (Hi & Hy & _).
  destruct (list_find _ (_ <$> cols df)) as [[j z]|] eqn:E'.
  - apply list_find_Some in E' as (Hj & Hz & _).
    rewrite list_lookup_fmap in Hj. destruct (cols df !! j) as [x|]; [|done].
    injection Hj as <-. by case_bool_decide.
  - apply list_find_None in E'. rewrite Forall_forall in E'.
    exfalso. apply (E' (mkSeries col dt vs)); [|done].
    apply list_elem_of_fmap. exists y. rewrite bool_decide_true by done.
    split; [done|]. by eapply list_elem_of_lookup_2.
Qed.

(** X5 (the fill branches of [api_missing_apply] and [apply_actions]): a
    mean or median fill of a column that holds at least one number, and a
    mode fill of a column that holds at least one value, replace every
    missing cell of the column by the statistic and leave every other cell,
    the length and the dtype of the column as they were; both paths make
    the same change and log the same line. *)
Theorem fill_replaces_every_missing_cell (action col : string) (col_id : Z)
    (st : CliState) (logs : list string) (s : Series) :
  getitem (current_df st) col = Ok s →
  (action = "mean" ∨ action = "median") ∧ numbers (values s) ≠ []
  ∨ action = "mode" ∧ dropna (values s) ≠ [] →
  ∃ v,
    fill_value action (values s) = Some v
    ∧ isnull v = false
    ∧ let filled := fillna v (values s) in
      let df' := setitem (current_df st) col (dtype s) filled in
      api_fill action col (current_df st, logs) = Ok (df', logs ++ [fill_line action col])
      ∧ cli_fill action col_id col st = Ok (with_df st df' (fill_line action col))
      ∧ getitem df' col = Ok (mkSeries col (dtype s) filled)
      ∧ null_count filled = 0%nat
      ∧ length filled = length (values s)
      ∧ ∀ i c, values s !! i = Some c → filled !! i = Some (if isnull c then v else c).
Proof.
  intros Hs Hdef. destruct (fill_value_defined action (values s) Hdef) as (v & Hv & Hnull).
  exists v. split; [done|]. split; [done|]. cbv zeta.
  assert (api_fill action col (current_df st, logs)
          = Ok (setitem (current_df st) col (dtype s) (fillna v (values s)),
                logs ++ [fill_line action col])
          ∧ cli_fill action col_id col st
            = Ok (with_df st (setitem (current_df st) col (dtype s) (fillna v (values s)))
                    (fill_line action col))) as [Hapi Hcli].
  { unfold fill_value in Hv. unfold api_fill, cli_fill, fill_line.
    destruct Hdef as [[[-> | ->] _]|[-> _]]; cbn in Hv |- *; rewrite Hs; cbn.
    - destruct (mean (values s)) as [m|]; [|done]. by injection Hv as <-.
    - destruct (median (values s)) as [m|]; [|done]. by injection Hv as <-.
    - destruct (mode (values s)) as [|m l]; [done|]. by injection Hv as <-. }
  split_and!; [done|done|by eapply getitem_setitem|by apply null_count_fillna| |].
  - unfold fillna. by rewrite length_fmap.
  - intros i c. apply fillna_lookup.
Qed.

Lemma fill_replaces_every_missing_cell_witness :
  let info := get_df_info frame_abc in
  api_fill "mean" "a" (frame_abc, [])
  = Ok (setitem frame_abc "a" "float64" [Num 1; Num 2; Num 3], [log_fillna "a" "mean()"])
  ∧ cli_fill "mean" 1 "a" (mkCli frame_abc info info true [] [])
    = Ok (mkCli (setitem frame_abc "a" "float64" [Num 1; Num 2; Num 3]) info info true
            [log_fillna "a" "mean()"] []).
Proof.
  intros info.
  destruct (fill_replaces_every_missing_cell "mean" "a" 1
              (mkCli frame_abc info info true [] []) []
              (mkSeries "a" "float64" [Num 1; NA; Num 3]))
    as (v & Hv & _ & Hapi & Hcli & _).
  - by vm_compute.
  - left. split; [by left|by vm_compute].
  - vm_compute in Hv. injection Hv as <-. split; [exact Hapi|exact Hcli].
Defined.

(** ** An entry for a column that the batch has dropped *)

Lemma getitem_absent df col : col ∉ columns df → getitem df col = Raise KeyError.
Proof.
  intros Hout. unfold getitem. destruct (list_find _ (cols df)) as [[i s]|] eqn:E; [|done].
  apply list_find_Some in E as (Hi & Hs & _). exfalso. apply Hout. unfold columns.
  apply list_elem_of_fmap. exists s. split; [done|]. by eapply list_elem_of_lookup_2.
Qed.

Lemma getitem_present df col : col ∈ columns df → ∃ s, getitem df col = Ok s ∧ s ∈ cols df.
Proof.
  intros Hin. unfold getitem. destruct (list_find _ (cols df)) as [[i s]|] eqn:E.
  - apply list_find_Some in E as (Hi & _). exists s. split; [done|].
    by eapply list_elem_of_lookup_2.
  - apply list_find_None in E. rewrite Forall_forall in E.
    apply list_elem_of_fmap in Hin as (s & -> & Hs). by destruct (E s Hs).
Qed.

Lemma getitem_Ok df col s : getitem df col = Ok s → s ∈ cols df ∧ name s = col.
Proof.
  unfold getitem. destruct (list_find _ (cols df)) as [[i y]|] eqn:E; [|done].
  intros [= ->]. apply list_find_Some in E as (Hi & Hs & _).
  split; [by eapply list_elem_of_lookup_2|done].
Qed.

Lemma df_drop_absent df col df' : df_drop df [col] = Ok df' → col ∉ columns df'.
Proof.
  unfold df_drop. case_bool_decide; [|done]. intros [= <-]. unfold columns. cbn [cols].
  intros Hin. apply list_elem_of_fmap in Hin as (s & -> & Hs).
  apply list_elem_of_filter in Hs as [Hs _]. apply Hs, list_elem_of_here.
Qed.

Section AbortFacts.
Variable to_numeric : list cell → option (string * list cell).
Variable is_object_dtype : string → bool.
Variable isinstance_CategoricalDtype : string → bool.

#[local] Abbreviation api_step := (api_missing_step to_numeric).
#[local] Abbreviation cli_step' :=
  (cli_step to_numeric is_object_dtype isinstance_CategoricalDtype).

End AbortFacts.


(** ** Capping a column and removing rows *)

Lemma Qlt_bool_false_iff x y : Qlt_bool x y = false ↔ (y <= x)%Q.
Proof.
  unfold Qlt_bool. rewrite negb_false_iff. apply Qle_bool_iff.
Qed.

Lemma clip_num l h x :
  (l <= h)%Q →
  ∃ y, clip_cell (Some l) (Some h) (Num x) = Num y
    ∧ (l <= y <= h)%Q
    ∧ ((l <= x <= h)%Q → y = x)
    ∧ ((x < l)%Q → y = l)
    ∧ ((h < x)%Q → y = h).
Proof.
  intros Hlh. cbn [clip_cell].
  destruct (Qlt_bool x l) eqn:E1; [apply Qlt_bool_iff in E1|apply Qlt_bool_false_iff in E1].
  - destruct (Qlt_bool h l) eqn:E2; [apply Qlt_bool_iff in E2; lra|].
    exists l. split; [done|]. split_and!; (done || lra).
  - destruct (Qlt_bool h x) eqn:E2;
      [apply Qlt_bool_iff in E2|apply Qlt_bool_false_iff in E2].
    + exists h. split; [done|]. split_and!; (done || lra).
    + exists x. split; [done|]. split_and!; (done || lra).
Qed.

Lemma clip_cell_idemp l h c :
  (l <= h)%Q →
  clip_cell (Some l) (Some h) (clip_cell (Some l) (Some h) c) = clip_cell (Some l) (Some h) c.
Proof.
  intros Hlh. destruct c as [|x|t]; [done| |done].
  destruct (clip_num l h x Hlh) as (y & -> & Hy & _).
  destruct (clip_num l h y Hlh) as (y' & -> & _ & Hy' & _). by rewrite Hy'.
Qed.

Lemma columns_setitem df col dt vs : columns (setitem df col dt vs) = columns df.
Proof.
  unfold columns, setitem. cbn [cols]. rewrite <- list_fmap_compose.
  apply list_fmap_ext. intros i s _. cbn. by case_bool_decide.
Qed.

Lemma setitem_setitem df col dt vs dt' vs' :
  setitem (setitem df col dt vs) col dt' vs' = setitem df col dt' vs'.
Proof.
  unfold setitem. cbn [cols nrows]. f_equal. rewrite <- list_fmap_compose.
  apply list_fmap_ext. intros i s _. unfold compose.
  destruct (decide (name s = col)) as [Hs|Hs].
  - rewrite !(bool_decide_true (name s = col)) by done. cbn [name].
    by rewrite bool_decide_true.
  - by rewrite !(bool_decide_false (name s = col)) by done.
Qed.

(** X7 (the [cap] branch of [apply_outlier_logic] and [api_outliers_apply]):
    clipping a column to bounds [l <= h] succeeds whenever the column
    exists; it keeps the rows, the column names and every other column;
    every number of the column ends within [l, h], a number already within
    the bounds is unchanged and one outside becomes the nearer bound;
    missing cells stay missing; clipping again with the same bounds
    changes nothing. *)
Theorem cap_clips_into_bounds (df : DataFrame) (col : string) (l h : Q) (s : Series) :
  getitem df col = Ok s →
  (l <= h)%Q →
  let capped := clip (Some l) (Some h) (values s) in
  let df' := setitem df col (dtype s) capped in
  cap_column df col (Some l) (Some h) = Ok df'
  ∧ nrows df' = nrows df
  ∧ columns df' = columns df
  ∧ (∀ s0, s0 ∈ cols df → name s0 ≠ col → s0 ∈ cols df')
  ∧ getitem df' col = Ok (mkSeries col (dtype s) capped)
  ∧ length capped = length (values s)
  ∧ (∀ i, values s !! i = Some NA → capped !! i = Some NA)
  ∧ (∀ i x, values s !! i = Some (Num x) →
       ∃ y, capped !! i = Some (Num y)
         ∧ (l <= y <= h)%Q
         ∧ ((l <= x <= h)%Q → y = x)
         ∧ ((x < l)%Q → y = l)
         ∧ ((h < x)%Q → y = h))
  ∧ cap_column df' col (Some l) (Some h) = Ok df'.
Proof.
  intros Hs Hlh capped df'. unfold cap_column. rewrite Hs, bind_Ok.
  assert (getitem df' col = Ok (mkSeries col (dtype s) capped)) as Hs'
    by by eapply getitem_setitem.
  split_and!; try done.
  - apply columns_setitem.
  - intros s0 Hin Hne. by apply setitem_other.
  - unfold capped, clip. by rewrite length_fmap.
  - intros i Hi. unfold capped, clip. by rewrite list_lookup_fmap, Hi.
  - intros i x Hi. destruct (clip_num l h x Hlh) as (y & Hy & Hrest).
    exists y. split; [|done]. unfold capped, clip. by rewrite list_lookup_fmap, Hi, <- Hy.
  - rewrite Hs', bind_Ok. unfold mret, result_ret. f_equal. unfold df'.
    rewrite setitem_setitem. cbn [dtype values]. f_equal. unfold capped, clip.
    rewrite <- list_fmap_compose. apply list_fmap_ext. intros i c _. cbn.
    by apply clip_cell_idemp.
Qed.

Lemma cap_clips_into_bounds_witness :
  cap_column frame_outlier "x" (Some (-3 # 2)%Q) (Some (17 # 2)%Q)
  = Ok (mkFrame 6 [ mkSeries "x" "int64" [Num 1; Num 2; Num 3; Num 4; Num 5; Num (17 # 2)] ]).
Proof.
  destruct (cap_clips_into_bounds frame_outlier "x" (-3 # 2) (17 # 2)
              (ints "int64" "x" [1; 2; 3; 4; 5; 100])) as [H _].
  - by vm_compute.
  - by vm_compute.
  - rewrite H. by vm_compute.
Defined.

Lemma select_rows_fmap {A} (f : A → bool) (l : list A) :
  select_rows (f <$> l) l = filter (λ c, f c = true) l.
Proof.
  induction l as [|x l IH]; [done|]. cbn [fmap list_fmap select_rows].
  rewrite filter_cons. fold (fmap f l). rewrite IH.
  destruct (f x) eqn:E; [by rewrite decide_True|by rewrite decide_False].
Qed.

Lemma count_true_fmap {A} (f : A → bool) (l : list A) :
  length (filter (λ b, b = true) (f <$> l)) = length (filter (λ c, f c = true) l).
Proof.
  induction l as [|x l IH]; [done|]. rewrite fmap_cons, !filter_cons.
  destruct (f x) eqn:E.
  - rewrite !decide_True by done. cbn. by rewrite IH.
  - rewrite !decide_False by done. done.
Qed.

Lemma length_select_rows {A} (mask : list bool) (l : list A) :
  length mask = length l →
  length (select_rows mask l) = length (filter (λ b, b = true) mask).
Proof.
  revert l. induction mask as [|b mask IH]; intros [|x l]; try done.
  intros [= H]. cbn [select_rows]. rewrite filter_cons. destruct b.
  - rewrite decide_True by done. cbn. by rewrite IH.
  - rewrite decide_False by done. by apply IH.
Qed.

Lemma select_rows_all_true {A} (mask : list bool) (l : list A) :
  Forall (λ b, b = true) mask → length mask = length l → select_rows mask l = l.
Proof.
  revert l. induction mask as [|b mask IH]; intros [|x l]; try done.
  intros [-> Hm]%Forall_cons [= H]. cbn. by rewrite IH.
Qed.

Lemma select_rows_all_false {A} (mask : list bool) (l : list A) :
  Forall (λ b, b = false) mask → select_rows mask l = [].
Proof.
  revert l. induction mask as [|b mask IH]; intros l; [by destruct l|].
  intros [-> Hm]%Forall_cons. destruct l; [done|]. cbn. by apply IH.
Qed.

Lemma filter_all_true (mask : list bool) :
  Forall (λ b, b = true) mask → filter (λ b, b = true) mask = mask.
Proof.
  induction 1 as [|b mask Hb _ IH]; [done|]. rewrite filter_cons, decide_True by done.
  by rewrite IH.
Qed.

Lemma filter_all_false (mask : list bool) :
  Forall (λ b, b = false) mask → filter (λ b, b = true) mask = [].
Proof.
  induction 1 as [|b mask Hb _ IH]; [done|]. rewrite filter_cons, decide_False; [done|].
  by rewrite Hb.
Qed.

Lemma columns_filter_rows df mask : columns (filter_rows df mask) = columns df.
Proof.
  unfold columns, filter_rows. cbn [cols]. rewrite <- list_fmap_compose.
  by apply list_fmap_ext.
Qed.

Lemma getitem_filter_rows df mask col s :
  getitem df col = Ok s →
  getitem (filter_rows df mask) col
  = Ok (mkSeries (name s) (dtype s) (select_rows mask (values s))).
Proof.
  unfold getitem, filter_rows. cbn [cols]. rewrite list_find_fmap.
  change (list_find (_ ∘ _) (cols df)) with (list_find (λ s, name s = col) (cols df)).
  destruct (list_find _ (cols df)) as [[i y]|]; [|done]. by intros [= ->].
Qed.

Lemma nrows_filter_rows_le df mask : (nrows (filter_rows df mask) ≤ nrows df)%nat.
Proof.
  unfold filter_rows. cbn [nrows].
  etrans; [apply length_filter|]. rewrite length_take. lia.
Qed.

Lemma aligned_filter_rows df mask :
  aligned df → length mask = nrows df → aligned (filter_rows df mask).
Proof.
  unfold aligned, filter_rows. cbn [cols nrows]. intros Hal Hm.
  rewrite Forall_fmap. eapply Forall_impl; [exact Hal|]. intros s0 Hs0. cbn.
  rewrite length_select_rows by congruence. by rewrite take_ge by lia.
Qed.

Lemma aligned_setitem df col dt vs :
  aligned df → length vs = nrows df → aligned (setitem df col dt vs).
Proof.
  unfold aligned, setitem. cbn [cols nrows]. intros Hal Hvs.
  rewrite Forall_fmap. eapply Forall_impl; [exact Hal|]. intros s0 Hs0. cbn.
  by case_bool_decide.
Qed.

Lemma aligned_elem_of df s : aligned df → s ∈ cols df → length (values s) = nrows df.
Proof. unfold aligned. rewrite Forall_forall. auto. Qed.

Lemma within_not_null lo hi c : within lo hi c = true → isnull c = false.
Proof. by destruct c. Qed.

Lemma within_no_number lo hi vs :
  numbers vs = [] → Forall (λ b, b = false) (within lo hi <$> vs).
Proof.
  unfold numbers. intros Hn. rewrite Forall_fmap. apply Forall_forall. intros c Hc. cbn.
  destruct c as [|x|t]; [done| |done].
  assert (x ∈ omap as_float vs) as Hx by (apply list_elem_of_omap; by exists (Num x)).
  rewrite Hn in Hx. by apply elem_of_nil in Hx.
Qed.

(** X8 (the [remove_rows] branch of [apply_outlier_logic] and
    [api_outliers_apply]): on a frame whose columns have one cell per row,
    removing the rows outside the bounds of a column keeps the column names
    and the alignment of the columns; the rows kept are exactly those whose
    cell in that column is a number within the bounds, so the rows in which
    the column is missing are removed as well, and a column without any
    number loses every row; removing again with the same bounds changes
    nothing. *)
Theorem remove_rows_keeps_rows_within_bounds (df : DataFrame) (col : string)
    (lo hi : float) (s : Series) :
  aligned df →
  getitem df col = Ok s →
  let kept := filter (λ c, within lo hi c = true) (values s) in
  let df' := filter_rows df (within lo hi <$> values s) in
  remove_rows_of df col lo hi = Ok df'
  ∧ aligned df'
  ∧ columns df' = columns df
  ∧ nrows df' = length kept
  ∧ (nrows df' ≤ nrows df)%nat
  ∧ getitem df' col = Ok (mkSeries (name s) (dtype s) kept)
  ∧ null_count kept = 0%nat
  ∧ (numbers (values s) = [] → nrows df' = 0%nat)
  ∧ remove_rows_of df' col lo hi = Ok df'.
Proof.
  intros Hal Hs kept df'. unfold remove_rows_of. rewrite Hs, bind_Ok.
  pose proof (getitem_Ok _ _ _ Hs) as [Hin _].
  pose proof (aligned_elem_of _ _ Hal Hin) as Hlen.
  assert (nrows df' = length kept) as Hn.
  { unfold df', filter_rows, kept. cbn [nrows].
    rewrite take_ge by (rewrite length_fmap; lia). apply count_true_fmap. }
  assert (aligned df') as Hal'.
  { apply aligned_filter_rows; [done|]. by rewrite length_fmap. }
  assert (getitem df' col = Ok (mkSeries (name s) (dtype s) kept)) as Hs'.
  { unfold df'. rewrite (getitem_filter_rows _ _ _ _ Hs). by rewrite select_rows_fmap. }
  assert (Forall (λ b, b = true) (within lo hi <$> kept)) as Htrue.
  { rewrite Forall_fmap. apply Forall_forall. intros c Hc.
    by apply list_elem_of_filter in Hc as [? _]. }
  split_and!; try done.
  - apply columns_filter_rows.
  - apply nrows_filter_rows_le.
  - unfold null_count. destruct (filter _ kept) as [|c l] eqn:E; [done|]. exfalso.
    assert (c ∈ filter (λ c, isnull c = true) kept) as Hc by (rewrite E; apply list_elem_of_here).
    apply list_elem_of_filter in Hc as [Hnull Hc].
    apply list_elem_of_filter in Hc as [Hw _]. apply within_not_null in Hw. congruence.
  - intros Hnum. rewrite Hn. unfold kept. rewrite <- count_true_fmap.
    by rewrite filter_all_false by by apply within_no_number.
  - rewrite Hs', bind_Ok. cbn [values]. unfold mret, result_ret. f_equal.
    destruct df' as [n' cols'] eqn:Edf. unfold filter_rows. cbn [nrows cols] in *. f_equal.
    + rewrite take_ge by (rewrite length_fmap; lia).
      rewrite filter_all_true by done. rewrite length_fmap. lia.
    + rewrite <- (list_fmap_id cols') at 2. apply list_fmap_ext. intros i s0 Hs0.
      rewrite select_rows_all_true; [by destruct s0|done|].
      rewrite length_fmap. symmetry. rewrite <- Hn.
      apply (aligned_elem_of (mkFrame n' cols')); [done|]. by eapply list_elem_of_lookup_2.
Qed.

Lemma remove_rows_keeps_rows_within_bounds_witness :
  remove_rows_of frame_abc "a" (Some 0%Q) (Some 2%Q)
  = Ok (mkFrame 1 [ mkSeries "a" "float64" [Num 1];
                    mkSeries "b" "object" [Str "x"];
                    mkSeries "c" "object" [NA] ]).
Proof.
  destruct (remove_rows_keeps_rows_within_bounds frame_abc "a" (Some 0%Q) (Some 2%Q)
              (mkSeries "a" "float64" [Num 1; NA; Num 3])) as [H _].
  - unfold aligned. cbn. repeat constructor.
  - by vm_compute.
  - rewrite H. by vm_compute.
Defined.

(** ** What an outlier batch keeps *)

Lemma cap_column_invariant df col lo hi df' :
  cap_column df col lo hi = Ok df' →
  columns df' = columns df ∧ nrows df' = nrows df ∧ (aligned df → aligned df').
Proof.
  unfold cap_column. destruct (getitem df col) as [s|] eqn:Hs; [|done]. intros [= <-].
  split_and!; [apply columns_setitem|done|]. intros Hal. apply aligned_setitem; [done|].
  unfold clip. rewrite length_fmap. apply aligned_elem_of; [done|].
  by apply getitem_Ok in Hs as [? _].
Qed.

Lemma remove_rows_of_invariant df col lo hi df' :
  remove_rows_of df col lo hi = Ok df' →
  columns df' = columns df ∧ (nrows df' ≤ nrows df)%nat ∧ (aligned df → aligned df').
Proof.
  unfold remove_rows_of. destruct (getitem df col) as [s|] eqn:Hs; [|done]. intros [= <-].
  split_and!; [apply columns_filter_rows|apply nrows_filter_rows_le|].
  intros Hal. apply aligned_filter_rows; [done|]. rewrite length_fmap.
  apply aligned_elem_of; [done|]. by apply getitem_Ok in Hs as [? _].
Qed.

Lemma api_outliers_step_invariant cols e df logs :
  columns df = cols →
  ∃ df' logs',
    api_outliers_step cols e (df, logs) = Ok (df', logs')
    ∧ columns df' = cols
    ∧ (nrows df' ≤ nrows df)%nat
    ∧ (aligned df → aligned df')
    ∧ (e.1 ≠ "remove_rows" → nrows df' = nrows df).
Proof.
  intros Hcols. destruct e as [action cid]. unfold api_outliers_step.
  case_bool_decide as Hr; cbn [negb]; [|by eexists _, _].
  destruct (lookup_lt_is_Some_2 cols (Z.to_nat (cid - 1))) as [col Hcol]; [lia|].
  rewrite Hcol. destruct (getitem_present df col) as (s & Hs & Hin).
  { rewrite Hcols. by eapply list_elem_of_lookup_2. }
  rewrite Hs, bind_Ok. destruct (is_numeric_dtype (dtype s)); cbn [negb]; [|by eexists _, _].
  destruct (iqr_bounds (values s)) as [lo hi]. case_bool_decide as Hcap.
  - unfold cap_column at 1. rewrite Hs, !bind_Ok. eexists _, _. split; [done|].
    edestruct (cap_column_invariant df col lo hi) as (H1 & H2 & H3).
    { unfold cap_column. by rewrite Hs. }
    rewrite H1, H2. done.
  - case_bool_decide as Hrem; [|by eexists _, _].
    unfold remove_rows_of at 1. rewrite Hs, !bind_Ok. eexists _, _. split; [done|].
    edestruct (remove_rows_of_invariant df col lo hi) as (H1 & H2 & H3).
    { unfold remove_rows_of. by rewrite Hs. }
    rewrite H1. done.
Qed.

Lemma outlier_step_invariant info table e df log df' log' :
  outlier_step info table e (df, log) = Ok (df', log') →
  columns df' = columns df
  ∧ (nrows df' ≤ nrows df)%nat
  ∧ (aligned df → aligned df')
  ∧ (e.1 ≠ "remove_rows" → nrows df' = nrows df).
Proof.
  destruct e as [action col_id]. unfold outlier_step.
  destruct (info_row info col_id) as [r|]; [|done]. rewrite bind_Ok.
  destruct (outlier_row table col_id) as [bounds|]; [|done]. rewrite bind_Ok.
  case_bool_decide as Hcap.
  - destruct (cap_column df _ _ _) as [df1|] eqn:E; [|done]. intros [= <- <-].
    apply cap_column_invariant in E as (H1 & H2 & H3). rewrite H2. done.
  - case_bool_decide as Hrem; [|by intros [= <- <-]].
    destruct (remove_rows_of df _ _ _) as [df1|] eqn:E; [|done]. intros [= <- <-].
    apply remove_rows_of_invariant in E as (H1 & H2 & H3). done.
Qed.

Lemma api_outliers_batch_invariant cols es df logs :
  columns df = cols →
  ∃ df' logs',
    for_each (api_outliers_step cols) es (df, logs) = Ok (df', logs')
    ∧ columns df' = cols
    ∧ (nrows df' ≤ nrows df)%nat
    ∧ (aligned df → aligned df')
    ∧ ((∀ e, e ∈ es → e.1 ≠ "remove_rows") → nrows df' = nrows df).
Proof.
  revert df logs. induction es as [|e es IH]; intros df logs Hcols.
  - by exists df, logs.
  - destruct (api_outliers_step_invariant cols e df logs Hcols)
      as (df1 & logs1 & Hstep & Hc1 & Hn1 & Ha1 & He1).
    destruct (IH df1 logs1 Hc1) as (df' & logs' & Hrest & Hc & Hn & Ha & He).
    exists df', logs'. rewrite for_each_cons, Hstep, bind_Ok.
    split_and!; [done|done|lia|by auto|].
    intros Hno. rewrite He, He1; [done|apply Hno, list_elem_of_here|].
    intros e' He'. by apply Hno, list_elem_of_further.
Qed.


(** X10 ([api_outliers_apply]): on the HTTP path a [remove_rows] entry for
    a column of numeric dtype that holds no number (every cell missing)
    takes NaN bounds, against which every comparison is false: the entry
    removes every row of the frame and is logged like any other. *)
Theorem api_remove_rows_without_numbers (df : DataFrame) (cid : Z) (col : string)
    (s : Series) (logs : list string) :
  1 ≤ cid →
  columns df !! Z.to_nat (cid - 1) = Some col →
  getitem df col = Ok s →
  is_numeric_dtype (dtype s) = true →
  numbers (values s) = [] →
  ∃ df',
    api_outliers_step (columns df) ("remove_rows", cid) (df, logs)
    = Ok (df', logs ++ [api_log_remove_rows col])
    ∧ iqr_bounds (values s) = (NaN, NaN)
    ∧ nrows df' = 0%nat
    ∧ columns df' = columns df
    ∧ ∀ s', s' ∈ cols df' → values s' = [].
Proof.
  intros H1 Hcol Hs Hnum Hno. unfold api_outliers_step.
  rewrite bool_decide_true by (apply lookup_lt_Some in Hcol; lia). cbn [negb].
  rewrite Hcol, Hs, bind_Ok, Hnum. cbn [negb].
  assert (iqr_bounds (values s) = (NaN, NaN)) as ->.
  { unfold iqr_bounds, quantile. by rewrite Hno. }
  change (bool_decide ("remove_rows" = "cap")) with false.
  change (bool_decide ("remove_rows" = "remove_rows")) with true. cbv iota.
  unfold remove_rows_of. rewrite Hs, !bind_Ok. eexists. split; [done|].
  pose proof (within_no_number NaN NaN (values s) Hno) as Hfalse.
  split_and!; [done| |apply columns_filter_rows|].
  - unfold filter_rows. cbn [nrows]. rewrite filter_all_false; [done|].
    apply Forall_take. done.
  - intros s' Hs'. unfold filter_rows in Hs'. cbn [cols] in Hs'.
    apply list_elem_of_fmap in Hs' as (s0 & -> & _). cbn [values].
    by apply select_rows_all_false.
Qed.

Lemma api_remove_rows_without_numbers_witness :
  api_outliers_step (columns frame_text) ("remove_rows", 2) (frame_text, [])
  = Ok (mkFrame 0 [ mkSeries "n" "object" []; mkSeries "e" "float64" [];
                    mkSeries "w" "object" [] ],
        [api_log_remove_rows "e"]).
Proof.
  destruct (api_remove_rows_without_numbers frame_text 2 "e"
              (mkSeries "e" "float64" [NA; NA; NA]) []) as (df' & H & _).
  - lia.
  - by vm_compute.
  - by vm_compute.
  - by vm_compute.
  - by vm_compute.
  - rewrite H. vm_compute in H. by injection H as <-.
Defined.

(** ** The replay notebook *)

Lemma append_cons a (s t : string) : String a s +:+ t = String a (s +:+ t).
Proof. done. Qed.

Lemma append_nil (t : string) : "" +:+ t = t.
Proof. done. Qed.

Lemma length_append (s t : string) :
  String.length (s +:+ t) = (String.length s + String.length t)%nat.
Proof.
  induction s as [|a s IH]; [done|]. rewrite append_cons. cbn [String.length].
  by rewrite IH.
Qed.

Lemma append_inj_r (s1 s2 t : string) : s1 +:+ t = s2 +:+ t → s1 = s2.
Proof.
  revert s2. induction s1 as [|a s1 IH]; intros [|b s2] H.
  - done.
  - exfalso. apply (f_equal String.length) in H. rewrite !length_append in H.
    cbn in H. lia.
  - exfalso. apply (f_equal String.length) in H. rewrite !length_append in H.
    cbn in H. lia.
  - rewrite !append_cons in H. injection H as -> H. f_equal. by apply IH.
Qed.

Lemma build_notebook_app cells0 log_steps :
  foldl (λ cells '(step_name, code_lines),
      cells ++ [create_markdown_cell ("### " +:+ step_name)] ++ [create_code_cell code_lines])
    cells0 log_steps
  = cells0 ++ ('(step_name, code_lines) ← log_steps;
               [create_markdown_cell ("### " +:+ step_name); create_code_cell code_lines]).
Proof.
  revert cells0. induction log_steps as [|[nm lines] l IH]; intros cells0; cbn [foldl].
  - by rewrite app_nil_r.
  - rewrite IH. cbn. by rewrite <- !app_assoc.
Qed.

(** X11 ([_build_notebook_structure]): the notebook starts with the
    import cell and then holds, for each logged step in the order of the
    log, a markdown cell with the heading of the step followed by a code
    cell with its lines, each ended by a newline; so it has 1 + 2n cells
    for n steps, and two logs that give the same notebook are the same
    log. *)
Theorem notebook_preserves_the_log (log_steps : list (string * list string)) :
  let cells := _build_notebook_structure log_steps in
  cells !! 0%nat = Some (create_code_cell imports)
  ∧ length cells = (1 + 2 * length log_steps)%nat
  ∧ (∀ i step_name code_lines,
       log_steps !! i = Some (step_name, code_lines) →
       cells !! (2 * i + 1)%nat = Some (markdown_cell ["### " +:+ step_name])
       ∧ cells !! (2 * i + 2)%nat
         = Some (code_cell ((λ line, line +:+ newline) <$> code_lines)))
  ∧ (∀ other, _build_notebook_structure other = cells → other = log_steps).
Proof.
  unfold _build_notebook_structure. rewrite build_notebook_app. cbn [app].
  split; [done|]. split; [|split].
  - cbn [length]. f_equal. induction log_steps as [|[nm lines] l IH]; [done|].
    cbn. rewrite IH. lia.
  - induction log_steps as [|[nm lines] l IH]; intros i step_name code_lines Hi; [done|].
    destruct i as [|i].
    + injection Hi as -> ->. done.
    + destruct (IH i step_name code_lines Hi) as [H1 H2].
      replace (2 * S i + 1)%nat with (S (S (S (2 * i)))) by lia.
      replace (2 * S i + 2)%nat with (S (S (S (S (2 * i))))) by lia.
      replace (2 * i + 1)%nat with (S (2 * i)) in H1 by lia.
      replace (2 * i + 2)%nat with (S (S (2 * i))) in H2 by lia.
      done.
  - intros other. rewrite build_notebook_app. cbn [app]. intros [= H].
    revert other H. induction log_steps as [|[nm lines] l IH]; intros [|[nm' lines'] l'] H;
      try done.
    cbn in H. injection H as Hnm Hlines H. f_equal; [f_equal|by apply IH].
    + by rewrite !append_nil in Hnm.
    + revert lines Hlines. induction lines' as [|x xs IHx]; intros [|y ys] Hl; try done.
      cbn in Hl. injection Hl as Hx Hl. f_equal; [by apply append_inj_r in Hx|by apply IHx].
Qed.

(** ** Dropping columns by id *)

Lemma descriptor_name_inj df i s j sj :
  NoDup (columns df) → cols df !! i = Some s → cols df !! j = Some sj →
  name sj = name s → j = i.
Proof.
  intros Hnd Hi Hj Hn. apply (NoDup_lookup _ _ _ (name s) Hnd).
  - unfold columns. by rewrite list_lookup_fmap, Hj, <- Hn.
  - unfold columns. by rewrite list_lookup_fmap, Hi.
Qed.

Lemma drop_columns_by_id_spec df reply :
  NoDup (columns df) →
  ∃ df',
    drop_columns_by_id df (get_df_info df) reply = Ok df'
    ∧ nrows df' = nrows df
    ∧ sublist (cols df') (cols df)
    ∧ ∀ i s, cols df !! i = Some s → s ∈ cols df' ↔ Z.of_nat i + 1 ∉ default ∅ reply.
Proof.
  intros Hnd.
  assert (∀ i s, cols df !! i = Some s → s ∈ cols df) as Hmem
    by (intros; by eapply list_elem_of_lookup_2).
  assert (length (get_df_info df) = length (cols df)) as Hlen
    by (unfold get_df_info; apply length_imap).
  unfold drop_columns_by_id. case_bool_decide as Hempty.
  { exists df. split_and!; [done..|]. intros i s Hs. exfalso.
    apply lookup_lt_Some in Hs. rewrite <- Hlen, Hempty in Hs. cbn in Hs. lia. }
  destruct reply as [ids|]; cbn [default].
  2: { exists df. split_and!; [done..|]. intros i s Hs. split; [set_solver|eauto]. }
  assert (∀ i s, cols df !! i = Some s →
            Z.of_nat i + 1 ∈ valid_ids ids (get_df_info df) ↔ Z.of_nat i + 1 ∈ ids) as Hvalid.
  { intros i s Hs. unfold valid_ids. rewrite elem_of_filter, Hlen.
    apply lookup_lt_Some in Hs. split; [by intros [_ ?]|]. intros ?. split; [lia|done]. }
  case_bool_decide as Hnone.
  { exists df. split_and!; [done..|]. intros i s Hs. split; [|eauto]. intros _ Hin.
    apply (Hvalid i s Hs) in Hin. rewrite Hnone in Hin. set_solver. }
  unfold df_drop. rewrite bool_decide_true.
  2: { apply Forall_forall. intros nm Hnm. apply list_elem_of_fmap in Hnm as (r & -> & Hr).
       apply list_elem_of_filter in Hr as [_ Hr]. rewrite <- get_df_info_names.
       by apply list_elem_of_fmap_2. }
  eexists. split; [done|]. cbn [nrows cols]. split_and!; [done|apply sublist_filter|].
  intros i s Hs. rewrite list_elem_of_filter, <- (Hvalid i s Hs).
  split.
  - intros [Hout _] Hin. apply Hout. apply list_elem_of_fmap.
    exists (descriptor df i s). split; [done|]. apply list_elem_of_filter. split; [done|].
    apply elem_of_get_df_info. by exists i, s.
  - intros Hout. split; [|eauto]. intros Hin.
    apply list_elem_of_fmap in Hin as (r & Hname & Hr).
    apply list_elem_of_filter in Hr as [Hid Hr].
    apply elem_of_get_df_info in Hr as (j & sj & Hj & ->). cbn in Hname, Hid.
    assert (j = i) as -> by (eapply descriptor_name_inj; eauto). done.
Qed.

(** ** Python strings *)

#[local] Abbreviation blank := (λ a : ascii, isspace a = true).
#[local] Abbreviation solid := (λ a : ascii, isspace a = false).

Lemma chars_app s t : chars (s +:+ t) = chars s ++ chars t.
Proof.
  induction s as [|a s IH]; [done|]. rewrite append_cons. unfold chars in *.
  cbn [String.list_ascii_of_string]. by rewrite IH.
Qed.

Lemma lstrip_blank s : Forall blank s → lstrip s = [].
Proof. induction 1 as [|a s Ha _ IH]; [done|]. cbn. by rewrite Ha. Qed.

Lemma lstrip_nil_inv s : lstrip s = [] → Forall blank s.
Proof.
  induction s as [|a s IH]; [done|]. cbn. destruct (isspace a) eqn:Ha; [|done].
  intros H. constructor; [done|by apply IH].
Qed.

Lemma lstrip_app_blank l s : Forall blank l → lstrip (l ++ s) = lstrip s.
Proof. induction 1 as [|a l Ha _ IH]; [done|]. cbn. by rewrite Ha. Qed.

Lemma lstrip_solid s : Forall solid s → lstrip s = s.
Proof. destruct 1 as [|a s Ha _]; [done|]. cbn. by rewrite Ha. Qed.

Lemma lstrip_suffix s : lstrip s `suffix_of` s.
Proof.
  induction s as [|a s IH]; [done|]. cbn. destruct (isspace a); [|done].
  by apply suffix_cons_r.
Qed.

Lemma elem_of_lstrip a s : a ∈ lstrip s → a ∈ s.
Proof.
  intros Ha. destruct (lstrip_suffix s) as [l Hl]. rewrite Hl. apply elem_of_app. by right.
Qed.

Lemma elem_of_strip a s : a ∈ strip s → a ∈ s.
Proof.
  unfold strip, rstrip. rewrite elem_of_reverse. intros Ha%elem_of_lstrip.
  rewrite elem_of_reverse in Ha. by apply elem_of_lstrip.
Qed.

Lemma strip_blank s : Forall blank s → strip s = [].
Proof. intros H. unfold strip. by rewrite (lstrip_blank s H). Qed.

Lemma strip_nil_inv s : strip s = [] → Forall blank s.
Proof.
  unfold strip, rstrip. intros H. apply (f_equal reverse) in H.
  rewrite reverse_involutive in H. cbn in H. apply lstrip_nil_inv in H.
  rewrite Forall_reverse in H. destruct (lstrip s) as [|a t] eqn:E; [by apply lstrip_nil_inv|].
  exfalso. apply Forall_cons in H as [Ha _]. clear -E Ha.
  induction s as [|b s IH]; [done|]. cbn in E. destruct (isspace b) eqn:Hb; [by apply IH|].
  injection E as -> _. congruence.
Qed.

Lemma strip_pad l s r :
  Forall blank l → Forall blank r → Forall solid s → strip (l ++ s ++ r) = s.
Proof.
  intros Hl Hr Hs. unfold strip, rstrip. rewrite lstrip_app_blank by done.
  destruct s as [|a s].
  - cbn. by rewrite (lstrip_blank r Hr).
  - rewrite <- app_comm_cons. cbn [lstrip]. apply Forall_cons in Hs as Hs'. destruct Hs' as [-> _].
    rewrite app_comm_cons, reverse_app, lstrip_app_blank by by apply Forall_reverse.
    rewrite lstrip_solid by by apply Forall_reverse. apply reverse_involutive.
Qed.

Lemma strip_solid s : Forall solid s → strip s = s.
Proof. intros H. by rewrite <- (strip_pad [] s []) at 2; rewrite ?app_nil_r. Qed.

Lemma split_nonempty sep s : split sep s ≠ [].
Proof.
  destruct s as [|a s]; [done|]. cbn. destruct (decide (a = sep)); [done|].
  by destruct (split sep s).
Qed.

Lemma split_app sep s1 s2 :
  split sep (s1 ++ sep :: s2) = split sep s1 ++ split sep s2.
Proof.
  induction s1 as [|a s1 IH]; cbn.
  - by rewrite decide_True.
  - destruct (decide (a = sep)); [by rewrite IH|]. rewrite IH.
    pose proof (split_nonempty sep s1). by destruct (split sep s1).
Qed.

Lemma split_no_sep sep s : sep ∉ s → split sep s = [s].
Proof.
  induction s as [|a s IH]; [done|]. rewrite not_elem_of_cons. intros [Ha Hs].
  cbn. rewrite decide_False by done. by rewrite IH.
Qed.

Lemma split_pieces sep s w :
  w ∈ split sep s → (sep ∉ w) ∧ ∀ a, a ∈ w → a ∈ s.
Proof.
  revert w. induction s as [|a s IH]; intros w; cbn.
  - rewrite list_elem_of_singleton. intros ->. split; [apply not_elem_of_nil|done].
  - destruct (decide (a = sep)) as [->|Ha].
    + rewrite elem_of_cons.
      intros [->|Hw]; [split; [apply not_elem_of_nil|by intros ? ?%elem_of_nil]|].
      destruct (IH w Hw) as [H1 H2]. split; [done|]. intros b Hb. by apply list_elem_of_further, H2.
    + pose proof (split_nonempty sep s). destruct (split sep s) as [|w0 ws]; [done|].
      rewrite elem_of_cons. intros [->|Hw].
      * destruct (IH w0) as [H1 H2]; [apply list_elem_of_here|]. split.
        -- rewrite not_elem_of_cons. split; [congruence|done].
        -- intros b. rewrite !elem_of_cons. intros [->|Hb]; [by left|right; by apply H2].
      * destruct (IH w) as [H1 H2]; [by apply list_elem_of_further|]. split; [done|].
        intros b Hb. by apply list_elem_of_further, H2.
Qed.

Lemma split_join sep l :
  l ≠ [] → Forall (λ w, sep ∉ w) l → split sep (join sep l) = l.
Proof.
  induction l as [|x l IH]; [done|]. intros _ [Hx Hl]%Forall_cons.
  destruct l as [|y l]; [by apply split_no_sep|].
  cbn [join]. rewrite split_app, split_no_sep by done. cbn. f_equal. by apply IH.
Qed.

Lemma split1_no_sep sep s : sep ∉ s → split1 sep s = [s].
Proof.
  induction s as [|a s IH]; [done|]. rewrite not_elem_of_cons. intros [Ha Hs].
  cbn. rewrite decide_False by done. by rewrite IH.
Qed.

Lemma split1_sep sep s :
  sep ∈ s → ∃ w rest, split1 sep s = [w; rest] ∧ s = w ++ sep :: rest ∧ (sep ∉ w).
Proof.
  induction s as [|a s IH]; [by intros ?%elem_of_nil|]. cbn.
  destruct (decide (a = sep)) as [->|Ha].
  - intros _. exists [], s. split_and!; [done|done|apply not_elem_of_nil].
  - rewrite elem_of_cons. intros [?|Hs]; [done|].
    destruct (IH Hs) as (w & rest & -> & -> & Hw). exists (a :: w), rest.
    split_and!; [done|done|]. rewrite not_elem_of_cons. split; [congruence|done].
Qed.

Lemma digit_of_range a d : digit_of a = Some d → 0 ≤ d ≤ 9.
Proof. unfold digit_of. case_bool_decide; [|done]. intros [= <-]. lia. Qed.

Lemma digits_nonneg acc b s z : 0 ≤ acc → digits acc b s = Some z → 0 ≤ z.
Proof.
  revert acc b. induction s as [|a s IH]; intros acc b Hacc; cbn.
  - destruct b; [by intros [= <-]|done].
  - destruct (digit_of a) as [d|] eqn:Hd.
    + apply digit_of_range in Hd. apply IH. lia.
    + destruct (bool_decide (a = "_"%char) && b); [by apply IH|done].
Qed.

Lemma int_of_str_nonneg s z : "-"%char ∉ s → int_of_str s = Some z → 0 ≤ z.
Proof.
  intros Hs. unfold int_of_str. destruct (strip s) as [|a ds] eqn:E; [done|].
  case_bool_decide; [by apply digits_nonneg|]. case_bool_decide as Hm.
  - exfalso. apply Hs, elem_of_strip. rewrite E, Hm. apply list_elem_of_here.
  - by apply digits_nonneg.
Qed.

Lemma elem_of_range_set a b i : i ∈ range_set a b ↔ a ≤ i ≤ b.
Proof. unfold range_set. rewrite elem_of_list_to_set, elem_of_seqZ. lia. Qed.

Lemma sub_ids_nonneg sub i : i ∈ sub_ids sub → 0 ≤ i.
Proof.
  unfold sub_ids. case_bool_decide as Hdash.
  - destruct (mapM int_of_str (split "-" sub)) as [[|a [|b [|c l]]]|] eqn:E;
      try by intros ?%elem_of_empty.
    rewrite elem_of_range_set. intros [Ha _]. apply mapM_Some in E.
    apply Forall2_cons_inv_r in E as (w & ws & Hw & _ & Hsplit).
    assert ("-"%char ∉ w) as Hno.
    { apply (split_pieces "-" sub). rewrite Hsplit. apply list_elem_of_here. }
    pose proof (int_of_str_nonneg w a Hno Hw). lia.
  - destruct (int_of_str sub) as [z|] eqn:E; [|by intros ?%elem_of_empty].
    rewrite elem_of_singleton. intros ->. by eapply int_of_str_nonneg.
Qed.

Lemma elem_of_foldl_union {A} (f : A → gset Z) (l : list A) (acc : gset Z) i :
  i ∈ foldl (λ ids x, ids ∪ f x) acc l ↔ i ∈ acc ∨ ∃ x, x ∈ l ∧ i ∈ f x.
Proof.
  revert acc. induction l as [|x l IH]; intros acc; cbn [foldl].
  - split; [by left|]. intros [?|(x & Hx & _)]; [done|by apply elem_of_nil in Hx].
  - rewrite IH, elem_of_union. split.
    + intros [[?|?]|(y & Hy & ?)]; [by left|right; exists x|right; exists y].
      * split; [apply list_elem_of_here|done].
      * split; [by apply list_elem_of_further|done].
    + intros [?|(y & Hy & ?)]; [by left; left|]. apply elem_of_cons in Hy as [->|Hy].
      * left. by right.
      * right. by exists y.
Qed.

Lemma elem_of_parse_ids id_part i :
  i ∈ parse_ids id_part ↔ ∃ sub, sub ∈ strip <$> split "," id_part ∧ i ∈ sub_ids sub.
Proof.
  unfold parse_ids. rewrite elem_of_foldl_union. split; [|by right].
  intros [?%elem_of_empty|?]; done.
Qed.

Lemma parse_ids_nonneg id_part i : i ∈ parse_ids id_part → 0 ≤ i.
Proof. rewrite elem_of_parse_ids. intros (sub & _ & H). by eapply sub_ids_nonneg. Qed.

(** ** The plan parsers *)

Lemma dict_get_is_Some {K V} `{EqDecision K} (k : K) (d : dict K V) :
  k ∈ keys d → is_Some (dict_get k d).
Proof.
  induction d as [|[k' v] d IH]; [by intros ?%elem_of_nil|]. cbn.
  destruct (decide (k' = k)); [by eexists|]. rewrite elem_of_cons. intros [?|?]; [done|auto].
Qed.

Lemma plan_parts_blank s : strip s = [] → plan_parts s = [].
Proof.
  intros Hs%strip_nil_inv. unfold plan_parts.
  destruct (filter _ _) as [|p l] eqn:E; [done|]. exfalso.
  assert (p ∈ filter (λ p, p ≠ []) (strip <$> split ";" s)) as Hp
    by (rewrite E; apply list_elem_of_here).
  apply list_elem_of_filter in Hp as [Hne Hp]. apply Hne.
  apply list_elem_of_fmap in Hp as (w & -> & Hw). apply strip_blank.
  apply Forall_forall. intros a Ha. rewrite Forall_forall in Hs. apply Hs.
  by apply (split_pieces ";" s w).
Qed.

Lemma plan_parts_app s1 s2 :
  plan_parts (s1 ++ ";"%char :: s2) = plan_parts s1 ++ plan_parts s2.
Proof. unfold plan_parts. by rewrite split_app, fmap_app, filter_app. Qed.

Section ParsePlan.
Variable actions : list (string * string).

#[local] Abbreviation add_part :=
  (λ (plan : Plan) (part : list ascii),
     match part_entry actions part with
     | Some (a, ids) => dict_set a (default ∅ (dict_get a plan) ∪ ids) plan
     | None => plan
     end).

#[local] Abbreviation has_keys :=
  (λ plan : Plan, ∀ a, a ∈ actions.*2 → is_Some (dict_get a plan)).

Lemma part_entry_action part a ids :
  part_entry actions part = Some (a, ids) → a ∈ actions.*2.
Proof.
  unfold part_entry. destruct (list_find _ actions) as [[j [kw action]]|] eqn:E; [|done].
  destruct (split1 "-" part) as [|w [|rest [|? ?]]]; try done. intros [= <- _].
  apply list_find_Some in E as (Hj & _). apply list_elem_of_fmap. exists (kw, action).
  split; [done|]. by eapply list_elem_of_lookup_2.
Qed.

Lemma parse_part_entry part plan :
  has_keys plan → parse_part actions part plan = Ok (add_part plan part).
Proof.
  intros Hkeys. unfold parse_part. cbn beta.
  destruct (part_entry actions part) as [[a ids]|] eqn:Hentry.
  - pose proof (part_entry_action _ _ _ Hentry) as Ha. unfold part_entry in Hentry.
    destruct (list_find _ actions) as [[j [kw action]]|]; [|done].
    destruct (split1 "-" part) as [|w [|rest [|? ?]]] eqn:Hsplit; try done.
    injection Hentry as -> <-. case_bool_decide as Hdash.
    { rewrite split1_no_sep in Hsplit; done. }
    cbn. destruct (Hkeys a Ha) as [old ->]. done.
  - unfold part_entry in Hentry.
    destruct (list_find _ actions) as [[j [kw action]]|]; [|done].
    case_bool_decide as Hdash; [done|].
    destruct (split1_sep _ _ Hdash) as (w & rest & Hsplit & _). by rewrite Hsplit in Hentry.
Qed.

Lemma add_part_keys part plan :
  has_keys plan → has_keys (add_part plan part) ∧ keys (add_part plan part) = keys plan.
Proof.
  intros Hkeys. cbn beta.
  destruct (part_entry actions part) as [[a ids]|] eqn:Hentry; [|done].
  apply part_entry_action in Hentry. split.
  - intros a' Ha'. destruct (decide (a = a')) as [->|Hne].
    + rewrite dict_get_set_eq. by eexists.
    + rewrite dict_get_set_ne by done. auto.
  - rewrite keys_dict_set. rewrite decide_True; [done|].
    destruct (Hkeys a Hentry) as [old Hold]. apply dict_get_Some_elem_of in Hold.
    apply list_elem_of_fmap. by exists (a, old).
Qed.

Lemma for_each_parse_part parts plan :
  has_keys plan →
  for_each (parse_part actions) parts plan = Ok (foldl add_part plan parts)
  ∧ keys (foldl add_part plan parts) = keys plan.
Proof.
  revert plan. induction parts as [|part parts IH]; intros plan Hkeys; [done|].
  rewrite for_each_cons, parse_part_entry, bind_Ok by done. cbn [foldl].
  destruct (add_part_keys part plan Hkeys) as [Hk1 Hk2].
  destruct (IH _ Hk1) as [H1 H2]. split; [exact H1|]. etrans; [exact H2|exact Hk2].
Qed.

Lemma listed_add_part plan part a i :
  listed (add_part plan part) a i
  ↔ listed plan a i ∨ ∃ ids, part_entry actions part = Some (a, ids) ∧ i ∈ ids.
Proof.
  cbn beta. destruct (part_entry actions part) as [[a' ids]|]; [|naive_solver].
  unfold listed. destruct (decide (a' = a)) as [->|Hne].
  - rewrite dict_get_set_eq. cbn. rewrite elem_of_union. naive_solver.
  - rewrite dict_get_set_ne by done. naive_solver.
Qed.

Lemma listed_foldl_parts parts plan a i :
  listed (foldl add_part plan parts) a i
  ↔ listed plan a i
    ∨ ∃ part ids, part ∈ parts ∧ part_entry actions part = Some (a, ids) ∧ i ∈ ids.
Proof.
  revert plan. induction parts as [|part parts IH]; intros plan; cbn [foldl].
  - split; [by left|]. intros [?|(part & ? & Hp & _)]; [done|by apply elem_of_nil in Hp].
  - rewrite IH, listed_add_part. split.
    + intros [[?|(ids & ? & ?)]|(p & ids & ? & ? & ?)]; [by left| |].
      * right. exists part, ids. split; [apply list_elem_of_here|done].
      * right. exists p, ids. split; [by apply list_elem_of_further|done].
    + intros [?|(p & ids & Hp & ? & ?)]; [by left; left|].
      apply elem_of_cons in Hp as [->|Hp]; [left; right; by exists ids|].
      right. by exists p, ids.
Qed.

#[local] Abbreviation initial := ((λ a : string * string, (a.2, (∅ : gset Z))) <$> actions).

Lemma initial_keys : keys (initial : Plan) = actions.*2.
Proof. unfold keys. rewrite <- list_fmap_compose. by apply list_fmap_ext. Qed.

Lemma initial_has_keys : has_keys initial.
Proof. intros a Ha. apply dict_get_is_Some. by rewrite initial_keys. Qed.

Lemma listed_initial a i : ¬ listed initial a i.
Proof.
  unfold listed. destruct (dict_get a initial) as [ids|] eqn:E; [|set_solver].
  apply dict_get_Some_elem_of, list_elem_of_fmap in E as (x & [= _ ->] & _). set_solver.
Qed.

Lemma parse_plan_fold input :
  parse_plan actions input = Ok (foldl add_part initial (plan_parts (chars input))).
Proof.
  unfold parse_plan. case_bool_decide as Hblank.
  - by rewrite plan_parts_blank.
  - by destruct (for_each_parse_part (plan_parts (chars input)) initial initial_has_keys)
      as [-> _].
Qed.

Lemma listed_parse_plan input plan a i :
  parse_plan actions input = Ok plan →
  listed plan a i
  ↔ ∃ part ids, part ∈ plan_parts (chars input)
                ∧ part_entry actions part = Some (a, ids) ∧ i ∈ ids.
Proof.
  rewrite parse_plan_fold. intros [= <-]. rewrite listed_foldl_parts.
  pose proof (listed_initial a i). naive_solver.
Qed.

(** X12 ([parse_user_plan], [parse_outlier_plan],
    [parse_correlation_plan]): whatever text is typed, the parser raises
    nothing and returns a plan with exactly the keys it started from, in
    their order; every id in the plan stands under one of these keys and is
    not negative (a minus sign is always read as the dash of the format);
    text that is empty or blank gives the plan with empty sets. *)
Theorem parse_plan_total (user_input : string) :
  ∃ plan,
    parse_plan actions user_input = Ok plan
    ∧ keys plan = actions.*2
    ∧ (∀ a i, listed plan a i → a ∈ actions.*2 ∧ 0 ≤ i)
    ∧ (strip (chars user_input) = [] → plan = (λ a, (a.2, ∅)) <$> actions).
Proof.
  eexists. split; [apply parse_plan_fold|]. split_and!.
  - destruct (for_each_parse_part (plan_parts (chars user_input)) initial initial_has_keys)
      as [_ ->]. apply initial_keys.
  - intros a i Hl. apply listed_foldl_parts in Hl as [Hl|(part & ids & _ & He & Hi)].
    { by apply listed_initial in Hl. }
    split; [by eapply part_entry_action|].
    unfold part_entry in He. destruct (list_find _ actions) as [[j [kw action]]|]; [|done].
    destruct (split1 "-" part) as [|w [|rest [|? ?]]]; try done. injection He as _ <-.
    by eapply parse_ids_nonneg.
  - intros Hblank. by rewrite plan_parts_blank.
Qed.

(** X13 (the same parsers): a plan text is read part by part, the parts
    being separated by semicolons: the ids listed under an action are those
    contributed by the non-blank parts whose keyword selects that action,
    so parsing [s1 ; s2] lists exactly what parsing [s1] and parsing [s2]
    list, and a part given twice counts once. *)
Theorem parse_plan_semicolon (s1 s2 : string) :
  ∃ plan plan1 plan2,
    parse_plan actions (s1 +:+ ";" +:+ s2) = Ok plan
    ∧ parse_plan actions s1 = Ok plan1
    ∧ parse_plan actions s2 = Ok plan2
    ∧ (∀ a i, listed plan a i ↔ listed plan1 a i ∨ listed plan2 a i)
    ∧ (∀ a i, listed plan1 a i
              ↔ ∃ part ids, part ∈ plan_parts (chars s1)
                            ∧ part_entry actions part = Some (a, ids) ∧ i ∈ ids).
Proof.
  eexists _, _, _. split_and!; [apply parse_plan_fold..| |].
  - intros a i. rewrite !listed_foldl_parts, !chars_app.
    change (chars ";") with [";"%char]. cbn [app]. rewrite plan_parts_app.
    pose proof (listed_initial a i). setoid_rewrite elem_of_app. naive_solver.
  - intros a i. apply listed_parse_plan, parse_plan_fold.
Qed.
End ParsePlan.

(** ** The format of an id list *)

Lemma digit_of_solid a : is_Some (digit_of a) →
  isspace a = false ∧ a ≠ "-"%char ∧ a ≠ ","%char ∧ a ≠ "+"%char ∧ a ≠ "_"%char.
Proof.
  intros [d Hd]. split.
  - unfold digit_of in Hd. unfold isspace. case_bool_decide; [|done].
    apply bool_decide_eq_false. lia.
  - split_and!; intros ->; by vm_compute in Hd.
Qed.

Lemma uint_chars u a :
  a ∈ chars (DecimalString.NilEmpty.string_of_uint u) → is_Some (digit_of a).
Proof.
  unfold chars.
  induction u; cbn [DecimalString.NilEmpty.string_of_uint String.list_ascii_of_string];
    rewrite ?elem_of_cons; try (intros [->|?]; [by vm_compute; eexists|auto]).
  by intros ?%elem_of_nil.
Qed.

Lemma digits_of_uint u acc b :
  u ≠ Decimal.Nil ∨ b = true →
  digits (Z.of_nat acc) b (chars (DecimalString.NilEmpty.string_of_uint u))
  = Some (Z.of_nat (Nat.of_uint_acc u acc)).
Proof.
  unfold chars. revert acc b.
  induction u as [|u IH|u IH|u IH|u IH|u IH|u IH|u IH|u IH|u IH|u IH]; intros acc b Hb;
    cbn [DecimalString.NilEmpty.string_of_uint String.list_ascii_of_string digits
         Nat.of_uint_acc].
  { by destruct Hb as [?| ->]. }
  all: match goal with
       | |- context [digit_of ?c] =>
           let v := eval vm_compute in (digit_of c) in change (digit_of c) with v
       end; cbv iota.
  all: (etrans; [|apply (IH _ true); by right]).
  all: f_equal; rewrite ?Nat.tail_mul_spec; lia.
Qed.

Lemma to_uint_nonnil n : Nat.to_uint n ≠ Decimal.Nil.
Proof.
  rewrite <- (DecimalNat.Unsigned.of_to n) at 1. rewrite DecimalNat.Unsigned.to_of.
  apply DecimalFacts.unorm_nonnil.
Qed.

Lemma decimal_uint n :
  decimal n = chars (DecimalString.NilEmpty.string_of_uint (Nat.to_uint n)).
Proof.
  unfold decimal, DecimalString.NilZero.string_of_uint.
  pose proof (to_uint_nonnil n). by destruct (Nat.to_uint n).
Qed.

Lemma decimal_chars n a : a ∈ decimal n → is_Some (digit_of a).
Proof. rewrite decimal_uint. apply uint_chars. Qed.

Lemma decimal_solid n : Forall solid (decimal n).
Proof.
  apply Forall_forall. intros a Ha. by apply decimal_chars, digit_of_solid in Ha as [? _].
Qed.

Lemma decimal_no_dash n : "-"%char ∉ decimal n.
Proof. intros Ha. by apply decimal_chars, digit_of_solid in Ha as (_ & ? & _). Qed.

Lemma int_of_str_decimal n : int_of_str (decimal n) = Some (Z.of_nat n).
Proof.
  unfold int_of_str. rewrite strip_solid by apply decimal_solid.
  destruct (decimal n) as [|a ds] eqn:E.
  - exfalso. rewrite decimal_uint in E. pose proof (to_uint_nonnil n).
    by destruct (Nat.to_uint n).
  - assert (a ∈ decimal n) as Ha by (rewrite E; apply list_elem_of_here).
    apply decimal_chars, digit_of_solid in Ha as (_ & Hm & _ & Hp & _).
    rewrite !bool_decide_false by done. rewrite <- E, decimal_uint.
    rewrite (digits_of_uint _ 0 false) by (left; apply to_uint_nonnil).
    do 2 f_equal. apply DecimalNat.Unsigned.of_to.
Qed.

Lemma sub_ids_item it : sub_ids (item_text it) = item_ids it.
Proof.
  unfold sub_ids. destruct it as [n|a b]; cbn [item_text item_ids].
  - rewrite bool_decide_false by apply decimal_no_dash. by rewrite int_of_str_decimal.
  - rewrite bool_decide_true by (apply elem_of_app; right; apply list_elem_of_here).
    rewrite split_app, !split_no_sep by apply decimal_no_dash. cbn.
    by rewrite !int_of_str_decimal.
Qed.

Lemma item_text_chars it a : a ∈ item_text it → isspace a = false ∧ a ≠ ","%char.
Proof.
  assert (∀ n, a ∈ decimal n → isspace a = false ∧ a ≠ ","%char) as Hd.
  { intros n Ha. by apply decimal_chars, digit_of_solid in Ha as (? & _ & ? & _). }
  destruct it as [n|x y]; cbn [item_text]; [apply Hd|].
  rewrite elem_of_app, elem_of_cons. intros [?|[->|?]]; [by eapply Hd|done|by eapply Hd].
Qed.

Lemma item_written_strip text it :
  item_written text it → strip text = item_text it ∧ ","%char ∉ text.
Proof.
  intros (l & r & Hl & Hr & ->). split.
  - apply strip_pad; [done..|]. apply Forall_forall. intros a Ha.
    by apply item_text_chars in Ha as [? _].
  - assert (∀ w, Forall blank w → ","%char ∉ w) as Hblank.
    { intros w Hw Hin. rewrite Forall_forall in Hw. by apply Hw in Hin. }
    rewrite !elem_of_app. intros [?|[Hin|?]]; [by apply (Hblank l)| |by apply (Hblank r)].
    by apply item_text_chars in Hin as [_ ?].
Qed.

(** X14 (the id lists of [parse_user_plan], [parse_outlier_plan],
    [parse_correlation_plan]): an id list written as decimal numbers and
    ranges [a-b], separated by commas, with any blanks around the items,
    is read as exactly the ids written: each number, and for each range
    every id from [a] to [b] inclusive (none when [a > b]). *)
Theorem id_list_format (texts : list (list ascii)) (items : list id_item) :
  Forall2 item_written texts items →
  parse_ids (join "," texts) = ⋃ (item_ids <$> items)
  ∧ ∀ i, i ∈ parse_ids (join "," texts)
         ↔ ∃ it, it ∈ items
                 ∧ match it with
                   | one n => i = Z.of_nat n
                   | span a b => Z.of_nat a ≤ i ≤ Z.of_nat b
                   end.
Proof.
  intros Hw.
  assert (strip <$> split "," (join "," texts) = item_text <$> items ∨ items = [] ∧ texts = [])
    as Hsplit.
  { destruct texts as [|t texts]; [apply Forall2_nil_inv_l in Hw; by right|left].
    rewrite split_join; [|done|].
    - apply list_eq. intros j. rewrite !list_lookup_fmap.
      destruct ((t :: texts) !! j) as [tj|] eqn:Hj.
      + destruct (Forall2_lookup_l _ _ _ _ _ Hw Hj) as (it & -> & Hit). cbn.
        by apply item_written_strip in Hit as [-> _].
      + rewrite (lookup_ge_None_2 items j); [done|].
        rewrite <- (Forall2_length _ _ _ Hw). by apply lookup_ge_None.
    - apply Forall_forall. intros tj Htj. apply list_elem_of_lookup_1 in Htj as [j Hj].
      destruct (Forall2_lookup_l _ _ _ _ _ Hw Hj) as (it & _ & Hit).
      by apply item_written_strip in Hit as [_ ?]. }
  assert (∀ i, i ∈ parse_ids (join "," texts) ↔ ∃ it, it ∈ items ∧ i ∈ item_ids it) as Hin.
  { intros i. rewrite elem_of_parse_ids. destruct Hsplit as [->|[-> ->]].
    - setoid_rewrite list_elem_of_fmap. split.
      + intros (sub & (it & -> & Hit) & Hi). exists it. by rewrite <- sub_ids_item.
      + intros (it & Hit & Hi). exists (item_text it). rewrite sub_ids_item. eauto.
    - cbn. split; [|by intros (it & ?%elem_of_nil & _)].
      intros (sub & ->%list_elem_of_singleton & Hi). by vm_compute in Hi. }
  split.
  - apply set_eq. intros i. rewrite Hin, elem_of_union_list.
    setoid_rewrite list_elem_of_fmap. naive_solver.
  - intros i. rewrite Hin. split; intros (it & Hit & Hi); exists it; (split; [done|]);
      destruct it; cbn [item_ids] in *;
      by rewrite ?elem_of_singleton, ?elem_of_range_set in *.
Qed.

Lemma id_list_format_witness :
  parse_ids (chars "4, 5-7 ,10") = {[ 4; 5; 6; 7; 10 ]}.
Proof.
  destruct (id_list_format [chars "4"; chars " 5-7 "; chars "10"]
              [one 4; span 5 7; one 10]) as [H _].
  - repeat constructor.
    + exists [], []. by repeat constructor.
    + exists [" "%char], [" "%char]. by repeat constructor.
    + exists [], []. by repeat constructor.
  - change (join "," _) with (chars "4, 5-7 ,10") in H. rewrite H. by vm_compute.
Defined.

Lemma range_set_empty a b : a > b → range_set a b = ∅.
Proof.
  intros Hab. apply set_eq. intros i. rewrite elem_of_range_set. set_solver by lia.
Qed.

Lemma reply_ids_sub_ids part : reply_ids part = sub_ids part.
Proof.
  unfold reply_ids, sub_ids. case_bool_decide; [|done].
  destruct (mapM int_of_str (split "-" part)) as [[|a [|b [|c l]]]|]; try done.
  case_bool_decide; [|done]. by rewrite range_set_empty.
Qed.

Lemma parse_reply_ids user_input :
  parse_reply user_input
  = if bool_decide (lower user_input = "none") then None
    else Some (parse_ids (chars user_input)).
Proof.
  unfold parse_reply, parse_ids. case_bool_decide; [done|]. f_equal.
  generalize (∅ : gset Z). induction (strip <$> split "," (chars user_input)) as [|x l IH];
    intros acc; [done|]. cbn [foldl]. by rewrite reply_ids_sub_ids, IH.
Qed.



Lemma parse_plan_total_witness :
  parse_user_plan "mean -1,2,3 ; median -4,5-7 ; mode-8,9 ; drop -10,11-13;"
  = Ok [ ("mean", {[ 1; 2; 3 ]}); ("median", {[ 4; 5; 6; 7 ]}); ("mode", {[ 8; 9 ]});
         ("drop_col", {[ 10; 11; 12; 13 ]}) ]
  ∧ parse_outlier_plan "cap -1,2,3 ; remove_rows -4-6 ; none -7,8 ;"
    = Ok [ ("cap", {[ 1; 2; 3 ]}); ("remove_rows", {[ 4; 5; 6 ]}); ("none", {[ 7; 8 ]}) ]
  ∧ parse_correlation_plan "drop -1,2 ; keep -3,4 ;"
    = Ok [ ("drop", {[ 1; 2 ]}); ("keep", {[ 3; 4 ]}) ].
Proof.
  unfold parse_user_plan, parse_outlier_plan, parse_correlation_plan. split_and!.
  - destruct (parse_plan_total
                [("mean", "mean"); ("median", "median"); ("mode", "mode"); ("drop", "drop_col")]
                "mean -1,2,3 ; median -4,5-7 ; mode-8,9 ; drop -10,11-13;") as (plan & H & _).
    rewrite H. vm_compute in H. by injection H as <-.
  - destruct (parse_plan_total
                [("cap", "cap"); ("remove_rows", "remove_rows"); ("none", "none")]
                "cap -1,2,3 ; remove_rows -4-6 ; none -7,8 ;") as (plan & H & _).
    rewrite H. vm_compute in H. by injection H as <-.
  - destruct (parse_plan_total [("drop", "drop"); ("keep", "keep")]
                "drop -1,2 ; keep -3,4 ;") as (plan & H & _).
    rewrite H. vm_compute in H. by injection H as <-.
Defined.

Lemma parse_plan_semicolon_witness :
  ∃ plan,
    parse_user_plan ("mean -1 ; drop -2" +:+ ";" +:+ "mean-3,1") = Ok plan
    ∧ (∀ i, listed plan "mean" i ↔ i = 1 ∨ i = 3)
    ∧ (∀ i, listed plan "drop_col" i ↔ i = 2).
Proof.
  destruct (parse_plan_semicolon
              [("mean", "mean"); ("median", "median"); ("mode", "mode"); ("drop", "drop_col")]
              "mean -1 ; drop -2" "mean-3,1") as (plan & p1 & p2 & H & H1 & H2 & Hl & _).
  exists plan. split; [exact H|].
  assert (Ok p1 = Ok [ ("mean", {[ 1 ]}); ("median", ∅); ("mode", ∅);
                       ("drop_col", ({[ 2 ]} : gset Z)) ]) as [= ->]
    by (rewrite <- H1; by vm_compute).
  assert (Ok p2 = Ok [ ("mean", {[ 1; 3 ]}); ("median", ∅); ("mode", ∅);
                       ("drop_col", (∅ : gset Z)) ]) as [= ->]
    by (rewrite <- H2; by vm_compute).
  split; intros i; rewrite Hl; unfold listed; cbn; set_solver.
Defined.

(** ** The outlier suggestions of the two paths *)

Lemma Qfloor_between (x : Q) (n : Z) :
  (inject_Z n <= x)%Q → (x < inject_Z (n + 1))%Q → Qfloor x = n.
Proof.
  intros Hle Hlt. pose proof (Qfloor_le x) as H1. pose proof (Qlt_floor x) as H2.
  assert (inject_Z n < inject_Z (Qfloor x + 1))%Q as H3 by by eapply Qle_lt_trans.
  assert (inject_Z (Qfloor x) < inject_Z (n + 1))%Q as H4 by by eapply Qle_lt_trans.
  rewrite <- Zlt_Qlt in H3, H4. lia.
Qed.

Lemma round_half_even_bounds (q : Q) :
  (inject_Z (round_half_even q) - (1 # 2) <= q
   ∧ q <= inject_Z (round_half_even q) + (1 # 2))%Q.
Proof.
  unfold round_half_even. pose proof (Qfloor_le q) as H1. pose proof (Qlt_floor q) as H2.
  rewrite inject_Z_plus in H2. change (inject_Z 1) with 1%Q in H2.
  destruct (Qlt_bool _ _) eqn:E1; [apply Qlt_bool_iff in E1; lra|].
  apply Qlt_bool_false_iff in E1.
  destruct (Qeq_bool _ _) eqn:E2.
  - apply Qeq_bool_iff in E2.
    destruct (Z.even _); rewrite ?inject_Z_plus; change (inject_Z 1) with 1%Q; lra.
  - rewrite inject_Z_plus. change (inject_Z 1) with 1%Q. lra.
Qed.

Lemma round2_eq (q : Q) :
  (round2 q == inject_Z (round_half_even (q * 100)) * (1 # 100))%Q.
Proof. unfold round2. apply Qred_correct. Qed.

Lemma round2_le_10 (q : Q) : (q <= 10)%Q → ¬ (10 < round2 q)%Q.
Proof.
  intros Hq Hlt. rewrite round2_eq in Hlt.
  pose proof (round_half_even_bounds (q * 100)) as [H1 _].
  set (n := round_half_even (q * 100)) in *.
  assert (inject_Z 1000 < inject_Z n)%Q as H2 by (change (inject_Z 1000) with 1000%Q; lra).
  rewrite <- Zlt_Qlt in H2.
  assert (inject_Z 1001 <= inject_Z n)%Q as H4 by (rewrite <- Zle_Qle; lia).
  change (inject_Z 1001) with 1001%Q in H4. lra.
Qed.

Lemma round2_gt_window (q : Q) : (10 + (1 # 200) < q)%Q → (10 < round2 q)%Q.
Proof.
  intros Hq. rewrite round2_eq.
  pose proof (round_half_even_bounds (q * 100)) as [_ H1].
  set (n := round_half_even (q * 100)) in *.
  assert (inject_Z 1000 < inject_Z n)%Q as H2 by (change (inject_Z 1000) with 1000%Q; lra).
  rewrite <- Zlt_Qlt in H2.
  assert (inject_Z 1001 <= inject_Z n)%Q as H4 by (rewrite <- Zle_Qle; lia).
  change (inject_Z 1001) with 1001%Q in H4. lra.
Qed.

Lemma round2_in_window (q : Q) :
  (10 < q)%Q → (q <= 10 + (1 # 200))%Q → ¬ (10 < round2 q)%Q.
Proof.
  intros Hlo Hhi Hlt. rewrite round2_eq in Hlt.
  assert (round_half_even (q * 100) = 1000) as Hn.
  { unfold round_half_even.
    assert (Qfloor (q * 100) = 1000) as ->.
    { apply Qfloor_between; [change (inject_Z 1000) with 1000%Q; lra|].
      change (inject_Z (1000 + 1)) with 1001%Q. lra. }
    change (inject_Z 1000) with 1000%Q.
    destruct (Qlt_bool _ _) eqn:E1; [done|]. apply Qlt_bool_false_iff in E1.
    destruct (Qeq_bool _ _) eqn:E2; [done|]. exfalso.
    apply Qeq_bool_neq in E2. apply E2. lra. }
  rewrite Hn in Hlt. revert Hlt. by vm_compute.
Qed.

Lemma get_loc_lookup df i s :
  NoDup (columns df) → cols df !! i = Some s → get_loc df (name s) = Ok i.
Proof.
  intros Hnd Hs. unfold get_loc.
  destruct (list_find _ (cols df)) as [[j sj]|] eqn:E.
  - apply list_find_Some in E as (Hj & Hn & _). f_equal.
    by eapply descriptor_name_inj.
  - apply list_find_None in E. rewrite Forall_forall in E. exfalso.
    apply (E s); [by eapply list_elem_of_lookup_2|done].
Qed.

(** The entry of [api_outliers_suggestions] expected for the column [s]. *)
Lemma api_outlier_suggest_lookup df i s d :
  NoDup (columns df) → cols df !! i = Some s →
  api_outlier_suggest df (name s) d
  = Ok (if bool_decide (0 < outlier_count s)%nat
        then dict_set (Z.of_nat i + 1)
               (mkOutlierSuggestion (name s)
                  (fround2 (percentage (outlier_count s) (nrows df)))
                  (if fgt (percentage (outlier_count s) (nrows df)) (Some 10%Q)
                   then "remove_rows" else "cap")) d
        else d).
Proof.
  intros Hnd Hs. unfold api_outlier_suggest, outlier_count.
  rewrite (getitem_lookup df i s Hnd Hs), bind_Ok.
  destruct (iqr_bounds (values s)) as [lo hi]. cbn [fst snd].
  case_bool_decide; [|done]. by rewrite (get_loc_lookup df i s Hnd Hs).
Qed.

Lemma api_outliers_suggestions_fold df l d :
  NoDup (columns df) → l ⊆ cols df →
  ∃ d', for_each (api_outlier_suggest df) (name <$> l) d = Ok d'
    ∧ ∀ i s, cols df !! i = Some s →
        dict_get (Z.of_nat i + 1) d'
        = if bool_decide (name s ∈ name <$> l ∧ (0 < outlier_count s)%nat)
          then Some (mkOutlierSuggestion (name s)
                       (fround2 (percentage (outlier_count s) (nrows df)))
                       (if fgt (percentage (outlier_count s) (nrows df)) (Some 10%Q)
                        then "remove_rows" else "cap"))
          else dict_get (Z.of_nat i + 1) d.
Proof.
  intros Hnd. revert d. induction l as [|sj l IH]; intros d Hsub.
  - exists d. split; [done|]. intros i s Hs. rewrite bool_decide_false; [done|].
    intros [?%elem_of_nil _]. done.
  - assert (sj ∈ cols df) as Hsj by (apply Hsub, list_elem_of_here).
    apply list_elem_of_lookup_1 in Hsj as [j Hj].
    rewrite fmap_cons, for_each_cons, (api_outlier_suggest_lookup df j sj d Hnd Hj), bind_Ok.
    edestruct IH as (d' & -> & Hget); [set_solver|]. exists d'. split; [done|].
    intros i s Hs. rewrite (Hget i s Hs). clear Hget.
    destruct (decide (name s ∈ name <$> l ∧ (0 < outlier_count s)%nat)) as [Hin|Hout].
    + rewrite !bool_decide_true; [done|set_solver|done].
    + rewrite (bool_decide_false _ Hout). destruct (decide (i = j)) as [->|Hne].
      * assert (s = sj) as -> by congruence.
        destruct (decide (0 < outlier_count sj)%nat) as [Hc|Hc].
        -- rewrite !bool_decide_true; [|split; [apply list_elem_of_here|done]|done].
           by rewrite dict_get_set_eq.
        -- rewrite !bool_decide_false; [done|by intros [_ ?]|done].
      * assert (name s ≠ name sj) as Hs'.
        { intros Hn. apply Hne. symmetry. by eapply descriptor_name_inj. }
        rewrite (bool_decide_false (name s ∈ name sj :: (name <$> l) ∧ _)) by set_solver.
        case_bool_decide; [|done]. rewrite dict_get_set_ne; [done|lia].
Qed.

(** X16 ([api_outliers_suggestions], [detect_and_handle_outliers]): the
    two paths suggest for the same columns, those of dtype float64 or int64
    with at least one cell outside the IQR bounds, under the same ids.
    The HTTP path compares the exact percentage of outliers with 10 and
    reports it rounded; the interactive path compares the rounded
    percentage.  So they suggest the same action unless the exact
    percentage lies in (10, 10.005]: there the HTTP path says
    [remove_rows] and the interactive path says [cap]. *)
Theorem outlier_suggestions_agree (df : DataFrame) (i : nat) (s : Series) :
  NoDup (columns df) → (0 < nrows df)%nat → cols df !! i = Some s →
  let col_id := Z.of_nat i + 1 in
  let pct := (inject_Z (Z.of_nat (outlier_count s)) / inject_Z (Z.of_nat (nrows df)) * 100)%Q in
  ∃ api table cli,
    api_outliers_suggestions df = Ok api
    ∧ detect_outliers df (get_df_info df) = Ok (table, cli)
    ∧ (dtype s ∉ ["float64"; "int64"] ∨ outlier_count s = 0%nat →
       dict_get col_id api = None ∧ dict_get col_id cli = None)
    ∧ (dtype s ∈ ["float64"; "int64"] → (0 < outlier_count s)%nat →
       ∃ a_api a_cli,
         dict_get col_id api = Some (mkOutlierSuggestion (name s) (Some (round2 pct)) a_api)
         ∧ dict_get col_id cli = Some a_cli
         ∧ a_api = (if Qlt_bool 10 pct then "remove_rows" else "cap")
         ∧ a_cli = (if Qlt_bool 10 (round2 pct) then "remove_rows" else "cap")
         ∧ ((pct <= 10)%Q ∨ (10 + (1 # 200) < pct)%Q → a_api = a_cli)
         ∧ ((10 < pct)%Q → (pct <= 10 + (1 # 200))%Q →
            a_api = "remove_rows" ∧ a_cli = "cap")).
Proof.
  intros Hnd Hrows Hs col_id pct.
  destruct (api_outliers_suggestions_fold df (numeric_series df) [] Hnd)
    as (api & Hapi & Hget).
  { intros x Hx. unfold numeric_series in Hx. by apply list_elem_of_filter in Hx as [_ ?]. }
  destruct (detect_outliers_lookup df i s Hnd Hrows Hs) as (table & Hcli & Hnone & Hsome).
  exists api, table, (outlier_global_suggestion table). split; [exact Hapi|].
  split; [exact Hcli|]. specialize (Hget i s Hs). fold col_id in Hget.
  assert (name s ∈ name <$> numeric_series df ↔ dtype s ∈ ["float64"; "int64"]) as Hnum.
  { assert (s ∈ cols df) as Hin by by eapply list_elem_of_lookup_2.
    unfold numeric_series. rewrite list_elem_of_fmap. split.
    - intros (s' & Hn & [Hdt Hs']%list_elem_of_filter).
      by rewrite (name_inj df s s' Hnd Hin Hs' Hn).
    - intros Hdt. exists s. split; [done|]. by apply list_elem_of_filter. }
  split.
  - intros Hout. split; [|by apply Hnone]. rewrite Hget, bool_decide_false; [done|].
    rewrite Hnum. intros [? ?]. destruct Hout as [?|Hz]; [done|lia].
  - intros Hdt Hcount. destruct (Hsome Hdt Hcount) as [_ Hact]. fold col_id in Hact.
    rewrite bool_decide_true in Hget by (by rewrite Hnum).
    assert (percentage (outlier_count s) (nrows df) = Some pct) as Hpct.
    { unfold percentage. rewrite bool_decide_false by lia. done. }
    rewrite Hpct in Hget. cbn [fround2 fmap option_fmap option_map] in Hget.
    change (fgt (Some pct) (Some 10%Q)) with (Qlt_bool 10 pct) in Hget.
    eexists _, _. split; [exact Hget|]. split; [exact Hact|].
    assert (outlier_action (diagnostic_row df i s)
            = if Qlt_bool 10 (round2 pct) then "remove_rows" else "cap") as Hcli_act.
    { unfold outlier_action. cbn [outliers_pct diagnostic_row]. fold pct.
      destruct (Qlt_bool 10 (round2 pct)); [done|].
      by destruct (contains "rain" _). }
    rewrite Hcli_act. split_and!; [done|done| |].
    + intros [Hle|Hgt].
      * rewrite (proj2 (Qlt_bool_false_iff 10 pct)) by done.
        destruct (Qlt_bool 10 (round2 pct)) eqn:E; [|done].
        apply Qlt_bool_iff in E. by apply round2_le_10 in E.
      * rewrite (proj2 (Qlt_bool_iff 10 pct)) by lra.
        by rewrite (proj2 (Qlt_bool_iff 10 (round2 pct))) by by apply round2_gt_window.
    + intros Hlo Hhi. rewrite (proj2 (Qlt_bool_iff 10 pct)) by done.
      destruct (Qlt_bool 10 (round2 pct)) eqn:E; [|done].
      apply Qlt_bool_iff in E. exfalso. by apply (round2_in_window pct).
Qed.

Lemma outlier_suggestions_agree_witness :
  api_outliers_suggestions frame_outlier
  = Ok [(1, mkOutlierSuggestion "x" (Some (1667 # 100)%Q) "remove_rows")]
  ∧ snd <$> detect_outliers frame_outlier (get_df_info frame_outlier)
    = Ok [(1, "remove_rows")].
Proof.
  destruct (outlier_suggestions_agree frame_outlier 0
              (ints "int64" "x" [1; 2; 3; 4; 5; 100]))
    as (api & table & cli & Hapi & Hcli & _).
  - compute_done.
  - simpl. lia.
  - done.
  - split.
    + rewrite Hapi. vm_compute in Hapi. by injection Hapi as <-.
    + rewrite Hcli. vm_compute in Hcli. by injection Hcli as <- <-.
Defined.

(** ** Frames and descriptors after columns are dropped *)

Lemma filter_fmap {A B} (f : A → B) (P : B → Prop) `{!∀ y, Decision (P y)} (l : list A) :
  filter P (f <$> l) = f <$> filter (λ x, P (f x)) l.
Proof.
  induction l as [|x l IH]; [done|]. rewrite fmap_cons, !filter_cons.
  destruct (decide (P (f x))); by rewrite IH.
Qed.

Lemma filter_iff_elem {A} (P Q : A → Prop) `{!∀ x, Decision (P x)} `{!∀ x, Decision (Q x)}
    (l : list A) :
  (∀ x, x ∈ l → P x ↔ Q x) → filter P l = filter Q l.
Proof.
  induction l as [|x l IH]; [done|]. intros Hiff. rewrite !filter_cons.
  rewrite IH by (intros y Hy; apply Hiff; by apply list_elem_of_further).
  destruct (decide (P x)) as [HP|HP].
  - rewrite decide_True; [done|]. apply Hiff; [apply list_elem_of_here|done].
  - rewrite decide_False; [done|]. intros HQ. apply HP, Hiff; [apply list_elem_of_here|done].
Qed.

Lemma pairs_fst df : (pairs df).*1 = get_df_info df.
Proof. unfold pairs, get_df_info. rewrite fmap_imap. by apply imap_ext. Qed.

Lemma pairs_snd df : (pairs df).*2 = cols df.
Proof.
  unfold pairs. rewrite fmap_imap. apply list_eq. intros i.
  rewrite list_lookup_imap. by destruct (cols df !! i).
Qed.

Lemma elem_of_pairs df p :
  p ∈ pairs df ↔ ∃ j sj, cols df !! j = Some sj ∧ p = (descriptor df j sj, sj).
Proof.
  unfold pairs. rewrite elem_of_lookup_imap. naive_solver.
Qed.

Lemma pairs_same_id df p q :
  p ∈ pairs df → q ∈ pairs df → info_id p.1 = info_id q.1 → p = q.
Proof.
  intros (j & sj & Hj & ->)%elem_of_pairs (k & sk & Hk & ->)%elem_of_pairs. cbn.
  intros H. assert (j = k) as -> by lia. congruence.
Qed.

Lemma pairs_same_name df p q :
  NoDup (columns df) → p ∈ pairs df → q ∈ pairs df → name p.2 = name q.2 → p = q.
Proof.
  intros Hnd (j & sj & Hj & ->)%elem_of_pairs (k & sk & Hk & ->)%elem_of_pairs. cbn.
  intros H. assert (j = k) as -> by (by eapply descriptor_name_inj). congruence.
Qed.

Lemma pairs_column_name df p : p ∈ pairs df → column_name p.1 = name p.2.
Proof. by intros (j & sj & Hj & ->)%elem_of_pairs. Qed.

Lemma kept_empty df : kept df ∅ = pairs df.
Proof.
  unfold kept. induction (pairs df) as [|p l IH]; [done|].
  rewrite filter_cons, decide_True by set_solver. by rewrite IH.
Qed.

Lemma elem_of_kept df D p : p ∈ kept df D ↔ (info_id p.1 ∉ D) ∧ p ∈ pairs df.
Proof. unfold kept. by rewrite list_elem_of_filter. Qed.

Lemma kept_names df D : column_name <$> (kept df D).*1 = name <$> (kept df D).*2.
Proof.
  rewrite <- !list_fmap_compose. apply list_fmap_ext. intros i p Hp. cbn.
  apply (pairs_column_name df). apply list_elem_of_lookup_2 in Hp.
  by apply elem_of_kept in Hp as [_ ?].
Qed.

Lemma info_row_kept df D id r :
  info_row ((kept df D).*1) id = Ok r →
  ∃ s, (r, s) ∈ pairs df ∧ info_id r = id ∧ (id ∉ D).
Proof.
  unfold info_row. destruct (list_find _ _) as [[i x]|] eqn:E; [|done]. intros [= ->].
  apply list_find_Some in E as (Hi & Hid & _).
  apply list_elem_of_lookup_2, list_elem_of_fmap in Hi as ([r' s] & -> & Hp).
  apply elem_of_kept in Hp as [Hout Hp]. exists s. cbn in *. by subst.
Qed.

Lemma info_row_kept_Ok df D p :
  p ∈ kept df D → info_row ((kept df D).*1) (info_id p.1) = Ok p.1.
Proof.
  intros Hp. unfold info_row. destruct (list_find _ _) as [[i x]|] eqn:E.
  - apply list_find_Some in E as (Hi & Hid & _). f_equal.
    apply list_elem_of_lookup_2, list_elem_of_fmap in Hi as (q & -> & Hq).
    apply elem_of_kept in Hp as [_ Hp]. apply elem_of_kept in Hq as [_ Hq].
    by rewrite (pairs_same_id df q p Hq Hp Hid).
  - apply list_find_None in E. rewrite Forall_forall in E. exfalso.
    apply (E p.1); [|done]. by apply list_elem_of_fmap_2.
Qed.

Lemma info_row_pairs df p :
  p ∈ pairs df → info_row (get_df_info df) (info_id p.1) = Ok p.1.
Proof.
  intros Hp. rewrite <- pairs_fst, <- (kept_empty df). apply info_row_kept_Ok.
  by rewrite kept_empty.
Qed.

Lemma info_row_get_df_info_inv df id r :
  info_row (get_df_info df) id = Ok r → ∃ s, (r, s) ∈ pairs df ∧ info_id r = id.
Proof.
  intros H. rewrite <- pairs_fst, <- kept_empty in H.
  apply info_row_kept in H as (s & ? & ? & _). by exists s.
Qed.

(** Dropping the column of [p] from what [D] has left. *)
Lemma drop_kept df D p :
  NoDup (columns df) → p ∈ kept df D →
  df_drop (frame_without df D) [name p.2] = Ok (frame_without df (D ∪ {[ info_id p.1 ]}))
  ∧ filter (λ r, info_id r ≠ info_id p.1) ((kept df D).*1)
    = (kept df (D ∪ {[ info_id p.1 ]})).*1.
Proof.
  intros Hnd Hp. pose proof Hp as [Hout Hpp]%elem_of_kept.
  assert (kept df (D ∪ {[ info_id p.1 ]})
          = filter (λ q, info_id q.1 ≠ info_id p.1) (kept df D)) as Hkept.
  { unfold kept. rewrite list_filter_filter. apply list_filter_iff. set_solver. }
  split.
  - unfold df_drop, frame_without. rewrite bool_decide_true.
    2: { apply Forall_singleton. unfold columns. cbn [cols].
         apply list_elem_of_fmap_2. by apply (list_elem_of_fmap_2 snd). }
    cbn [nrows cols]. do 2 f_equal. rewrite filter_fmap, Hkept. f_equal.
    apply filter_iff_elem. intros q [_ Hq]%elem_of_kept. cbn.
    rewrite list_elem_of_singleton. split.
    + intros Hn Hid. apply Hn. by rewrite (pairs_same_id df q p Hq Hpp Hid).
    + intros Hid Hn. apply Hid. by rewrite (pairs_same_name df q p Hnd Hq Hpp Hn).
  - by rewrite filter_fmap, Hkept.
Qed.

(** ** The interactive correlation step *)

Lemma frame_without_empty df : frame_without df ∅ = df.
Proof. unfold frame_without. rewrite kept_empty, pairs_snd. by destruct df. Qed.

Lemma renumber_get_df_info df : renumber (get_df_info df) = get_df_info df.
Proof.
  unfold renumber, get_df_info. apply list_eq. intros i.
  rewrite !list_lookup_imap. by destruct (cols df !! i).
Qed.

Lemma corr_drop_listed_Ok df D p log :
  NoDup (columns df) → p ∈ kept df D →
  corr_drop_listed (info_id p.1) (frame_without df D, (kept df D).*1, log)
  = Ok (frame_without df (D ∪ {[ info_id p.1 ]}), (kept df (D ∪ {[ info_id p.1 ]})).*1,
        log ++ [log_drop (name p.2)]).
Proof.
  intros Hnd Hp. unfold corr_drop_listed. rewrite (info_row_kept_Ok df D p Hp), bind_Ok.
  destruct (drop_kept df D p Hnd Hp) as [Hd Hf].
  apply elem_of_kept in Hp as [_ Hp]. rewrite (pairs_column_name df p Hp), Hd, bind_Ok.
  by rewrite Hf.
Qed.

Lemma corr_drop_listed_inv df D id log st' :
  NoDup (columns df) →
  corr_drop_listed id (frame_without df D, (kept df D).*1, log) = Ok st' →
  ∃ log', st' = (frame_without df (D ∪ {[ id ]}), (kept df (D ∪ {[ id ]})).*1, log').
Proof.
  intros Hnd H. assert (∃ p, p ∈ kept df D ∧ info_id p.1 = id) as (p & Hp & <-).
  { unfold corr_drop_listed in H.
    destruct (info_row _ id) as [r|] eqn:E; [|by cbn].
    apply info_row_kept in E as (s & Hrs & Hid & Hout). exists (r, s).
    split; [|done]. apply elem_of_kept. cbn. by rewrite Hid. }
  rewrite (corr_drop_listed_Ok df D p log Hnd Hp) in H. injection H as <-. eauto.
Qed.

Lemma corr_drop_extra_inv df D id log st' :
  NoDup (columns df) →
  corr_drop_extra (get_df_info df) id (frame_without df D, (kept df D).*1, log) = Ok st' →
  ∃ D' log', st' = (frame_without df D', (kept df D').*1, log')
             ∧ D ⊆ D' ∧ D' ⊆ D ∪ {[ id ]}.
Proof.
  intros Hnd. unfold corr_drop_extra.
  destruct (info_row _ id) as [r|] eqn:E; [|by cbn]. rewrite bind_Ok.
  apply info_row_get_df_info_inv in E as (s & Hrs & Hid).
  case_bool_decide as Hin.
  - assert ((r, s) ∈ kept df D) as Hp.
    { unfold columns, frame_without in Hin. cbn [cols] in Hin.
      rewrite <- list_fmap_compose in Hin.
      apply list_elem_of_fmap in Hin as (q & Hn & Hq). cbn in Hn.
      pose proof (pairs_column_name df (r, s) Hrs) as Hc. cbn in Hc. rewrite Hc in Hn.
      pose proof Hq as [_ Hq']%elem_of_kept.
      by rewrite (pairs_same_name df (r, s) q Hnd Hrs Hq' Hn). }
    destruct (drop_kept df D (r, s) Hnd Hp) as [Hd Hf]. cbn [fst snd] in Hd, Hf.
    pose proof (pairs_column_name df (r, s) Hrs) as Hc. cbn in Hc.
    rewrite Hc, Hd, bind_Ok.
    intros [= <-]. rewrite Hid in *. rewrite Hf. eexists _, _. split; [done|set_solver].
  - intros [= <-]. eexists _, _. split; [done|set_solver].
Qed.

Lemma corr_drop_listed_loop df ids D log st' :
  NoDup (columns df) →
  for_each corr_drop_listed ids (frame_without df D, (kept df D).*1, log) = Ok st' →
  ∃ D' log', st' = (frame_without df D', (kept df D').*1, log')
             ∧ D ⊆ D' ∧ D' ⊆ D ∪ list_to_set ids.
Proof.
  intros Hnd. revert D log. induction ids as [|id ids IH]; intros D log.
  - intros [= <-]. eexists _, _. split; [done|set_solver].
  - rewrite for_each_cons.
    destruct (corr_drop_listed id _) as [st1|] eqn:E; [|by cbn]. rewrite bind_Ok.
    apply corr_drop_listed_inv in E as (log1 & ->); [|done].
    intros (D' & log' & -> & H1 & H2)%IH. eexists _, _. split; [done|set_solver].
Qed.

Lemma corr_drop_extra_loop df ids D log st' :
  NoDup (columns df) →
  for_each (corr_drop_extra (get_df_info df)) ids
    (frame_without df D, (kept df D).*1, log) = Ok st' →
  ∃ D' log', st' = (frame_without df D', (kept df D').*1, log')
             ∧ D ⊆ D' ∧ D' ⊆ D ∪ list_to_set ids.
Proof.
  intros Hnd. revert D log. induction ids as [|id ids IH]; intros D log.
  - intros [= <-]. eexists _, _. split; [done|set_solver].
  - rewrite for_each_cons.
    destruct (corr_drop_extra _ id _) as [st1|] eqn:E; [|by cbn]. rewrite bind_Ok.
    apply corr_drop_extra_inv in E as (D1 & log1 & -> & H1 & H2); [|done].
    intros (D' & log' & -> & H3 & H4)%IH. eexists _, _. split; [done|set_solver].
Qed.

Lemma corr_name_loop info ids st st' :
  for_each (corr_name info) ids st = Ok st' → st' = st.
Proof.
  induction ids as [|id ids IH]; [by intros [= <-]|]. rewrite for_each_cons.
  destruct (corr_name info id st) as [st1|] eqn:E; [|by cbn].
  assert (st1 = st) as ->; [|by rewrite bind_Ok].
  unfold corr_name in E. destruct (info_row info id); [|by cbn in E].
  rewrite bind_Ok in E. by injection E as <-.
Qed.

Lemma ids_in_subseteq ids target : list_to_set (ids_in ids target) ⊆ target.
Proof.
  intros i. unfold ids_in. rewrite elem_of_list_to_set, list_elem_of_filter. by intros [? _].
Qed.

Lemma corr_resolve_inv df uncovered answers D log st' answers' :
  NoDup (columns df) →
  corr_resolve (get_df_info df) uncovered answers
    (frame_without df D, (kept df D).*1, log) = Ok (st', answers') →
  ∃ D' log', st' = (frame_without df D', (kept df D').*1, log')
             ∧ D ⊆ D' ∧ D' ⊆ D ∪ uncovered.
Proof.
  intros Hnd. induction answers as [|choice answers IH]; [done|]. cbn [corr_resolve].
  case_bool_decide.
  - destruct (input answers) as [[extra_input answers1]|]; [|by cbn]. rewrite bind_Ok.
    destruct (parse_correlation_plan extra_input) as [extra_plan|]; [|by cbn]. rewrite bind_Ok.
    destruct (plan_item extra_plan "drop") as [drops|]; [|by cbn]. rewrite bind_Ok.
    destruct (for_each (corr_drop_extra _) _ _) as [st1|] eqn:E1; [|by cbn]. rewrite bind_Ok.
    apply corr_drop_extra_loop in E1 as (D1 & log1 & -> & H1 & H2); [|done].
    destruct (plan_item extra_plan "keep") as [keeps|]; [|by cbn]. rewrite bind_Ok.
    destruct (for_each (corr_name _) _ _) as [st2|] eqn:E2; [|by cbn]. rewrite bind_Ok.
    apply corr_name_loop in E2 as ->. intros [= <- <-].
    pose proof (ids_in_subseteq drops uncovered). eexists _, _. split; [done|set_solver].
  - case_bool_decide.
    + destruct (for_each (corr_drop_extra _) _ _) as [st1|] eqn:E1; [|by cbn]. rewrite bind_Ok.
      apply corr_drop_extra_loop in E1 as (D1 & log1 & -> & H1 & H2); [|done].
      intros [= <- <-]. eexists _, _. split; [done|set_solver].
    + case_bool_decide; [|apply IH].
      intros [= <- <-]. eexists _, _. split; [done|set_solver].
Qed.

Section HandleCorrelationFacts.
Variable pearson : list cell → list cell → float.

(** Whatever is replied, the step returns what is left of the frame and of
    its descriptors once some of the flagged columns are gone. *)
Lemma handle_high_correlation_inv df threshold answers h :
  NoDup (columns df) →
  handle_high_correlation pearson df (get_df_info df) threshold answers = Ok h →
  let flagged := high_corr_cols pearson (numeric_series df) threshold in
  ∃ D, D ⊆ list_to_set (info_id <$> cols_with_issues (get_df_info df) flagged)
       ∧ h_df h = frame_without df D
       ∧ h_info h = renumber ((kept df D).*1).
Proof.
  intros Hnd H flagged. unfold handle_high_correlation in H. fold flagged in H.
  assert (∃ D, D ⊆ list_to_set (info_id <$> cols_with_issues (get_df_info df) flagged)
               ∧ df = frame_without df D
               ∧ get_df_info df = renumber ((kept df D).*1)) as Hnone.
  { exists ∅. rewrite frame_without_empty, kept_empty, pairs_fst, renumber_get_df_info.
    split; [set_solver|done]. }
  case_bool_decide; [by injection H as <-|].
  case_bool_decide; [by injection H as <-|].
  set (A := list_to_set (info_id <$> cols_with_issues (get_df_info df) flagged) : gset Z) in *.
  destruct (for_each _ (corr_global_suggestion _) _) as [[]|]; [|by cbn]. rewrite bind_Ok in H.
  destruct (input answers) as [[approve answers1]|]; [|by cbn]. rewrite bind_Ok in H.
  destruct (if bool_decide (approve = "y") then _ else _) as [[user_plan answers2]|];
    [|by cbn]. rewrite bind_Ok in H.
  destruct (plan_item user_plan "drop") as [drops|]; [|by cbn]. rewrite bind_Ok in H.
  rewrite <- (frame_without_empty df) in H at 1.
  rewrite <- (pairs_fst df), <- (kept_empty df) in H at 1.
  destruct (for_each corr_drop_listed _ _) as [st1|] eqn:E1; [|by cbn]. rewrite bind_Ok in H.
  apply corr_drop_listed_loop in E1 as (D1 & log1 & -> & Hs1 & Hs2); [|done].
  pose proof (ids_in_subseteq drops A) as HA.
  destruct (plan_item user_plan "keep") as [keeps|]; [|by cbn]. rewrite bind_Ok in H.
  destruct (for_each (corr_name _) _ _) as [st2|] eqn:E2; [|by cbn]. rewrite bind_Ok in H.
  apply corr_name_loop in E2 as ->.
  destruct (if bool_decide (uncovered_ids A user_plan ≠ ∅) then _ else _)
    as [[st3 answers3]|] eqn:E3; [|by cbn]. rewrite bind_Ok in H.
  assert (∃ D' log', st3 = (frame_without df D', (kept df D').*1, log') ∧ D' ⊆ A)
    as (D' & log' & -> & HD').
  { case_bool_decide.
    - apply corr_resolve_inv in E3 as (D' & log' & -> & Hs3 & Hs4); [|done].
      eexists _, _. split; [done|]. unfold uncovered_ids in Hs4. set_solver.
    - injection E3 as <- <-. eexists _, _. split; [done|set_solver]. }
  injection H as <-. by exists D'.
Qed.
End HandleCorrelationFacts.

Lemma renumber_kept df D : renumber ((kept df D).*1) = get_df_info (frame_without df D).
Proof.
  unfold renumber, get_df_info, frame_without. cbn [cols nrows].
  rewrite !imap_fmap. apply imap_ext. intros i p Hp. cbn.
  apply list_elem_of_lookup_2, elem_of_kept in Hp as [_ Hp].
  by apply elem_of_pairs in Hp as (j & sj & _ & ->).
Qed.

Lemma keys_corr_global_suggestion issues :
  list_to_set (keys (corr_global_suggestion issues)) =@{gset Z} list_to_set (info_id <$> issues).
Proof.
  unfold corr_global_suggestion.
  enough (∀ d : dict Z string,
    list_to_set (keys (foldl (λ d r, dict_set (info_id r) "drop" d) d issues))
    =@{gset Z} list_to_set (keys d) ∪ list_to_set (info_id <$> issues)) as ->
    by set_solver.
  induction issues as [|r issues IH]; intros d; [set_solver|]. cbn [foldl].
  rewrite IH, keys_dict_set. destruct (decide (info_id r ∈ keys d)); set_solver.
Qed.

Section IssueIds.
Variable pearson : list cell → list cell → float.
Variables (df : DataFrame) (threshold : Q).
Local Abbreviation flagged := (high_corr_cols pearson (numeric_series df) threshold).
Local Abbreviation issue_ids :=
  (list_to_set (info_id <$> cols_with_issues (get_df_info df) flagged) : gset Z).

Lemma elem_of_issue_ids id :
  id ∈ issue_ids ↔ ∃ p, p ∈ pairs df ∧ info_id p.1 = id ∧ name p.2 ∈ flagged.
Proof.
  rewrite elem_of_list_to_set, list_elem_of_fmap. unfold cols_with_issues. split.
  - intros (r & -> & [Hr Hin]%list_elem_of_filter).
    rewrite <- pairs_fst in Hin. apply list_elem_of_fmap in Hin as (p & -> & Hp).
    exists p. by rewrite <- (pairs_column_name df p Hp).
  - intros (p & Hp & <- & Hn). exists p.1. split; [done|]. apply list_elem_of_filter.
    rewrite (pairs_column_name df p Hp). split; [done|].
    rewrite <- pairs_fst. apply list_elem_of_fmap. by exists p.
Qed.

Lemma issue_ids_name p : p ∈ pairs df → info_id p.1 ∈ issue_ids ↔ name p.2 ∈ flagged.
Proof.
  intros Hp. rewrite elem_of_issue_ids. split.
  - intros (q & Hq & Hid & Hn). by rewrite <- (pairs_same_id df q p Hq Hp Hid).
  - intros Hn. by exists p.
Qed.

Lemma flagged_two_numeric : flagged ≠ [] → (2 ≤ length (numeric_series df))%nat.
Proof.
  intros Hne. destruct flagged as [|nm l] eqn:E; [done|].
  assert (nm ∈ flagged) as Hnm by (rewrite E; apply list_elem_of_here).
  apply elem_of_high_corr_cols in Hnm as (c & s & Hs & _ & Hser).
  apply high_corr_series_nonempty in Hser as (r & Hlt & _).
  apply lookup_lt_Some in Hs. lia.
Qed.

Lemma corr_print_loop :
  for_each (λ p (u : unit), _ ← info_row (get_df_info df) p.1; mret u)
    (corr_global_suggestion (cols_with_issues (get_df_info df) flagged)) () = Ok ().
Proof.
  pose proof (keys_corr_global_suggestion (cols_with_issues (get_df_info df) flagged)) as Hk.
  assert (∀ p, p ∈ corr_global_suggestion (cols_with_issues (get_df_info df) flagged) →
               ∃ r, info_row (get_df_info df) p.1 = Ok r) as Hall.
  { intros p Hp. assert (p.1 ∈ issue_ids) as Hid.
    { rewrite <- Hk. apply elem_of_list_to_set, list_elem_of_fmap. by exists p. }
    apply elem_of_issue_ids in Hid as (q & Hq & <- & _). exists q.1.
    by apply info_row_pairs. }
  clear Hk. induction (corr_global_suggestion _) as [|p l IH]; [done|].
  rewrite for_each_cons. destruct (Hall p) as [r ->]; [apply list_elem_of_here|].
  rewrite bind_Ok. unfold mret, result_ret. rewrite bind_Ok. apply IH.
  intros q Hq. apply Hall. by apply list_elem_of_further.
Qed.

(** What is left once the columns with flagged names are gone. *)
Lemma kept_issue_ids :
  (kept df issue_ids).*2 = filter (λ s, name s ∉ flagged) (cols df).
Proof.
  trans (filter (λ s, name s ∉ flagged) ((pairs df).*2)); [|by rewrite pairs_snd].
  rewrite filter_fmap. f_equal. unfold kept.
  apply filter_iff_elem. intros p Hp. cbn. by rewrite (issue_ids_name p Hp).
Qed.
End IssueIds.

Lemma corr_drop_listed_all df ids D log :
  NoDup (columns df) → NoDup ids →
  (∀ id, id ∈ ids → (id ∉ D) ∧ ∃ p, p ∈ pairs df ∧ info_id p.1 = id) →
  ∃ log', for_each corr_drop_listed ids (frame_without df D, (kept df D).*1, log)
          = Ok (frame_without df (D ∪ list_to_set ids),
                (kept df (D ∪ list_to_set ids)).*1, log').
Proof.
  intros Hnd. revert D log. induction ids as [|id ids IH]; intros D log Hids Hall.
  - exists log. by replace (D ∪ list_to_set []) with D by set_solver.
  - apply NoDup_cons in Hids as [Hid Hids].
    destruct (Hall id) as (Hout & p & Hp & <-); [apply list_elem_of_here|].
    rewrite for_each_cons, (corr_drop_listed_Ok df D p log Hnd), bind_Ok
      by (by apply elem_of_kept).
    destruct (IH (D ∪ {[ info_id p.1 ]}) (log ++ [log_drop (name p.2)]) Hids)
      as [log' ->].
    + intros id' Hid'. destruct (Hall id') as [? ?]; [by apply list_elem_of_further|].
      split; [|done]. intros [?|Heq%elem_of_singleton]%elem_of_union; [done|].
      by rewrite Heq in Hid'.
    + exists log'.
      by replace (D ∪ list_to_set (info_id p.1 :: ids))
        with (D ∪ {[ info_id p.1 ]} ∪ list_to_set ids) by set_solver.
Qed.
